(** * The query engine of the list, stats and history endpoints

    A shallow embedding of the list query builder ([getTransformedValues],
    [addFiltersToQueryBuilder], the range guard, [performAggregationQuery]
    and [performHistoryQuery]) with the JavaScript store made explicit:
    objects live in a heap and are shared by reference, exceptions are an
    error result that keeps the store reached so far. *)

From Stdlib Require Import ZArith String Ascii List Bool Lia.
From stdpp Require Import list strings pretty.
Import ListNotations.

(** ** JavaScript values *)

Definition loc := nat.

(** Numbers are exact decimals: [VNum n] is the integer [n], [VDec m e]
    the decimal [m / 10^e], [VInf] the two infinities and [VNaN] the
    not-a-number value.  A JavaScript number written with up to fifteen
    significant digits behaves as its decimal under [<], [===],
    truthiness, printing and the page arithmetic.  Objects, arrays and
    query builders are references into the heap; caller-supplied
    functions are named by a number and interpreted by the environment. *)
Inductive value : Type :=
| VUndef
| VNull
| VNaN
| VBool (b : bool)
| VNum (n : Z)
| VStr (s : string)
| VRef (l : loc)
| VFun (f : nat)
| VDec (m : Z) (e : nat)
| VInf (negative : bool).

Definition object := list (string * value).

(** The closure handed to [queryBuilder.with('aggregations', qb => ...)]:
    the variables of [performAggregationQuery] it captures. *)
Record cte_closure := {
  cte_schema : value;
  cte_groupByExpr : string;
  cte_statsExpr : option string;
  cte_orderBy : value;
  cte_order : value;
  cte_filters : value
}.

#[local] Set Warnings "-register-all".

(** What a Knex builder has been asked so far, in call order. *)
Inductive qop : Type :=
| Where (column v : value)
| WhereCmp (column : value) (op : string) (v : value)
| WhereIn (column v : value)
| WhereRaw (sql : string) (bindings : list value)
| WhereNotNull (column : string)
| SelectAll
| SelectRaw (sql : string) (bindings : list value)
| FromTable (table : string)
| FromRaw (sql : string) (bindings : list value)
| CountAll
| Aggregate (fn alias sql : string)
| GroupBy (column : value)
| OrderBy (column direction : value)
| Offset (n : value)
| Limit (n : value)
| With (name : string) (callback : cte_closure)
| WithQuery (name : string) (sub : list qop).

Inductive cell : Type :=
| CObj (props : object)
| CArr (elems : list value)
| CQuery (ops : list qop).

Inductive error : Type :=
| HttpError (status : Z) (message : string)   (* createError(status, message) *)
| PlainError (message : string)               (* new Error(message) *)
| TypeError (message : string)                (* raised by the runtime *)
| JoiError (prefix : string)                  (* message = prefix ++ Joi's own text *)
| DbError (code : string)                     (* driver error carrying a PostgreSQL code *)
| CustomError (tag : nat).                    (* thrown by a caller-supplied function *)

(** [err.code] *)
Definition errorCode (e : error) : value :=
  match e with DbError code => VStr code | _ => VUndef end.

(** ** Store, results and the exception monad *)

Record state := {
  heap : list cell;
  executed : list (list qop)     (* the queries sent to the database, oldest first *)
}.

Inductive result (A : Type) : Type :=
| Ok (a : A) (s : state)
| Err (e : error) (s : state).
Arguments Ok {A} a s.
Arguments Err {A} e s.

Definition M (A : Type) : Type := state -> result A.

Definition ret {A} (a : A) : M A := fun s => Ok a s.
Definition throw {A} (e : error) : M A := fun s => Err e s.
Definition bind {A B} (m : M A) (k : A -> M B) : M B :=
  fun s => match m s with
           | Ok a s' => k a s'
           | Err e s' => Err e s'
           end.

Notation "'let*' x ':=' m 'in' k" := (bind m (fun x => k))
  (at level 10, x name, m at level 100, k at level 200).
Notation "m ';;' k" := (bind m (fun _ => k))
  (at level 100, k at level 200, right associativity).

Definition gets {A} (f : list cell -> A) : M A := fun s => Ok (f (heap s)) s.
Definition when (b : bool) (m : M unit) : M unit := if b then m else ret tt.

(** [xs.forEach(f)] *)
Fixpoint forEach {A} (f : A -> M unit) (xs : list A) : M unit :=
  match xs with
  | [] => ret tt
  | x :: rest => f x ;; forEach f rest
  end.

(** [xs.map(f)] for an [f] that may throw *)
Fixpoint mapM {A B} (f : A -> M B) (xs : list A) : M (list B) :=
  match xs with
  | [] => ret []
  | x :: rest => let* y := f x in let* ys := mapM f rest in ret (y :: ys)
  end.

Definition finalState {A} (r : result A) : state :=
  match r with Ok _ s => s | Err _ s => s end.

(** ** Objects as ordered property lists *)

Fixpoint assoc_get (k : string) (ps : object) : value :=
  match ps with
  | [] => VUndef
  | (k', v) :: rest => if String.eqb k k' then v else assoc_get k rest
  end.

Fixpoint assoc_set (k : string) (x : value) (ps : object) : object :=
  match ps with
  | [] => [(k, x)]
  | (k', v) :: rest =>
      if String.eqb k k' then (k, x) :: rest else (k', v) :: assoc_set k x rest
  end.

Fixpoint assoc_del (k : string) (ps : object) : object :=
  match ps with
  | [] => []
  | (k', v) :: rest =>
      if String.eqb k k' then rest else (k', v) :: assoc_del k rest
  end.

Definition has_key (k : string) (ps : object) : bool :=
  existsb (fun p => String.eqb k (fst p)) ps.

(** ** The parts of JavaScript and lodash the engine relies on *)

Definition isUndefined (v : value) : bool :=
  match v with VUndef => true | _ => false end.
Definition isString (v : value) : bool :=
  match v with VStr _ => true | _ => false end.
Definition isFunction (v : value) : bool :=
  match v with VFun _ => true | _ => false end.
Definition isNumber (v : value) : bool :=
  match v with VNum _ | VNaN | VDec _ _ | VInf _ => true | _ => false end.

(** [if (v)]: undefined, null, NaN, false, 0 and the empty string are falsy. *)
Definition truthy (v : value) : bool :=
  match v with
  | VUndef | VNull | VNaN => false
  | VBool b => b
  | VNum n => negb (n =? 0)%Z
  | VStr s => negb (String.eqb s "")
  | VRef _ | VFun _ => true
  | VDec m _ => negb (m =? 0)%Z
  | VInf _ => true
  end.

(** ** Numbers

    What a number value holds, and what a conversion to number yields:
    not-a-number, an infinity, or the decimal [m / 10^e]. *)
Inductive num : Type :=
| NNaN
| NInf (negative : bool)
| NFin (m : Z) (e : nat).

Definition pow10 (e : nat) : Z := (10 ^ Z.of_nat e)%Z.

Definition numOf (v : value) : option num :=
  match v with
  | VNaN => Some NNaN
  | VNum n => Some (NFin n 0)
  | VDec m e => Some (NFin m e)
  | VInf negative => Some (NInf negative)
  | _ => None
  end.

(** The decimal with its trailing zeros removed. *)
Fixpoint normalize (m : Z) (e : nat) : Z * nat :=
  match e with
  | O => (m, O)
  | S e' => if (m mod 10 =? 0)%Z then normalize (m / 10)%Z e' else (m, e)
  end.

Definition numValue (x : num) : value :=
  match x with
  | NNaN => VNaN
  | NInf negative => VInf negative
  | NFin m e =>
      match normalize m e with
      | (m', O) => VNum m'
      | (m', e') => VDec m' e'
      end
  end.

(** [x < y] on numbers; a comparison with NaN is false. *)
Definition num_lt (x y : num) : bool :=
  match x with
  | NNaN => false
  | NInf true => match y with NNaN | NInf true => false | _ => true end
  | NInf false => false
  | NFin m1 e1 =>
      match y with
      | NNaN | NInf true => false
      | NInf false => true
      | NFin m2 e2 => (m1 * pow10 e2 <? m2 * pow10 e1)%Z
      end
  end.

Definition num_sub (x y : num) : num :=
  match x, y with
  | NNaN, _ | _, NNaN => NNaN
  | NInf a, NInf b => if Bool.eqb a b then NNaN else NInf a
  | NInf a, NFin _ _ => NInf a
  | NFin _ _, NInf b => NInf (negb b)
  | NFin m1 e1, NFin m2 e2 => NFin (m1 * pow10 e2 - m2 * pow10 e1) (e1 + e2)
  end.

Definition num_mul (x y : num) : num :=
  match x, y with
  | NNaN, _ | _, NNaN => NNaN
  | NInf a, NInf b => NInf (xorb a b)
  | NInf a, NFin m _ | NFin m _, NInf a =>
      if (m =? 0)%Z then NNaN else NInf (xorb a (m <? 0)%Z)
  | NFin m1 e1, NFin m2 e2 => NFin (m1 * m2) (e1 + e2)
  end.

(** [a === b] *)
Definition strictEq (a b : value) : bool :=
  match a, b with
  | VUndef, VUndef | VNull, VNull => true
  | VBool x, VBool y => Bool.eqb x y
  | VNum x, VNum y => (x =? y)%Z
  | VStr x, VStr y => String.eqb x y
  | VRef x, VRef y => Nat.eqb x y
  | VFun x, VFun y => Nat.eqb x y
  | VNum x, VDec m e | VDec m e, VNum x => (x * pow10 e =? m)%Z
  | VDec m1 e1, VDec m2 e2 => (m1 * pow10 e2 =? m2 * pow10 e1)%Z
  | VInf x, VInf y => Bool.eqb x y
  | _, _ => false
  end.

(** *** Number to string *)

Fixpoint zeros (n : nat) : string :=
  match n with O => EmptyString | S n' => String "0" (zeros n') end.

Fixpoint strip_trailing_zeros (s : string) : string :=
  match s with
  | EmptyString => EmptyString
  | String c rest =>
      match strip_trailing_zeros rest with
      | EmptyString => if Ascii.eqb c "0" then EmptyString else String c EmptyString
      | rest' => String c rest'
      end
  end.

Fixpoint str_take (n : nat) (s : string) : string :=
  match n, s with
  | S n', String c rest => String c (str_take n' rest)
  | _, _ => EmptyString
  end.

Fixpoint str_drop (n : nat) (s : string) : string :=
  match n, s with
  | S n', String _ rest => str_drop n' rest
  | _, _ => s
  end.

(** [Number::toString]: the digits [s] of the number without trailing
    zeros and the position [n] of the decimal point decide between the
    plain, the fractional and the exponential notation. *)
Definition numToString (m : Z) (e : nat) : string :=
  if (m =? 0)%Z then "0"
  else
    let digits := pretty (Z.to_N (Z.abs m)) in
    let n := (Z.of_nat (String.length digits) - Z.of_nat e)%Z in
    let s := strip_trailing_zeros digits in
    let k := Z.of_nat (String.length s) in
    (if (m <? 0)%Z then "-" else "")
    +:+ (if ((k <=? n) && (n <=? 21))%Z then s +:+ zeros (Z.to_nat (n - k))
         else if ((0 <? n) && (n <=? 21))%Z
         then str_take (Z.to_nat n) s +:+ "." +:+ str_drop (Z.to_nat n) s
         else if ((-6 <? n) && (n <=? 0))%Z
         then "0." +:+ zeros (Z.to_nat (- n)) +:+ s
         else
           (if (k =? 1)%Z then s else str_take 1 s +:+ "." +:+ str_drop 1 s)
           +:+ "e" +:+ (if (n - 1 <? 0)%Z then "-" else "+")
           +:+ pretty (Z.to_N (Z.abs (n - 1)))).

(** The text a template literal [`${v}`] inserts; exact on primitives and
    plain objects. *)
Definition ToString (v : value) : string :=
  match v with
  | VUndef => "undefined"
  | VNull => "null"
  | VNaN => "NaN"
  | VBool true => "true"
  | VBool false => "false"
  | VNum n => numToString n 0
  | VStr s => s
  | VRef _ => "[object Object]"
  | VFun _ => "function"
  | VDec m e => numToString m e
  | VInf true => "-Infinity"
  | VInf false => "Infinity"
  end.

(** *** String to number *)

Definition digit_of (c : ascii) : option Z :=
  let n := (Z.of_N (N_of_ascii c) - 48)%Z in
  if ((0 <=? n) && (n <=? 9))%Z then Some n else None.

Fixpoint parse_digits (acc : Z) (s : string) : option Z :=
  match s with
  | EmptyString => Some acc
  | String c rest =>
      match digit_of c with
      | Some d => parse_digits (acc * 10 + d)%Z rest
      | None => None
      end
  end.

(** White space and line terminators, as far as one byte writes them. *)
Definition isStrWhiteSpace (c : ascii) : bool :=
  let n := nat_of_ascii c in
  (n =? 32) || ((9 <=? n) && (n <=? 13)).

Fixpoint trim_left (s : string) : string :=
  match s with
  | EmptyString => EmptyString
  | String c rest => if isStrWhiteSpace c then trim_left rest else s
  end.

Fixpoint trim_right (s : string) : string :=
  match s with
  | EmptyString => EmptyString
  | String c rest =>
      match trim_right rest with
      | EmptyString => if isStrWhiteSpace c then EmptyString else String c EmptyString
      | rest' => String c rest'
      end
  end.

Definition trim (s : string) : string := trim_right (trim_left s).

(** The leading decimal digits of a string, and what follows them. *)
Fixpoint span_digits (s : string) : string * string :=
  match s with
  | EmptyString => (EmptyString, EmptyString)
  | String c rest =>
      match digit_of c with
      | Some _ => let (ds, r) := span_digits rest in (String c ds, r)
      | None => (EmptyString, s)
      end
  end.

Definition digitsValue (ds : string) : Z :=
  match parse_digits 0 ds with Some n => n | None => 0%Z end.

(** The digit of a letter or figure, for the radix prefixes. *)
Definition radix_digit_of (radix : Z) (c : ascii) : option Z :=
  let n := Z.of_N (N_of_ascii c) in
  let d := if ((48 <=? n) && (n <=? 57))%Z then (n - 48)%Z
           else if ((97 <=? n) && (n <=? 102))%Z then (n - 87)%Z
           else if ((65 <=? n) && (n <=? 70))%Z then (n - 55)%Z
           else radix in
  if (d <? radix)%Z then Some d else None.

Fixpoint parse_radix (radix acc : Z) (s : string) : option Z :=
  match s with
  | EmptyString => Some acc
  | String c rest =>
      match radix_digit_of radix c with
      | Some d => parse_radix radix (acc * radix + d)%Z rest
      | None => None
      end
  end.

(** [mant * 10^scale], signed, as a number: beyond the largest double it
    is an infinity, below half the smallest it is zero. *)
Definition scaled (negative : bool) (mant scale : Z) : num :=
  let up := Z.max scale 0 in
  let down := Z.max (- scale) 0 in
  let size := Z.of_nat (String.length (pretty (Z.to_N mant))) in
  if (mant =? 0)%Z then NFin 0 0
  else if (400 <? scale)%Z then NInf negative
  else if (scale + size <? -400)%Z then NFin 0 0
  else if (2 ^ 1024 - 2 ^ 970 <=? mant * 10 ^ up / 10 ^ down)%Z then NInf negative
  else if (mant * 10 ^ up * 2 ^ 1075 <=? 10 ^ down)%Z then NFin 0 0
  else NFin ((if negative then -1 else 1) * mant * 10 ^ up) (Z.to_nat down).

(** [ExponentPart], if any, up to the end of the text. *)
Definition parse_exponent (s : string) : option Z :=
  match s with
  | EmptyString => Some 0%Z
  | String c rest =>
      if Ascii.eqb c "e" || Ascii.eqb c "E" then
        let signed := match rest with
                      | String "-" r => (true, r)
                      | String "+" r => (false, r)
                      | _ => (false, rest)
                      end in
        let (ds, after) := span_digits (snd signed) in
        if String.eqb ds EmptyString || negb (String.eqb after EmptyString) then None
        else Some (if fst signed then - digitsValue ds else digitsValue ds)%Z
      else None
  end.

(** [StrUnsignedDecimalLiteral] *)
Definition parse_decimal (negative : bool) (s : string) : num :=
  if String.eqb s "Infinity" then NInf negative
  else
    let (ip, r1) := span_digits s in
    let (fp, r2) := match r1 with
                    | String "." r => span_digits r
                    | _ => (EmptyString, r1)
                    end in
    if String.eqb ip EmptyString && String.eqb fp EmptyString then NNaN
    else match parse_exponent r2 with
         | None => NNaN
         | Some ex =>
             scaled negative (digitsValue (ip +:+ fp))
               (ex - Z.of_nat (String.length fp))
         end.

Definition parse_prefixed (radix : Z) (ds : string) : num :=
  match ds with
  | EmptyString => NNaN
  | _ => match parse_radix radix 0 ds with
         | Some n => scaled false n 0
         | None => NNaN
         end
  end.

(** String to number ([StringNumericLiteral]); white space is trimmed,
    the empty text is zero and whatever is no numeric literal is NaN. *)
Definition StringToNumber (s : string) : num :=
  match trim s with
  | EmptyString => NFin 0 0
  | String "0" (String "x" ds) | String "0" (String "X" ds) => parse_prefixed 16 ds
  | String "0" (String "o" ds) | String "0" (String "O" ds) => parse_prefixed 8 ds
  | String "0" (String "b" ds) | String "0" (String "B" ds) => parse_prefixed 2 ds
  | String "-" rest => parse_decimal true rest
  | String "+" rest => parse_decimal false rest
  | text => parse_decimal false text
  end.

(** [Number(v)] for a primitive; an object is converted to a primitive
    first, see [ToPrimitive]. *)
Definition ToNumber (v : value) : num :=
  match v with
  | VUndef | VRef _ | VFun _ => NNaN
  | VNull => NFin 0 0
  | VBool b => NFin (Z.b2z b) 0
  | VStr s => StringToNumber s
  | VNaN => NNaN
  | VNum n => NFin n 0
  | VDec m e => NFin m e
  | VInf negative => NInf negative
  end.

(** *** Comparison *)

(** The text an object turns into where a primitive is wanted: an array
    is its elements joined by commas, with nothing written for an
    undefined or null element nor for an array met again inside itself;
    a plain object is [[object Object]].  Functions and builders are
    written as [ToString] has them. *)
Fixpoint objectText (fuel : nat) (h : list cell) (seen : list loc) (v : value)
    {struct fuel} : string :=
  match v with
  | VRef l =>
      match h !! l, fuel with
      | Some (CArr elems), S fuel' =>
          if existsb (Nat.eqb l) seen then EmptyString
          else String.concat ","
                 (map (fun x => match x with
                                | VUndef | VNull => EmptyString
                                | _ => objectText fuel' h (l :: seen) x
                                end) elems)
      | Some (CArr _), O => EmptyString
      | _, _ => ToString v
      end
  | _ => ToString v
  end.

(** [ToPrimitive]; nesting is no deeper than the store is large. *)
Definition ToPrimitive (h : list cell) (v : value) : value :=
  match v with
  | VRef _ | VFun _ => VStr (objectText (S (length h)) h [] v)
  | _ => v
  end.

(** [a < b]: both sides are made primitive; two strings compare by code
    units, any other pair as numbers, and a comparison with NaN is
    false. *)
Definition js_lt (h : list cell) (a b : value) : bool :=
  match ToPrimitive h a, ToPrimitive h b with
  | VStr x, VStr y => String.ltb x y
  | x, y => num_lt (ToNumber x) (ToNumber y)
  end.

(** [parseInt(v, 10)]: the leading integer of the text of [v]. *)
Fixpoint leading_digits (s : string) : string :=
  match s with
  | EmptyString => EmptyString
  | String c rest =>
      match digit_of c with
      | Some _ => String c (leading_digits rest)
      | None => EmptyString
      end
  end.

Definition parseInt10 (v : value) : value :=
  let of_digits (neg : bool) (s : string) :=
    match leading_digits s with
    | EmptyString => VNaN
    | ds => match parse_digits 0 ds with
            | Some n => VNum (if neg then - n else n)%Z
            | None => VNaN
            end
    end in
  match trim_left (ToString v) with
  | String "-" r => of_digits true r
  | String "+" r => of_digits false r
  | s => of_digits false s
  end.

(** ** Reading and writing the heap *)

Definition cellAt (h : list cell) (v : value) : option cell :=
  match v with VRef l => h !! l | _ => None end.

Definition isPlainObject (h : list cell) (v : value) : bool :=
  match cellAt h v with Some (CObj _) => true | _ => false end.

(** [v.k] where the read cannot throw; the names the engine reads
    ([value], [lt], [gte], ...) are undefined on primitives, arrays and
    builders. *)
Definition prop (h : list cell) (v : value) (k : string) : value :=
  match cellAt h v with Some (CObj ps) => assoc_get k ps | _ => VUndef end.

Definition getProp (v : value) (k : string) : M value :=
  fun s =>
    match v with
    | VUndef | VNull =>
        Err (TypeError ("Cannot read property '" +:+ k +:+ "' of " +:+ ToString v)) s
    | _ => Ok (prop (heap s) v k) s
    end.

(** [const { ... } = v] *)
Definition destructure (v : value) : M unit :=
  match v with
  | VUndef | VNull =>
      throw (TypeError ("Cannot destructure '" +:+ ToString v +:+ "'"))
  | _ => ret tt
  end.

Definition writeCell (l : loc) (c : cell) (s : state) : state :=
  {| heap := <[l := c]> (heap s); executed := executed s |}.

(** [v.k = x]; the engine only assigns into plain objects. *)
Definition setProp (v : value) (k : string) (x : value) : M unit :=
  fun s =>
    match v with
    | VUndef | VNull =>
        Err (TypeError ("Cannot set property '" +:+ k +:+ "' of " +:+ ToString v)) s
    | VRef l =>
        match heap s !! l with
        | Some (CObj ps) => Ok tt (writeCell l (CObj (assoc_set k x ps)) s)
        | _ => Ok tt s
        end
    | _ => Ok tt s
    end.

Definition alloc (c : cell) : M value :=
  fun s => Ok (VRef (length (heap s)))
              {| heap := heap s ++ [c]; executed := executed s |}.

(** [Object.keys(v)], in insertion order *)
Definition objectKeys (v : value) : M (list string) :=
  fun s =>
    match v with
    | VUndef | VNull =>
        Err (TypeError "Cannot convert undefined or null to object") s
    | _ => Ok (match cellAt (heap s) v with
               | Some (CObj ps) => map fst ps
               | _ => []
               end) s
    end.

(** A builder method call: the operation is recorded on the builder. *)
Definition push (queryBuilder : value) (op : qop) : M unit :=
  fun s =>
    match queryBuilder with
    | VRef l =>
        match heap s !! l with
        | Some (CQuery ops) => Ok tt (writeCell l (CQuery (ops ++ [op])) s)
        | _ => Err (TypeError "queryBuilder method is not a function") s
        end
    | _ => Err (TypeError "queryBuilder method is not a function") s
    end.

(** ** What the engine is handed from outside

    Caller-supplied functions read the store, may allocate fresh objects
    (returned as cells appended to the heap), and may throw; a custom
    query function emits operations on the builder it is given.
    [parseArrayValues] is a helper of [./list]; [database] is the
    storage behind an awaited builder. *)
Record Env := {
  transformFn : nat -> list cell -> value -> error + (value * list cell);
  queryFn : nat -> list cell -> value -> value -> error + list qop;
  parseArrayValues : list cell -> value -> error + (value * list cell);
  database : list qop -> error + list object
}.

Definition extend (fresh : list cell) (s : state) : state :=
  {| heap := heap s ++ fresh; executed := executed s |}.

Definition liftAlloc (f : list cell -> error + (value * list cell)) : M value :=
  fun s =>
    match f (heap s) with
    | inl e => Err e s
    | inr (v, fresh) => Ok v (extend fresh s)
    end.

(** [f(...args)] for a value [f] *)
Definition callTransform (E : Env) (f v : value) : M value :=
  match f with
  | VFun n => liftAlloc (fun h => transformFn E n h v)
  | _ => throw (TypeError "transformValue is not a function")
  end.

Definition callQuery (E : Env) (f queryBuilder v vs : value) : M unit :=
  match f with
  | VFun n =>
      let* r := gets (fun h => queryFn E n h v vs) in
      match r with
      | inl e => throw e
      | inr ops => forEach (push queryBuilder) ops
      end
  | _ => throw (TypeError "query is not a function")
  end.

(** ** Regular expressions

    Regular expressions are kept as syntax; [regex_test r s] is
    [/^r$/.test(s)], computed by derivatives. *)

Inductive regex : Type :=
| RNever
| REps
| RClass (p : ascii -> bool)
| RSeq (r1 r2 : regex)
| RAlt (r1 r2 : regex)
| RStar (r : regex).

Definition RPlus (r : regex) : regex := RSeq r (RStar r).

Definition lit (c : ascii) : regex := RClass (Ascii.eqb c).

Fixpoint RLit (s : string) : regex :=
  match s with
  | EmptyString => REps
  | String c rest => RSeq (lit c) (RLit rest)
  end.

Fixpoint nullable (r : regex) : bool :=
  match r with
  | RNever => false
  | REps => true
  | RClass _ => false
  | RSeq r1 r2 => nullable r1 && nullable r2
  | RAlt r1 r2 => nullable r1 || nullable r2
  | RStar _ => true
  end.

Fixpoint deriv (c : ascii) (r : regex) : regex :=
  match r with
  | RNever | REps => RNever
  | RClass p => if p c then REps else RNever
  | RSeq r1 r2 =>
      if nullable r1 then RAlt (RSeq (deriv c r1) r2) (deriv c r2)
      else RSeq (deriv c r1) r2
  | RAlt r1 r2 => RAlt (deriv c r1) (deriv c r2)
  | RStar r0 => RSeq (deriv c r0) (RStar r0)
  end.

Fixpoint regex_test (r : regex) (s : string) : bool :=
  match s with
  | EmptyString => nullable r
  | String c rest => regex_test (deriv c r) rest
  end.

Definition ROpt (r : regex) : regex := RAlt REps r.

(** ** The Joi schemas and their checks

    Each schema is the set of values it accepts, with the options of
    [joiOptions] ([convert: true], [allowUnknown: false]); a key holding
    [undefined] counts as absent for its own rule.  [Joi.string()]
    refuses the empty string, [Joi.any()] accepts everything.  The
    checks keep the error only: a value that Joi converts stays as it
    was given.  The values the schemas are read on are those of the
    store; text that holds JSON for an object is not among them. *)

Definition inb (k : string) (ks : list string) : bool :=
  existsb (String.eqb k) ks.

Definition joi_string (v : value) : bool :=
  match v with VStr s => negb (String.eqb s "") | _ => false end.

Definition joi_string_valid (allowed : list string) (v : value) : bool :=
  match v with VStr s => inb s allowed | _ => false end.

Definition isDigit (c : ascii) : bool :=
  let n := nat_of_ascii c in (48 <=? n) && (n <=? 57).

Definition isSign (c : ascii) : bool := Ascii.eqb c "+" || Ascii.eqb c "-".

(** The pattern by which [Joi.number()] takes a text for a number:
    white space, a sign, digits with an optional fraction or a fraction
    alone, an exponent, white space; letters in either case. *)
Definition numberRx : regex :=
  let ws := RStar (RClass isStrWhiteSpace) in
  let digits := RPlus (RClass isDigit) in
  let sign := ROpt (RClass isSign) in
  RSeq ws
    (RSeq sign
       (RSeq (RAlt (RSeq digits (ROpt (RSeq (lit ".") (RStar (RClass isDigit)))))
                   (RSeq (lit ".") digits))
          (RSeq (ROpt (RSeq (RAlt (lit "e") (lit "E")) (RSeq sign digits)))
             ws))).

(** [Joi.number()] under [convert: true]: a number other than NaN, or a
    text of [numberRx], read as the number it writes. *)
Definition joi_number (v : value) : option num :=
  match v with
  | VNum _ | VDec _ _ | VInf _ => numOf v
  | VStr s => if regex_test numberRx s then Some (StringToNumber s) else None
  | _ => None
  end.

(** The integer a number is, if it is one. *)
Definition integerOf (x : num) : option Z :=
  match x with
  | NFin m e => if (m mod pow10 e =? 0)%Z then Some (m / pow10 e)%Z else None
  | _ => None
  end.

Definition MAX_SAFE_INTEGER : Z := (2 ^ 53 - 1)%Z.

(** [Joi.number().integer().min(1)]: a finite number within the safe
    integers, whole and at least one. *)
Definition joi_integer_min1 (v : value) : bool :=
  match joi_number v with
  | Some x =>
      match integerOf x with
      | Some n => (1 <=? n)%Z && (n <=? MAX_SAFE_INTEGER)%Z
      | None => false
      end
  | None => false
  end.

Definition optional (rule : value -> bool) (v : value) : bool :=
  isUndefined v || rule v.

Definition knownKeys (allowed : list string) (ps : object) : bool :=
  forallb (fun p => inb (fst p) allowed) ps.

(** One entry of [filtersSchema]: [Joi.object().keys({ dbField, value,
    minValue, defaultValue, transformValue, query })] *)
Definition filterSpecSchema (h : list cell) (v : value) : bool :=
  match cellAt h v with
  | Some (CObj ps) =>
      knownKeys ["dbField"; "value"; "minValue"; "defaultValue";
                 "transformValue"; "query"] ps
      && optional joi_string (assoc_get "dbField" ps)
      && optional (fun t => joi_string_valid ["array"] t || isFunction t)
           (assoc_get "transformValue" ps)
      && optional (fun q => joi_string_valid ["range"; "inList"; "jsonSupersetOf"] q
                            || isFunction q)
           (assoc_get "query" ps)
  | _ => false
  end.

(** [Joi.object().pattern(Joi.string(), ...).min(1).required()] *)
Definition filtersSchema (h : list cell) (v : value) : bool :=
  match cellAt h v with
  | Some (CObj ps) =>
      (1 <=? length ps)
      && forallb (fun p => joi_string (VStr (fst p))
                           && optional (filterSpecSchema h) (snd p)) ps
  | _ => false
  end.

(** [Joi.alternatives().try(Joi.any(), Joi.object().pattern(...)).required()] *)
Definition rangeFilterSchema (h : list cell) (v : value) : bool :=
  negb (isUndefined v)
  && (true   (* Joi.any() *)
      || match cellAt h v with
         | Some (CObj ps) => knownKeys ["lt"; "lte"; "gt"; "gte"] ps
         | _ => false
         end).

Definition orderConfigSchema (h : list cell) (v : value) : bool :=
  match cellAt h v with
  | Some (CObj ps) =>
      knownKeys ["orderBy"; "order"] ps
      && joi_string (assoc_get "orderBy" ps)
      && joi_string_valid ["asc"; "desc"] (assoc_get "order" ps)
  | _ => false
  end.

Definition paginationConfigSchema (h : list cell) (v : value) : bool :=
  match cellAt h v with
  | Some (CObj ps) =>
      knownKeys ["page"; "nbResultsPerPage"] ps
      && joi_integer_min1 (assoc_get "page" ps)
      && joi_integer_min1 (assoc_get "nbResultsPerPage" ps)
  | _ => false
  end.

Definition validate (schema : list cell -> value -> bool) (prefix : string)
    (v : value) : M unit :=
  let* ok := gets (fun h => schema h v) in
  if ok then ret tt else throw (JoiError prefix).

Definition checkFilters (filters : value) : M unit :=
  validate filtersSchema "Bad filters: " filters.

Definition checkRangeFilter (v : value) (key : string) : M unit :=
  validate rangeFilterSchema ("Bad range filter " +:+ key +:+ ": ") v.

Definition checkOrderConfig (orderConfig : value) : M unit :=
  validate orderConfigSchema "Bad order config: " orderConfig.

Definition checkPaginationConfig (paginationConfig : value) : M unit :=
  validate paginationConfigSchema "Bad pagination config: " paginationConfig.

(** ** getTransformedValues *)

Definition transformOne (E : Env) (filters values : value) (key : string) : M unit :=
  let* filter := getProp filters key in
  destructure filter ;;
  let* value := getProp filter "value" in
  let* transformValue := getProp filter "transformValue" in
  let* defaultValue := getProp filter "defaultValue" in
  let* newValue :=
    if isUndefined transformValue then ret value
    else if isString transformValue then
      if strictEq transformValue (VStr "array")
      then liftAlloc (fun h => parseArrayValues E h value)
      else ret VUndef
    else if isFunction transformValue then callTransform E transformValue value
    else
      let* dbField := getProp filter "dbField" in
      throw (PlainError ("Unknown transformation value for filter on field "
                         +:+ ToString dbField)) in
  let newValue :=
    if isUndefined newValue && negb (isUndefined defaultValue)
    then defaultValue else newValue in
  setProp values key newValue.

Definition getTransformedValues (E : Env) (filters : value) : M value :=
  let* values := alloc (CObj []) in
  let* ks := objectKeys filters in
  forEach (transformOne E filters values) ks ;;
  ret values.

(** ** getMinRangeValue *)

Definition getMinRangeValue (h : list cell) (rangeOrValue : value) : value :=
  if isUndefined rangeOrValue then VUndef
  else if negb (isPlainObject h rangeOrValue) then rangeOrValue
  else
    let gt := prop h rangeOrValue "gt" in
    let gte := prop h rangeOrValue "gte" in
    if negb (isUndefined gt) && negb (isUndefined gte)
    then (if js_lt h gt gte then gt else gte)
    else if negb (isUndefined gt) then gt
    else if negb (isUndefined gte) then gte
    else VUndef.

(** ** addFiltersToQueryBuilder *)

Definition whereJsonbColumnSupersetOf (queryBuilder columnName data : value) : M unit :=
  if negb (isString columnName) then throw (PlainError "String `columnName` expected.")
  else
    let* plain := gets (fun h => isPlainObject h data) in
    if negb plain then throw (PlainError "`data` object expected")
    else push queryBuilder (WhereRaw "??::jsonb @> ?::jsonb" [columnName; data]).

(** The callback of [Object.keys(filters).forEach(key => ...)] *)
Definition applyFilter (E : Env) (queryBuilder filters transformedValues : value)
    (key : string) : M unit :=
  let* filter := getProp filters key in
  destructure filter ;;
  let* dbField := getProp filter "dbField" in
  let* value := getProp filter "value" in
  let* query := getProp filter "query" in
  let* minValue := getProp filter "minValue" in
  let* transformedValue := getProp transformedValues key in
  (* skip the filter if the value is not defined *)
  if isUndefined transformedValue then ret tt
  else
    let isCustomQuery := isFunction query in
    if negb isCustomQuery && negb (truthy dbField)
    then throw (PlainError ("dbField is needed for filter with key " +:+ key))
    else if isUndefined query then push queryBuilder (Where dbField transformedValue)
    else if isString query then
      if strictEq query (VStr "range") then
        checkRangeFilter transformedValue key ;;
        let* minRangeValue := gets (fun h => getMinRangeValue h transformedValue) in
        (if truthy minRangeValue then
           let* below := gets (fun h => js_lt h minRangeValue minValue) in
           if below
           then throw (HttpError 400 (key +:+ " value cannot be lower than "
                                      +:+ ToString minValue))
           else ret tt
         else
           let* isSingleValue := gets (fun h => negb (isPlainObject h transformedValue)) in
           let* noLowerBound :=
             gets (fun h => isUndefined (prop h transformedValue "gt")
                            && isUndefined (prop h transformedValue "gte")) in
           if negb isSingleValue && noLowerBound
           then setProp transformedValue "gte" minValue
           else ret tt) ;;
        let* lt := getProp transformedValue "lt" in
        when (truthy lt) (push queryBuilder (WhereCmp dbField "<" lt)) ;;
        let* lte := getProp transformedValue "lte" in
        when (truthy lte) (push queryBuilder (WhereCmp dbField "<=" lte)) ;;
        let* gt := getProp transformedValue "gt" in
        when (truthy gt) (push queryBuilder (WhereCmp dbField ">" gt)) ;;
        let* gte := getProp transformedValue "gte" in
        when (truthy gte) (push queryBuilder (WhereCmp dbField ">=" gte))
      else if strictEq query (VStr "inList")
      then push queryBuilder (WhereIn dbField transformedValue)
      else if strictEq query (VStr "jsonSupersetOf")
      then whereJsonbColumnSupersetOf queryBuilder dbField value
      else ret tt
    else if isCustomQuery
    then callQuery E query queryBuilder transformedValue transformedValues
    else throw (PlainError ("Unknown query for filter on field " +:+ ToString dbField)).

Definition addFiltersToQueryBuilder (E : Env)
    (queryBuilder filters transformedValues : value) : M unit :=
  let* ks := objectKeys filters in
  forEach (applyFilter E queryBuilder filters transformedValues) ks.

(** ** Arithmetic, arrays and lodash helpers of the planners *)

(** [a - b] and [a * b] on primitives, as the planners apply them to
    the page numbers. *)
Definition arith (op : num -> num -> num) (a b : value) : value :=
  numValue (op (ToNumber a) (ToNumber b)).
Definition js_sub := arith num_sub.
Definition js_mul := arith num_mul.

Definition clampIndex (len k : Z) : Z :=
  if (k <? 0)%Z then Z.max (len + k) 0 else Z.min k len.

(** The place in an array of length [len] an index argument stands for:
    NaN is 0, a fraction is cut off, and what lies outside is brought
    back to the nearer end. *)
Definition relativeIndex (len : Z) (v : value) : Z :=
  match ToNumber v with
  | NNaN | NInf true => 0%Z
  | NInf false => len
  | NFin m e => clampIndex len (Z.quot m (pow10 e))
  end.

(** [xs.slice(start, end)] *)
Definition slice {A} (xs : list A) (start end_ : value) : list A :=
  let len := Z.of_nat (length xs) in
  let k := relativeIndex len start in
  let final := if isUndefined end_ then len else relativeIndex len end_ in
  take (Z.to_nat (final - k)) (drop (Z.to_nat k) xs).

(** [_.compact(xs)] *)
Definition compact (xs : list value) : list value := List.filter truthy xs.

(** [_.without(keys, ...values)] on an array of strings *)
Definition without (ks : list string) (values : list value) : list string :=
  List.filter (fun k => negb (existsb (strictEq (VStr k)) values)) ks.

(** [array.includes(v)] on an array of strings *)
Definition includes (ks : list string) (v : value) : bool :=
  existsb (fun k => strictEq (VStr k) v) ks.

Fixpoint split_on (sep : ascii -> bool) (s : string) : list string :=
  match s with
  | EmptyString => [EmptyString]
  | String c rest =>
      if sep c then EmptyString :: split_on sep rest
      else match split_on sep rest with
           | [] => [String c EmptyString]
           | x :: xs => String c x :: xs
           end
  end.

Definition is_dot (c : ascii) : bool := Ascii.eqb c ".".

(** [_.get(object, path)] for a string path: a path that is itself a key
    of the object is read directly, any other path is cut at its dots
    (the bracket syntax of lodash paths is not modelled) and followed as
    long as the value reached is neither undefined nor null. *)
Definition lodash_get (h : list cell) (obj : value) (path : string) : value :=
  let direct := match cellAt h obj with
                | Some (CObj ps) => has_key path ps
                | _ => false
                end in
  let fix follow (v : value) (segs : list string) : value :=
    match segs with
    | [] => v
    | k :: rest =>
        match v with
        | VUndef | VNull => VUndef
        | _ => follow (prop h v k) rest
        end
    end in
  follow obj (if direct then [path] else split_on is_dot path).

(** [_.pick(object, paths)]: a fresh object holding the listed keys the
    source object has, with the same (shared) values. *)
Definition pick (obj : value) (paths : list value) : M value :=
  let* ps := gets (fun h => match cellAt h obj with
                            | Some (CObj ps) => ps
                            | _ => []
                            end) in
  let picked :=
    fold_left (fun acc path =>
                 let k := ToString path in
                 if has_key k ps then assoc_set k (assoc_get k ps) acc else acc)
              paths [] in
  alloc (CObj picked).

(** ** Awaiting a builder *)

Definition readOps (queryBuilder : value) : M (list qop) :=
  fun s =>
    match cellAt (heap s) queryBuilder with
    | Some (CQuery ops) => Ok ops s
    | _ => Err (TypeError "queryBuilder is not a query builder") s
    end.

(** [queryBuilder.clone()] *)
Definition clone (queryBuilder : value) : M value :=
  let* ops := readOps queryBuilder in alloc (CQuery ops).

Definition tryCatch {A} (m : M A) (handler : error -> M A) : M A :=
  fun s => match m s with
           | Ok a s' => Ok a s'
           | Err e s' => handler e s'
           end.

(** [await Promise.all([m1, m2])]: both are started, the first failure
    is the one reported. *)
Definition promiseAll2 {A B} (m1 : M A) (m2 : M B) : M (A * B) :=
  fun s =>
    match m1 s with
    | Ok a s1 =>
        match m2 s1 with
        | Ok b s2 => Ok (a, b) s2
        | Err e s2 => Err e s2
        end
    | Err e s1 => Err e (finalState (m2 s1))
    end.

Definition send (E : Env) (q : list qop) : M (list object) :=
  fun s =>
    let s' := {| heap := heap s; executed := executed s ++ [q] |} in
    match database E q with
    | inl e => Err e s'
    | inr rows => Ok rows s'
    end.

(** ** getSqlExpression *)

Definition dquote : string := String (ascii_of_nat 34) EmptyString.

Definition is_path_sep (c : ascii) : bool :=
  Ascii.eqb c "." || Ascii.eqb c "[" || Ascii.eqb c "]".

Definition getSqlExpression (attr : value) : M string :=
  match attr with
  | VStr s =>
      let parts := List.filter (fun str => negb (String.eqb str EmptyString))
                     (split_on is_path_sep s) in
      let column := match parts with [] => "undefined" | c :: _ => c end in
      if Nat.eqb (length parts) 1 then ret (dquote +:+ column +:+ dquote)
      else ret (dquote +:+ column +:+ dquote +:+ "#>>'{"
                +:+ String.concat "," (tl parts) +:+ "}'")
  | _ => throw (TypeError "attr.split is not a function")
  end.

(** ** The parameter object of the planners and the page they return *)

Record Params := {
  queryBuilder : value;
  schema : value;
  table : value;
  timeFilter : value;
  timeColumn : value;
  secondaryFilter : value;
  groupByViews : value;
  retentionLimitDate : value;
  groupBy : value;
  field : value;
  avgPrecision : value;
  filters : value;
  paginationConfig : value;
  orderConfig : value
}.

(** A parameter default: [name = d] in the parameter list *)
Definition default (d v : value) : value := if isUndefined v then d else v.

Record PageResult := {
  nbResults : value;
  nbPages : value;
  page : value;
  nbResultsPerPage : value;
  results : list object
}.

Definition withResults (rows : list object) (m : PageResult) : PageResult :=
  {| nbResults := nbResults m; nbPages := nbPages m; page := page m;
     nbResultsPerPage := nbResultsPerPage m; results := rows |}.

(** Modelled from the spec: [getPaginationMeta] of [./list], which is not
    among the sources.  It returns the page metadata with
    [nbPages = ceil(nbResults / nbResultsPerPage)]. *)
Definition getPaginationMeta (nbResults nbResultsPerPage page : value) : PageResult :=
  {| nbResults := nbResults;
     nbPages := match integerOf (ToNumber nbResults),
                      integerOf (ToNumber nbResultsPerPage) with
                | Some n, Some per =>
                    if (per =? 0)%Z then VNaN else VNum (- ((- n) / per))%Z
                | _, _ => VNaN
                end;
     page := page;
     nbResultsPerPage := nbResultsPerPage;
     results := [] |}.

(** ** performAggregationQuery *)

(** The body of the [with('aggregations', qb => ...)] callback, run when
    the builder is compiled for execution. *)
Definition aggregationsCallback (E : Env) (c : cte_closure) : M (list qop) :=
  let* qb := alloc (CQuery []) in
  push qb (FromTable (ToString (cte_schema c) +:+ ".event")) ;;
  push qb (SelectRaw (cte_groupByExpr c +:+ " as " +:+ dquote +:+ "groupByField" +:+ dquote) []) ;;
  push qb CountAll ;;
  push qb (GroupBy (VStr "groupByField")) ;;
  push qb (OrderBy (cte_orderBy c) (cte_order c)) ;;
  match cte_statsExpr c with
  | Some expr =>
      forEach (fun fn => push qb (Aggregate fn fn ("(" +:+ expr +:+ ")::REAL")))
        ["avg"; "sum"; "min"; "max"]
  | None => ret tt
  end ;;
  when (truthy (cte_filters c))
    (let* transformedValues := getTransformedValues E (cte_filters c) in
     addFiltersToQueryBuilder E qb (cte_filters c) transformedValues) ;;
  readOps qb.

(** [await queryBuilder]: callbacks of [with] are expanded, then the
    query is sent. *)
Definition await (E : Env) (queryBuilder : value) : M (list object) :=
  let* ops := readOps queryBuilder in
  let* q := mapM (fun op => match op with
                            | With name c =>
                                let* sub := aggregationsCallback E c in
                                ret (WithQuery name sub)
                            | _ => ret op
                            end) ops in
  send E q.

Definition operators : list string := ["avg"; "sum"; "min"; "max"].

(** The whole number nearest to [a / b] for [0 < b], a tie going up. *)
Definition nearest (a b : Z) : Z := ((2 * a + b) / (2 * b))%Z.

(** Modelled from the spec: [roundDecimal] of [./math], which is not
    among the sources.  The spec has [avg] rounded to [avgPrecision]
    decimal digits: a finite number is brought to the nearest decimal of
    that many digits, for a count of digits that is a whole number from
    0 on; anything else stays as it is. *)
Definition roundDecimal (v precision : value) : value :=
  match numOf v, integerOf (ToNumber precision) with
  | Some (NFin m e), Some d =>
      if (0 <=? d)%Z
      then numValue (NFin (nearest (m * pow10 (Z.to_nat d)) (pow10 e)) (Z.to_nat d))
      else v
  | _, _ => v
  end.

(** The callback of [results.map(r => ...)].  Rows are handed over by
    value, so [_.cloneDeep(r)] is the row itself. *)
Definition formatAggregationRow (groupBy avgPrecision : value)
    (r : object) : object :=
  let clonedResult := r in
  let clonedResult := assoc_set "groupBy" groupBy clonedResult in
  let clonedResult :=
    assoc_set "groupByValue" (assoc_get "groupByField" clonedResult) clonedResult in
  let clonedResult := assoc_del "groupByField" clonedResult in
  let clonedResult :=
    if truthy (assoc_get "count" clonedResult)
    then assoc_set "count" (parseInt10 (assoc_get "count" clonedResult)) clonedResult
    else clonedResult in
  let clonedResult :=
    if isNumber (assoc_get "avg" clonedResult)
    then assoc_set "avg"
           (roundDecimal (assoc_get "avg" clonedResult) avgPrecision)
           clonedResult
    else clonedResult in
  fold_left (fun acc op =>
               if isUndefined (assoc_get op acc) then assoc_set op VNull acc else acc)
    operators clonedResult.

(** [const [{ count }] = rows] *)
Definition firstCount (rows : list object) : M value :=
  match rows with
  | r :: _ => ret (assoc_get "count" r)
  | [] => throw (TypeError "Cannot destructure property `count` of 'undefined' or 'null'.")
  end.

Definition performAggregationQuery (E : Env) (p : Params) : M PageResult :=
  let queryBuilder := queryBuilder p in
  let schema := default (VStr "public") (schema p) in
  let groupBy := groupBy p in
  let field := field p in
  let avgPrecision := default (VNum 2) (avgPrecision p) in
  let filters := filters p in
  let paginationConfig := paginationConfig p in
  let orderConfig := orderConfig p in
  checkOrderConfig orderConfig ;;
  when (truthy filters) (checkFilters filters) ;;
  checkPaginationConfig paginationConfig ;;
  if strictEq field groupBy then
    throw (HttpError 422 (ToString field
                          +:+ " cannot be field and groupBy at the same time"))
  else
    let* sqlGroupByExpression := getSqlExpression groupBy in
    let* sqlStatsFieldExpression :=
      if truthy field
      then let* e := getSqlExpression field in ret (Some e)
      else ret None in
    let* orderBy := getProp orderConfig "orderBy" in
    let* order := getProp orderConfig "order" in
    push queryBuilder
      (With "aggregations"
         {| cte_schema := schema; cte_groupByExpr := sqlGroupByExpression;
            cte_statsExpr := sqlStatsFieldExpression;
            cte_orderBy := orderBy; cte_order := order; cte_filters := filters |}) ;;
    push queryBuilder SelectAll ;;
    push queryBuilder (FromTable "aggregations") ;;
    push queryBuilder (WhereNotNull "groupByField") ;;
    (* Clone the query builder to have the count for all matched results *)
    let* countQueryBuilder := clone queryBuilder in
    push queryBuilder (OrderBy orderBy order) ;;
    let* page := getProp paginationConfig "page" in
    let* nbResultsPerPage := getProp paginationConfig "nbResultsPerPage" in
    push queryBuilder (Offset (js_mul (js_sub page (VNum 1)) nbResultsPerPage)) ;;
    push queryBuilder (Limit nbResultsPerPage) ;;
    let* fetched :=
      tryCatch
        (push countQueryBuilder CountAll ;;
         let* both := promiseAll2 (await E queryBuilder) (await E countQueryBuilder) in
         let* count := firstCount (snd both) in
         ret (fst both, count))
        (fun err =>
           (* PostgreSQL error codes: invalid_text_representation *)
           if strictEq (errorCode err) (VStr "22P02")
           then throw (HttpError 422 ("Non-number value was found for field "
                                      +:+ dquote +:+ ToString field +:+ dquote))
           else throw err) in
    let paginationMeta := getPaginationMeta (snd fetched) nbResultsPerPage page in
    ret (withResults (map (formatAggregationRow groupBy avgPrecision) (fst fetched))
           paginationMeta).

(** ** performHistoryQuery *)

Definition intervals (groupBy : value) : string :=
  match groupBy with
  | VStr "hour" => "1 hour"
  | VStr "day" => "1 day"
  | VStr "month" => "30 days"   (* TimescaleDB doesn't support month interval *)
  | _ => "undefined"
  end.

Definition performHistoryQuery (E : Env) (p : Params) : M PageResult :=
  let queryBuilder := queryBuilder p in
  let schema := schema p in
  let table := table p in
  let timeFilter := default (VStr "createdDate") (timeFilter p) in
  let timeColumn := default (VStr "createdTimestamp") (timeColumn p) in
  let secondaryFilter := secondaryFilter p in
  let retentionLimitDate := retentionLimitDate p in
  let groupBy := groupBy p in
  let filters := filters p in
  let paginationConfig := paginationConfig p in
  let orderConfig := orderConfig p in
  checkOrderConfig orderConfig ;;
  let* useOnlyNonTimeRestrictedFilters :=
    if truthy filters then
      checkFilters filters ;;
      let* ks := objectKeys filters in
      let timeRestrictedFilterKeys := without ks (compact [timeFilter; secondaryFilter]) in
      let* useOnly :=
        gets (fun h => forallb isUndefined
                         (map (fun key => lodash_get h filters (key +:+ ".value"))
                              timeRestrictedFilterKeys)) in
      let* timeSpec := getProp filters (ToString timeFilter) in
      let* timeValue := getProp timeSpec "value" in
      let* minRangeValue := gets (fun h => getMinRangeValue h timeValue) in
      let* before := gets (fun h => js_lt h minRangeValue retentionLimitDate) in
      if truthy minRangeValue && before && negb useOnly
      then throw (HttpError 400 ("All filters are disabled before "
                                 +:+ ToString retentionLimitDate))
      else ret useOnly
    else ret true in
  checkPaginationConfig paginationConfig ;;
  if negb (includes ["hour"; "day"; "month"] groupBy)
  then throw (PlainError ("Invalid groupBy value: " +:+ ToString groupBy))
  else
    let interval := intervals groupBy in
    let* view := if isUndefined (groupByViews p) then ret VUndef
                 else getProp (groupByViews p) (ToString groupBy) in
    let useContinuousAggregate := useOnlyNonTimeRestrictedFilters && truthy view in
    let selectQuery :=
      (if useContinuousAggregate then "??"
       else "public.time_bucket(INTERVAL '" +:+ interval +:+ "', ??)")
      +:+ " AT TIME ZONE 'UTC' as ??"
      +:+ ", "
      +:+ (if useContinuousAggregate
           then (if truthy secondaryFilter then "sum(count)::REAL as count" else "count")
           else "count(*)") in
    let selectParams := [if useContinuousAggregate then groupBy else timeColumn; groupBy] in
    push queryBuilder (SelectRaw selectQuery selectParams) ;;
    push queryBuilder
      (FromRaw "??.??" [schema; if useContinuousAggregate then view else table]) ;;
    when (negb useContinuousAggregate || (useContinuousAggregate && truthy secondaryFilter))
      (push queryBuilder (GroupBy groupBy)) ;;
    when (truthy filters)
      (let* newFilters :=
         (* filter only on time and secondary filters if using continuous aggregate *)
         if useContinuousAggregate then
           let* picked := pick filters [timeFilter; secondaryFilter] in
           let* timeSpec := getProp picked (ToString timeFilter) in
           setProp timeSpec "dbField" groupBy ;;
           ret picked
         else ret filters in
       let* transformedValues := getTransformedValues E newFilters in
       addFiltersToQueryBuilder E queryBuilder newFilters transformedValues) ;;
    let* orderBy := getProp orderConfig "orderBy" in
    let* order := getProp orderConfig "order" in
    push queryBuilder (OrderBy orderBy order) ;;
    let* allResults := await E queryBuilder in
    let* page := getProp paginationConfig "page" in
    let* nbResultsPerPage := getProp paginationConfig "nbResultsPerPage" in
    let nbResults := VNum (Z.of_nat (length allResults)) in
    let results := slice allResults (js_mul (js_sub page (VNum 1)) nbResultsPerPage)
                     (js_mul page nbResultsPerPage) in
    let paginationMeta := getPaginationMeta nbResults nbResultsPerPage page in
    ret (withResults results paginationMeta).

(** ** Vocabulary of the statements *)

(** The predicate a range bound contributes: one comparison when the
    bound is truthy, none otherwise. *)
Definition boundPredicate (dbField : value) (op : string) (bound : value) : list qop :=
  if truthy bound then [WhereCmp dbField op bound] else [].

Definition rangePredicates (dbField : value) (rng : object) : list qop :=
  boundPredicate dbField "<" (assoc_get "lt" rng)
  ++ boundPredicate dbField "<=" (assoc_get "lte" rng)
  ++ boundPredicate dbField ">" (assoc_get "gt" rng)
  ++ boundPredicate dbField ">=" (assoc_get "gte" rng).

(** The range object that reaches predicate compilation: [gte] is set to
    [minValue] when the object supplies neither [gt] nor [gte]. *)
Definition compiledRange (minValue : value) (rng : object) : object :=
  if isUndefined (assoc_get "gt" rng) && isUndefined (assoc_get "gte" rng)
  then assoc_set "gte" minValue rng
  else rng.

(** The lower bound a range object supplies, as [getMinRangeValue] reads it. *)
Definition lowerBound (h : list cell) (rng : object) : value :=
  let gt := assoc_get "gt" rng in
  let gte := assoc_get "gte" rng in
  if negb (isUndefined gt) && negb (isUndefined gte)
  then (if js_lt h gt gte then gt else gte)
  else if negb (isUndefined gt) then gt
  else if negb (isUndefined gte) then gte
  else VUndef.

Definition minValueError (key : string) (minValue : value) : error :=
  HttpError 400 (key +:+ " value cannot be lower than " +:+ ToString minValue).

Definition fieldGroupByError (field : value) : error :=
  HttpError 422 (ToString field +:+ " cannot be field and groupBy at the same time").

Definition retentionError (retentionLimitDate : value) : error :=
  HttpError 400 ("All filters are disabled before " +:+ ToString retentionLimitDate).

(** The object at [l] has its [dbField] set to [g]. *)
Definition dbFieldIs (l : loc) (g : value) (h : list cell) : Prop :=
  exists o, h !! l = Some (CObj o) /\ assoc_get "dbField" o = g.

(** A computation keeps a property of the store, whether it returns or
    throws. *)
Definition keeps (P : state -> Prop) {A} (m : M A) : Prop :=
  forall s, P s -> P (finalState (m s)).

Definition isNullish (v : value) : bool :=
  match v with VUndef | VNull => true | _ => false end.

(** ** Sample inputs *)

Module Sample.
(** An environment whose custom functions are the identity transform and
    a query function that emits nothing, over an empty table. *)
Definition env (rows : list object) : Env := {|
  transformFn := fun _ _ v => inr (v, []);
  queryFn := fun _ _ _ _ => inr [];
  parseArrayValues := fun _ v => inr (v, []);
  database := fun _ => inr rows
|}.

(** One range filter [price] with the given raw value and [minValue]:
    cell 0 is the builder, 1 the filters, 2 the filter spec, 3 the
    range object, 4 the transformed values. *)
Definition rangeStore (rng : object) (minValue : value) : state :=
  {| heap := [CQuery [];
              CObj [("price", VRef 2)];
              CObj [("dbField", VStr "price"); ("value", VRef 3);
                    ("minValue", minValue); ("query", VStr "range")];
              CObj rng;
              CObj [("price", VRef 3)]];
     executed := [] |}.

(** Two equality filters, [type] without a value and [status] with one:
    cell 0 is the builder, 1 the filters, 2 and 3 the filter specs, 4 the
    transformed values. *)
Definition optionalStore : state :=
  {| heap := [CQuery [];
              CObj [("type", VRef 2); ("status", VRef 3)];
              CObj [("dbField", VStr "type")];
              CObj [("dbField", VStr "status"); ("value", VStr "on")];
              CObj [("type", VUndef); ("status", VStr "on")]];
     executed := [] |}.

(** A history request over two filters, the time filter [createdDate]
    (a range) and [type]: cell 0 is the builder, 1 the order config, 2 the
    pagination config (page 2, two results per page), 3 the filters, 4
    the time filter spec, 5 its value, 6 the [type] spec, 7 the views. *)
Definition historyStore (timeValue : object) (typeValue : value) : state :=
  {| heap := [CQuery [];
              CObj [("orderBy", VStr "day"); ("order", VStr "desc")];
              CObj [("page", VNum 2); ("nbResultsPerPage", VNum 2)];
              CObj [("createdDate", VRef 4); ("type", VRef 6)];
              CObj [("dbField", VStr "createdTimestamp"); ("value", VRef 5);
                    ("query", VStr "range")];
              CObj timeValue;
              CObj [("dbField", VStr "type"); ("value", typeValue)];
              CObj [("day", VStr "event_day")]];
     executed := [] |}.

(** The same request when the caller only passes the [type] filter. *)
Definition typeOnlyStore : state :=
  {| heap := [CQuery [];
              CObj [("orderBy", VStr "day"); ("order", VStr "desc")];
              CObj [("page", VNum 2); ("nbResultsPerPage", VNum 2)];
              CObj [("type", VRef 4)];
              CObj [("dbField", VStr "type"); ("value", VStr "x")]];
     executed := [] |}.

Definition historyParams (retentionLimitDate filters : value) : Params :=
  {| queryBuilder := VRef 0; schema := VStr "public"; table := VStr "event";
     timeFilter := VUndef; timeColumn := VUndef; secondaryFilter := VUndef;
     groupByViews := VRef 7; retentionLimitDate := retentionLimitDate;
     groupBy := VStr "day"; field := VUndef; avgPrecision := VUndef;
     filters := filters; paginationConfig := VRef 2; orderConfig := VRef 1 |}.

(** Five daily buckets, as the database returns them. *)
Definition buckets : list object :=
  map (fun d => [("day", VNum d); ("count", VNum 1)]) [5; 4; 3; 2; 1]%Z.

(** A stats request grouping by [type]: cells as in [historyStore]. *)
Definition statsParams (field groupBy : value) : Params :=
  {| queryBuilder := VRef 0; schema := VUndef; table := VUndef;
     timeFilter := VUndef; timeColumn := VUndef; secondaryFilter := VUndef;
     groupByViews := VUndef; retentionLimitDate := VUndef;
     groupBy := groupBy; field := field; avgPrecision := VUndef;
     filters := VUndef; paginationConfig := VRef 2;
     orderConfig := VRef 1 |}.
End Sample.

(** ** Vocabulary of the further properties *)

(** The filter [key] as the loop finds it: [filters[key]] is an object
    with the properties [spec] and [transformedValues[key]] is [tv]. *)
Definition filterAt (h : list cell) (filters transformedValues : value)
    (key : string) (spec : object) (tv : value) : Prop :=
  isNullish filters = false
  /\ cellAt h (prop h filters key) = Some (CObj spec)
  /\ isNullish transformedValues = false
  /\ prop h transformedValues key = tv.

(** The loop of [addFiltersToQueryBuilder], started in [s], has applied
    the filters before [key] and reached it in store [s1], with the keys
    [rest] still to come. *)
Definition reaches (E : Env) (queryBuilder filters transformedValues : value)
    (s : state) (key : string) (rest : list string) (s1 : state) : Prop :=
  exists lf fs done,
    filters = VRef lf
    /\ heap s !! lf = Some (CObj fs)
    /\ map fst fs = done ++ key :: rest
    /\ forEach (applyFilter E queryBuilder filters transformedValues) done s = Ok tt s1.

(** The non-empty pieces of an attribute path cut at [.], [[] and []]. *)
Definition segments (s : string) : list string :=
  List.filter (fun str => negb (String.eqb str EmptyString)) (split_on is_path_sep s).


(** What [getTransformedValues] stores for a filter without a transform:
    the raw value, or the default when the raw value is undefined. *)
Definition normalizedAt (h : list cell) (filter : value) : value :=
  let value := prop h filter "value" in
  let defaultValue := prop h filter "defaultValue" in
  if isUndefined value && negb (isUndefined defaultValue) then defaultValue else value.

Fixpoint allChars (p : ascii -> bool) (s : string) : bool :=
  match s with
  | EmptyString => true
  | String c rest => p c && allChars p rest
  end.

(** A path segment: a non-empty string free of [.], [[] and []]. *)
Definition isSegment (s : string) : bool :=
  negb (String.eqb s EmptyString) && allChars (fun c => negb (is_path_sep c)) s.

(** The expression [getSqlExpression] builds from a column and a path. *)
Definition sqlExpression (column : string) (path : list string) : string :=
  match path with
  | [] => dquote +:+ column +:+ dquote
  | _ => dquote +:+ column +:+ dquote +:+ "#>>'{" +:+ String.concat "," path +:+ "}'"
  end.

(** Every builder of [h] is still in [h'], with the operations it had. *)
Definition buildersKept (h h' : list cell) : Prop :=
  length h <= length h'
  /\ forall l ops, h !! l = Some (CQuery ops) -> h' !! l = Some (CQuery ops).

(** [q] is [base] compiled: each callback replaced by a sub-query of the
    same name, every other operation as it is. *)
Definition expands (base q : list qop) : Prop :=
  Forall2 (fun op op' => match op with
                         | With name _ => exists sub, op' = WithQuery name sub
                         | _ => op' = op
                         end) base q.

Definition isWith (op : qop) : bool :=
  match op with With _ _ => true | _ => false end.


(** The three operations every aggregation query ends its common part with. *)
Definition fromAggregations : list qop :=
  [SelectAll; FromTable "aggregations"; WhereNotNull "groupByField"].



(** ** performListQuery *)

Module ListQuery.
(** The parameter object of [performListQuery]. *)
Record Params := {
  queryBuilder : value;
  filters : value;
  paginationActive : value;
  paginationConfig : value;
  orderConfig : value;
  beforeQueryFn : value
}.
End ListQuery.

(** What [performListQuery] returns: the page metadata holding the rows
    when pagination is active, the bare rows otherwise. *)
Inductive ListResult : Type :=
| Paginated (paginationMeta : PageResult)
| Rows (results : list object).

(** A [beforeQueryFn] is caller-supplied, like a custom query function:
    it reads the store and the object it is passed, calls methods of the
    builder, and may throw. *)
Definition BeforeQuery : Type := nat -> list cell -> value -> error + list qop.

(** [await beforeQueryFn(arg)], where [arg.queryBuilder] is [queryBuilder] *)
Definition callBeforeQuery (B : BeforeQuery) (f queryBuilder arg : value) : M unit :=
  match f with
  | VFun n =>
      let* r := gets (fun h => B n h arg) in
      match r with
      | inl e => throw e
      | inr ops => forEach (push queryBuilder) ops
      end
  | _ => throw (TypeError "beforeQueryFn is not a function")
  end.

Definition performListQuery (E : Env) (B : BeforeQuery) (p : ListQuery.Params)
    : M ListResult :=
  let queryBuilder := ListQuery.queryBuilder p in
  let filters := ListQuery.filters p in
  let paginationActive := default (VBool true) (ListQuery.paginationActive p) in
  let paginationConfig := ListQuery.paginationConfig p in
  let orderConfig := ListQuery.orderConfig p in
  let beforeQueryFn := ListQuery.beforeQueryFn p in
  checkOrderConfig orderConfig ;;
  when (truthy filters) (checkFilters filters) ;;
  when (truthy paginationActive) (checkPaginationConfig paginationConfig) ;;
  let* transformedValues :=
    if truthy filters then
      let* transformedValues := getTransformedValues E filters in
      addFiltersToQueryBuilder E queryBuilder filters transformedValues ;;
      ret transformedValues
    else ret VUndef in
  when (isFunction beforeQueryFn)
    (let* arg := alloc (CObj [("queryBuilder", queryBuilder);
                              ("values", transformedValues)]) in
     callBeforeQuery B beforeQueryFn queryBuilder arg) ;;
  if truthy paginationActive then
    (* Clone the query builder to have the count for all matched results
       before pagination filtering *)
    let* countQueryBuilder := clone queryBuilder in
    let* orderBy := getProp orderConfig "orderBy" in
    let* order := getProp orderConfig "order" in
    push queryBuilder (OrderBy orderBy order) ;;
    let* page := getProp paginationConfig "page" in
    let* nbResultsPerPage := getProp paginationConfig "nbResultsPerPage" in
    push queryBuilder (Offset (js_mul (js_sub page (VNum 1)) nbResultsPerPage)) ;;
    push queryBuilder (Limit nbResultsPerPage) ;;
    push countQueryBuilder CountAll ;;
    let* both := promiseAll2 (await E queryBuilder) (await E countQueryBuilder) in
    let* nbResults := firstCount (snd both) in
    let paginationMeta := getPaginationMeta nbResults nbResultsPerPage page in
    ret (Paginated (withResults (fst both) paginationMeta))
  else
    let* orderBy := getProp orderConfig "orderBy" in
    let* order := getProp orderConfig "order" in
    push queryBuilder (OrderBy orderBy order) ;;
    let* results := await E queryBuilder in
    ret (Rows results).

(** ** The document validation schemas

    [lang r] is the set of strings the regular expression [r] denotes. *)

Inductive lang : regex -> string -> Prop :=
| lang_eps : lang REps EmptyString
| lang_class p c : p c = true -> lang (RClass p) (String c EmptyString)
| lang_seq r1 r2 s1 s2 : lang r1 s1 -> lang r2 s2 -> lang (RSeq r1 r2) (s1 +:+ s2)
| lang_alt_l r1 r2 s : lang r1 s -> lang (RAlt r1 r2) s
| lang_alt_r r1 r2 s : lang r2 s -> lang (RAlt r1 r2) s
| lang_star_nil r : lang (RStar r) EmptyString
| lang_star_cons r s1 s2 : lang r s1 -> lang (RStar r) s2 -> lang (RStar r) (s1 +:+ s2).

(** Every character class of [r] lies within [q]. *)
Fixpoint alphabet (q : ascii -> bool) (r : regex) : Prop :=
  match r with
  | RNever | REps => True
  | RClass p => forall c, p c = true -> q c = true
  | RSeq r1 r2 | RAlt r1 r2 => alphabet q r1 /\ alphabet q r2
  | RStar r0 => alphabet q r0
  end.

(** [\w]: a letter, a digit or the underscore *)
Definition isWordChar (c : ascii) : bool :=
  let n := nat_of_ascii c in
  ((48 <=? n) && (n <=? 57)) || ((65 <=? n) && (n <=? 90))
  || ((97 <=? n) && (n <=? 122)) || (n =? 95).

(** [\w+] *)
Definition word : regex := RPlus (RClass isWordChar).

(** The pattern of [dataFieldSchema]: the text [data.] followed by a word. *)
Definition dataFieldRegex : regex := RSeq (RLit "data.") word.

(** The pattern of [labelSchema]: a word followed by any number of
    groups made of a colon and a word. *)
Definition labelRegex : regex := RSeq word (RStar (RSeq (lit ":") word)).

(** The pattern of [labelWithWildcardSchema]: a lone star, or a word
    followed by any number of groups made of a colon and a word or a
    star. *)
Definition labelWithWildcardRegex : regex :=
  RAlt (lit "*") (RSeq word (RStar (RSeq (lit ":") (RAlt word (lit "*"))))).

(** The pattern of [multipleLabelsWithWildcardSchema]: the pattern of
    [labelWithWildcardSchema], followed by any number of groups made of a
    comma and that pattern again. *)
Definition multipleLabelsWithWildcardRegex : regex :=
  RSeq labelWithWildcardRegex (RStar (RSeq (lit ",") labelWithWildcardRegex)).

(** [Joi.string().regex(r)]: a non-empty string that [r] matches *)
Definition joi_string_regex (r : regex) (v : value) : bool :=
  match v with
  | VStr s => negb (String.eqb s "") && regex_test r s
  | _ => false
  end.

Definition dataFieldSchema : value -> bool := joi_string_regex dataFieldRegex.

Definition groupBySchema (v : value) : bool :=
  dataFieldSchema v
  || match v with VStr s => inb s ["authorId"; "targetId"] | _ => false end.

Definition labelSchema : value -> bool := joi_string_regex labelRegex.

Definition labelWithWildcardSchema : value -> bool :=
  joi_string_regex labelWithWildcardRegex.

Definition multipleLabelsWithWildcardSchema : value -> bool :=
  joi_string_regex multipleLabelsWithWildcardRegex.

(** A non-empty string of word characters. *)
Definition isWordString (s : string) : bool :=
  negb (String.eqb s EmptyString) && allChars isWordChar s.

(** The failures left to [getTransformedValues] once the filters are
    valid, each owed to one key of the filters: the runtime error on an
    entry that is undefined, or what the entry's own transformation (its
    function, or [parseArrayValues] for ['array']) throws on the entry's
    value, in the store [h] grown by what earlier transformations
    allocated. *)
Definition transformFailure (E : Env) (h : list cell) (filters : value) (e : error) : Prop :=
  exists fs key,
    cellAt h filters = Some (CObj fs) /\ In key (map fst fs)
    /\ ((assoc_get key fs = VUndef /\ e = TypeError "Cannot destructure 'undefined'")
        \/ exists lv spec more,
             assoc_get key fs = VRef lv /\ h !! lv = Some (CObj spec)
             /\ ((exists n, assoc_get "transformValue" spec = VFun n
                            /\ transformFn E n (h ++ more) (assoc_get "value" spec) = inl e)
                 \/ (assoc_get "transformValue" spec = VStr "array"
                     /\ parseArrayValues E (h ++ more) (assoc_get "value" spec) = inl e))).

(** ** Vocabulary of the planners' queries *)

(** The object at [l] holds [v] under [k]. *)
Definition propIs (l : loc) (k : string) (v : value) (h : list cell) : Prop :=
  exists o, h !! l = Some (CObj o) /\ assoc_get k o = v.

(** The closure [performAggregationQuery] hands to [with], for the
    expressions [getSqlExpression] made of [groupBy] and [field]. *)
Definition aggregationsClosure (h : list cell) (p : Params)
    (groupByExpr : string) (statsExpr : option string) : cte_closure :=
  {| cte_schema := default (VStr "public") (schema p);
     cte_groupByExpr := groupByExpr;
     cte_statsExpr := statsExpr;
     cte_orderBy := prop h (orderConfig p) "orderBy";
     cte_order := prop h (orderConfig p) "order";
     cte_filters := filters p |}.

(** What the [aggregations] callback asks for before it comes to the
    filters: the grouping expression and the row count of
    [schema.event], grouped and ordered, and the four operators over the
    stats expression when there is one. *)
Definition aggregationSelection (c : cte_closure) : list qop :=
  [FromTable (ToString (cte_schema c) +:+ ".event");
   SelectRaw (cte_groupByExpr c +:+ " as " +:+ dquote +:+ "groupByField" +:+ dquote) [];
   CountAll;
   GroupBy (VStr "groupByField");
   OrderBy (cte_orderBy c) (cte_order c)]
  ++ match cte_statsExpr c with
     | Some expr => map (fun fn => Aggregate fn fn ("(" +:+ expr +:+ ")::REAL")) operators
     | None => []
     end.

(** The operations the built-in strategies add. *)
Definition isPredicate (op : qop) : bool :=
  match op with
  | Where _ _ | WhereCmp _ _ _ | WhereIn _ _ | WhereRaw _ _ => true
  | _ => false
  end.

Definition isAggregateAs (alias : string) (op : qop) : bool :=
  match op with Aggregate _ a _ => String.eqb a alias | _ => false end.

(** The custom query functions of [E] add predicates only. *)
Definition customQueriesFilterOnly (E : Env) : Prop :=
  forall n h v vs ops, queryFn E n h v vs = inr ops -> forallb isPredicate ops = true.

(** The database of [E] returns no operator column that the
    [aggregations] sub-query of the query did not ask for. *)
Definition answersWhatIsAsked (E : Env) : Prop :=
  forall q rows sub alias row,
    database E q = inr rows ->
    In (WithQuery "aggregations" sub) q ->
    In alias operators ->
    existsb (isAggregateAs alias) sub = false ->
    In row rows -> assoc_get alias row = VUndef.

(** What the callback of closure [c] builds: its selection, then what the
    filters add, which is nothing without filters and predicates only
    when the custom query functions add nothing else. *)
Definition subQuery (E : Env) (c : cte_closure) (sub : list qop) : Prop :=
  exists more,
    sub = aggregationSelection c ++ more
    /\ (truthy (cte_filters c) = false -> more = [])
    /\ (customQueriesFilterOnly E -> forallb isPredicate more = true).

(** [q] is [base] compiled by [E]: each callback replaced by the
    sub-query it builds, every other operation as it is. *)
Definition compiles (E : Env) (base q : list qop) : Prop :=
  Forall2 (fun op op' => match op with
                         | With name c =>
                             exists sub, op' = WithQuery name sub /\ subQuery E c sub
                         | _ => op' = op
                         end) base q.

(** [v] is the number [x] brought to [d] decimal digits: a whole number
    of units of [10^-d], no further than half a unit from [x]. *)
Definition roundedTo (d : Z) (x : num) (v : value) : Prop :=
  match x with
  | NFin m e =>
      exists k, v = numValue (NFin k (Z.to_nat d))
                /\ (2 * Z.abs (k * pow10 e - m * pow10 (Z.to_nat d)) <= pow10 e)%Z
  | _ => v = numValue x
  end.


(** ** Further sample inputs *)

Module Sample2.
(** One filter [key] over spec [spec], normalized to [tv]: cell 0 is the
    builder, 1 the filters, 2 the spec, 3 the transformed values; [more]
    are further cells. *)
Definition oneFilter (key : string) (spec : object) (tv : value) (more : list cell) : state :=
  {| heap := [CQuery []; CObj [(key, VRef 2)]; CObj spec; CObj [(key, tv)]] ++ more;
     executed := [] |}.


(** A history request without filters and without views, over the cells
    of [Sample.typeOnlyStore]. *)
Definition rawHistoryParams (groupBy : value) : Params :=
  {| queryBuilder := VRef 0; schema := VStr "public"; table := VStr "event";
     timeFilter := VUndef; timeColumn := VUndef; secondaryFilter := VUndef;
     groupByViews := VUndef; retentionLimitDate := VUndef;
     groupBy := groupBy; field := VUndef; avgPrecision := VUndef;
     filters := VUndef; paginationConfig := VRef 2; orderConfig := VRef 1 |}.


(** A hook that asks for named rows only. *)
Definition namedOnly : BeforeQuery := fun _ _ _ => inr [WhereNotNull "name"].

(** An environment whose transformations all throw. *)
Definition throwingTransform : Env := {|
  transformFn := fun n _ _ => inl (CustomError n);
  queryFn := fun _ _ _ _ => inr [];
  parseArrayValues := fun _ v => inr (v, []);
  database := fun _ => inr []
|}.

(** Whether every [aggregations] sub-query of [q] asks for [alias]. *)
Definition asksFor (alias : string) (q : list qop) : bool :=
  forallb (fun op => match op with
                     | WithQuery "aggregations" sub => existsb (isAggregateAs alias) sub
                     | _ => true
                     end) q.

(** Two groups of events; the average price comes with the rows only
    when the query asks for it. *)
Definition priced : Env := {|
  transformFn := fun _ _ v => inr (v, []);
  queryFn := fun _ _ _ _ => inr [];
  parseArrayValues := fun _ v => inr (v, []);
  database := fun q =>
    inr (if asksFor "avg" q
         then [[("groupByField", VStr "a"); ("count", VStr "3"); ("avg", VDec 12345 3)];
               [("groupByField", VStr "b"); ("count", VStr "1"); ("avg", VNull)]]
         else [[("groupByField", VStr "a"); ("count", VStr "3")];
               [("groupByField", VStr "b"); ("count", VStr "1")]])
|}.

(** The cells of [Sample.typeOnlyStore] with the page configuration
    written as text, as a query string carries it. *)
Definition textPageStore : state :=
  {| heap := [CQuery [];
              CObj [("orderBy", VStr "day"); ("order", VStr "desc")];
              CObj [("page", VStr "2"); ("nbResultsPerPage", VStr "2")];
              CObj [("type", VRef 4)];
              CObj [("dbField", VStr "type"); ("value", VStr "x")]];
     executed := [] |}.

(** An environment whose custom query functions compare a lowered column. *)
Definition customQuery : Env := {|
  transformFn := fun _ _ v => inr (v, []);
  queryFn := fun _ _ v _ => inr [WhereRaw "lower(name) = ?" [v]];
  parseArrayValues := fun _ v => inr (v, []);
  database := fun _ => inr []
|}.
End Sample2.

(** * Properties *)

(** ** The monad and the heap primitives *)

Lemma bind_Ok {A B} (m : M A) (k : A -> M B) s a s' :
  m s = Ok a s' -> bind m k s = k a s'.
Proof. intros H. unfold bind. now rewrite H. Qed.

Lemma bind_Err {A B} (m : M A) (k : A -> M B) s e s' :
  m s = Err e s' -> bind m k s = Err e s'.
Proof. intros H. unfold bind. now rewrite H. Qed.

Lemma bind_assoc {A B C} (m : M A) (k : A -> M B) (k' : B -> M C) s :
  bind (bind m k) k' s = bind m (fun a => bind (k a) k') s.
Proof. unfold bind. destruct (m s); reflexivity. Qed.

Lemma forEach_app {A} (f : A -> M unit) xs ys s :
  forEach f (xs ++ ys) s = (forEach f xs ;; forEach f ys) s.
Proof.
  revert s. induction xs as [|x xs IH]; intros s; simpl.
  - reflexivity.
  - unfold bind in *. destruct (f x s) as [[] s1|e s1]; [|reflexivity].
    apply IH.
Qed.

Lemma writeCell_id l c s : heap s !! l = Some c -> writeCell l c s = s.
Proof.
  intros H. destruct s as [h ex]. unfold writeCell. simpl in *.
  now rewrite list_insert_id.
Qed.

Lemma writeCell_twice l c c' s :
  writeCell l c' (writeCell l c s) = writeCell l c' s.
Proof. unfold writeCell. simpl. now rewrite list_insert_insert_eq. Qed.

Lemma writeCell_same l c s :
  l < length (heap s) -> heap (writeCell l c s) !! l = Some c.
Proof. intros H. simpl. now apply list_lookup_insert_eq. Qed.

Lemma writeCell_other l l' c s :
  l <> l' -> heap (writeCell l c s) !! l' = heap s !! l'.
Proof. intros H. simpl. now apply list_lookup_insert_ne. Qed.

Lemma getProp_ref l k s :
  getProp (VRef l) k s = Ok (prop (heap s) (VRef l) k) s.
Proof. reflexivity. Qed.

Lemma prop_obj h l ps k :
  h !! l = Some (CObj ps) -> prop h (VRef l) k = assoc_get k ps.
Proof. intros H. unfold prop. simpl. now rewrite H. Qed.

Lemma push_query l ops op s :
  heap s !! l = Some (CQuery ops) ->
  push (VRef l) op s = Ok tt (writeCell l (CQuery (ops ++ [op])) s).
Proof. intros H. unfold push. now rewrite H. Qed.

Lemma setProp_obj l ps k x s :
  heap s !! l = Some (CObj ps) ->
  setProp (VRef l) k x s = Ok tt (writeCell l (CObj (assoc_set k x ps)) s).
Proof. intros H. unfold setProp. now rewrite H. Qed.

(** A conditional builder call leaves the builder with the operation
    appended, or as it was. *)
Lemma when_push l ops (b : bool) op s :
  heap s !! l = Some (CQuery ops) ->
  when b (push (VRef l) op) s
  = Ok tt (writeCell l (CQuery (ops ++ (if b then [op] else []))) s).
Proof.
  intros H. destruct b; simpl.
  - now apply push_query.
  - unfold ret. rewrite app_nil_r. now rewrite writeCell_id.
Qed.

(** ** The range strategy, one filter at a time *)

Lemma getMinRangeValue_obj h l rng :
  h !! l = Some (CObj rng) -> getMinRangeValue h (VRef l) = lowerBound h rng.
Proof.
  intros H. unfold getMinRangeValue, lowerBound, isPlainObject. simpl.
  rewrite H. simpl. rewrite !(prop_obj h l rng) by assumption. reflexivity.
Qed.

Lemma lowerBound_truthy_compiled h minValue rng :
  truthy (lowerBound h rng) = true -> compiledRange minValue rng = rng.
Proof.
  unfold lowerBound, compiledRange.
  destruct (assoc_get "gt" rng), (assoc_get "gte" rng); simpl; try reflexivity;
    discriminate.
Qed.

(** Lines 251-262: the four conditional [where] calls. *)
Lemma emit_range_predicates lq ltv dbField rng ops s :
  heap s !! ltv = Some (CObj rng) ->
  heap s !! lq = Some (CQuery ops) ->
  (let* lt := getProp (VRef ltv) "lt" in
   when (truthy lt) (push (VRef lq) (WhereCmp dbField "<" lt)) ;;
   let* lte := getProp (VRef ltv) "lte" in
   when (truthy lte) (push (VRef lq) (WhereCmp dbField "<=" lte)) ;;
   let* gt := getProp (VRef ltv) "gt" in
   when (truthy gt) (push (VRef lq) (WhereCmp dbField ">" gt)) ;;
   let* gte := getProp (VRef ltv) "gte" in
   when (truthy gte) (push (VRef lq) (WhereCmp dbField ">=" gte))) s
  = Ok tt (writeCell lq (CQuery (ops ++ rangePredicates dbField rng)) s).
Proof.
  intros Hrng Hq.
  assert (Hne : lq <> ltv) by (intros ->; congruence).
  assert (Hlt : lq < length (heap s)) by (eapply lookup_lt_Some; eassumption).
  assert (Hobj : forall c, heap (writeCell lq c s) !! ltv = Some (CObj rng))
    by (intros c; rewrite writeCell_other; assumption).
  unfold rangePredicates, boundPredicate.
  rewrite (bind_Ok _ _ _ _ _ (getProp_ref _ _ _)), (prop_obj _ _ _ _ Hrng).
  rewrite (bind_Ok _ _ _ _ _ (when_push _ _ _ _ _ Hq)).
  rewrite (bind_Ok _ _ _ _ _ (getProp_ref _ _ _)), (prop_obj _ _ _ _ (Hobj _)).
  rewrite (bind_Ok _ _ _ _ _ (when_push _ _ _ _ _ (writeCell_same _ _ _ Hlt))).
  rewrite writeCell_twice.
  rewrite (bind_Ok _ _ _ _ _ (getProp_ref _ _ _)), (prop_obj _ _ _ _ (Hobj _)).
  rewrite (bind_Ok _ _ _ _ _ (when_push _ _ _ _ _ (writeCell_same _ _ _ Hlt))).
  rewrite writeCell_twice.
  rewrite (bind_Ok _ _ _ _ _ (getProp_ref _ _ _)), (prop_obj _ _ _ _ (Hobj _)).
  rewrite (when_push _ _ _ _ _ (writeCell_same _ _ _ Hlt)).
  rewrite writeCell_twice, <- !app_assoc. reflexivity.
Qed.

Section RangeFilter.
Variables (E : Env) (lq lf ltvs lspec ltv : loc) (key : string).
Variables (fs spec vs rng : object) (ops : list qop) (s : state).
Hypothesis Hfilters : heap s !! lf = Some (CObj fs).
Hypothesis Hkey : assoc_get key fs = VRef lspec.
Hypothesis Hspec : heap s !! lspec = Some (CObj spec).
Hypothesis Hvalues : heap s !! ltvs = Some (CObj vs).
Hypothesis Hvalue : assoc_get key vs = VRef ltv.
Hypothesis Hrange : heap s !! ltv = Some (CObj rng).
Hypothesis Hbuilder : heap s !! lq = Some (CQuery ops).
Hypothesis Hquery : assoc_get "query" spec = VStr "range".
Hypothesis HdbField : truthy (assoc_get "dbField" spec) = true.

Let dbField := assoc_get "dbField" spec.
Let minValue := assoc_get "minValue" spec.

Lemma applyFilter_range :
  applyFilter E (VRef lq) (VRef lf) (VRef ltvs) key s
  = if truthy (lowerBound (heap s) rng)
       && js_lt (heap s) (lowerBound (heap s) rng) minValue
    then Err (minValueError key minValue) s
    else Ok tt (writeCell lq
                  (CQuery (ops ++ rangePredicates dbField (compiledRange minValue rng)))
                  (writeCell ltv (CObj (compiledRange minValue rng)) s)).
Proof.
  assert (Hne : ltv <> lq) by (intros ->; congruence).
  assert (Hlt : ltv < length (heap s)) by (eapply lookup_lt_Some; eassumption).
  unfold applyFilter.
  rewrite (bind_Ok _ _ _ _ _ (getProp_ref _ _ _)).
  rewrite (prop_obj _ _ _ _ Hfilters), Hkey.
  unfold destructure. rewrite (bind_Ok _ _ s tt s) by reflexivity.
  repeat (rewrite (bind_Ok _ _ _ _ _ (getProp_ref _ _ _));
          rewrite ?(prop_obj _ _ _ _ Hspec), ?(prop_obj _ _ _ _ Hvalues)).
  rewrite Hvalue, Hquery. simpl isUndefined. simpl isFunction. cbv iota.
  unfold dbField, minValue. rewrite HdbField. simpl.
  rewrite (bind_Ok _ _ s tt s) by reflexivity.
  rewrite (bind_Ok _ _ s (lowerBound (heap s) rng) s)
    by (unfold gets; now rewrite (getMinRangeValue_obj _ _ _ Hrange)).
  destruct (truthy (lowerBound (heap s) rng)) eqn:Htruthy; simpl.
  - rewrite (lowerBound_truthy_compiled _ _ _ Htruthy).
    rewrite !bind_assoc.
    rewrite (bind_Ok _ _ s (js_lt (heap s) (lowerBound (heap s) rng)
                              (assoc_get "minValue" spec)) s) by reflexivity.
    destruct (js_lt (heap s) (lowerBound (heap s) rng) (assoc_get "minValue" spec)).
    + reflexivity.
    + rewrite (bind_Ok _ _ s tt s) by reflexivity.
      rewrite (writeCell_id ltv) by assumption.
      now apply emit_range_predicates.
  - rewrite !bind_assoc.
    rewrite (bind_Ok _ _ s false s)
      by (unfold gets, isPlainObject; simpl; now rewrite Hrange).
    cbv beta. rewrite ?bind_assoc.
    rewrite (bind_Ok _ _ s (isUndefined (assoc_get "gt" rng)
                            && isUndefined (assoc_get "gte" rng)) s)
      by (unfold gets; now rewrite !(prop_obj _ _ _ _ Hrange)).
    unfold compiledRange. simpl negb. cbv beta.
    destruct (isUndefined (assoc_get "gt" rng) && isUndefined (assoc_get "gte" rng));
      simpl.
    + rewrite (bind_Ok _ _ _ _ _ (setProp_obj _ _ _ _ _ Hrange)).
      apply emit_range_predicates.
      * now apply writeCell_same.
      * now rewrite writeCell_other.
    + rewrite (bind_Ok _ _ s tt s) by reflexivity.
      rewrite (writeCell_id ltv) by assumption.
      now apply emit_range_predicates.
Qed.
End RangeFilter.

(** ** From one filter to the whole loop *)

Lemma addFilters_at E qb lf tvs s fs ks1 key ks2 s1 :
  heap s !! lf = Some (CObj fs) ->
  map fst fs = ks1 ++ key :: ks2 ->
  forEach (applyFilter E qb (VRef lf) tvs) ks1 s = Ok tt s1 ->
  addFiltersToQueryBuilder E qb (VRef lf) tvs s
  = (applyFilter E qb (VRef lf) tvs key ;;
     forEach (applyFilter E qb (VRef lf) tvs) ks2) s1.
Proof.
  intros Hfs Hks Hrun. unfold addFiltersToQueryBuilder.
  rewrite (bind_Ok _ _ s (ks1 ++ key :: ks2) s)
    by (unfold objectKeys; simpl; now rewrite Hfs, Hks).
  rewrite forEach_app. now rewrite (bind_Ok _ _ _ _ _ Hrun).
Qed.

Lemma applyFilter_skip E qb filters tvs key s :
  isNullish filters = false ->
  isNullish (prop (heap s) filters key) = false ->
  isNullish tvs = false ->
  prop (heap s) tvs key = VUndef ->
  applyFilter E qb filters tvs key s = Ok tt s.
Proof.
  intros Hf Hspec Htvs Hv. unfold applyFilter.
  assert (Hget : forall v k s0, isNullish v = false ->
                   getProp v k s0 = Ok (prop (heap s0) v k) s0)
    by (intros [] ? ? ?; try discriminate; reflexivity).
  rewrite (bind_Ok _ _ _ _ _ (Hget _ _ _ Hf)).
  rewrite (bind_Ok _ _ s tt s)
    by (destruct (prop (heap s) filters key); try discriminate; reflexivity).
  rewrite !(bind_Ok _ _ _ _ _ (Hget _ _ _ Hspec)).
  rewrite (bind_Ok _ _ _ _ _ (Hget _ _ _ Htvs)).
  rewrite Hv. reflexivity.
Qed.

(** ** The predicate compiler *)

(** C8. A filter whose normalized value is undefined is skipped entirely:
    the run of [addFiltersToQueryBuilder] is the run of the filters before
    it followed by the run of the filters after it, so it adds no
    predicate, raises no error, and the other filters are still applied. *)
Theorem optional_filter_skipped E qb lf tvs s fs ks1 key ks2 s1 :
  heap s !! lf = Some (CObj fs) ->
  map fst fs = ks1 ++ key :: ks2 ->
  forEach (applyFilter E qb (VRef lf) tvs) ks1 s = Ok tt s1 ->
  isNullish (prop (heap s1) (VRef lf) key) = false ->
  isNullish tvs = false ->
  prop (heap s1) tvs key = VUndef ->
  addFiltersToQueryBuilder E qb (VRef lf) tvs s
  = forEach (applyFilter E qb (VRef lf) tvs) ks2 s1.
Proof.
  intros Hfs Hks Hrun Hspec Htvs Hv.
  rewrite (addFilters_at _ _ _ _ _ _ _ _ _ _ Hfs Hks Hrun).
  now rewrite (bind_Ok _ _ _ _ _
                 (applyFilter_skip E qb (VRef lf) tvs key s1 eq_refl Hspec Htvs Hv)).
Qed.

Lemma optional_filter_skipped_witness :
  addFiltersToQueryBuilder (Sample.env []) (VRef 0) (VRef 1) (VRef 4)
    Sample.optionalStore
  = Ok tt (writeCell 0 (CQuery [Where (VStr "status") (VStr "on")])
             Sample.optionalStore).
Proof.
  rewrite (optional_filter_skipped (Sample.env []) (VRef 0) 1 (VRef 4)
             Sample.optionalStore
             [("type", VRef 2); ("status", VRef 3)] [] "type" ["status"]
             Sample.optionalStore);
    reflexivity.
Defined.

Lemma assoc_get_set_same k x ps : assoc_get k (assoc_set k x ps) = x.
Proof.
  induction ps as [|[k' v] ps IH]; simpl.
  - now rewrite String.eqb_refl.
  - destruct (String.eqb k k') eqn:Hk; simpl; rewrite ?String.eqb_refl, ?Hk; auto.
Qed.

Lemma assoc_get_set_other k k' x ps :
  k <> k' -> assoc_get k (assoc_set k' x ps) = assoc_get k ps.
Proof.
  intros Hne. apply String.eqb_neq in Hne.
  induction ps as [|[k0 v] ps IH]; simpl.
  - now rewrite Hne.
  - destruct (String.eqb k' k0) eqn:Hk; simpl.
    + apply String.eqb_eq in Hk. subst k0. now rewrite Hne.
    + destruct (String.eqb k k0); auto.
Qed.

Lemma assoc_get_del_other k k' ps :
  k <> k' -> assoc_get k (assoc_del k' ps) = assoc_get k ps.
Proof.
  intros Hne. apply String.eqb_neq in Hne.
  induction ps as [|[k0 v] ps IH]; simpl; [reflexivity|].
  destruct (String.eqb k' k0) eqn:Hk; simpl.
  - apply String.eqb_eq in Hk. subst k0. now rewrite Hne.
  - destruct (String.eqb k k0); auto.
Qed.

Lemma has_key_set_same k x ps : has_key k (assoc_set k x ps) = true.
Proof.
  unfold has_key. induction ps as [|[k' v] ps IH]; simpl.
  - now rewrite String.eqb_refl.
  - destruct (String.eqb k k') eqn:Hk; simpl; rewrite ?String.eqb_refl, ?Hk; auto.
Qed.

Lemma has_key_set_other k k' x ps :
  has_key k ps = true -> has_key k (assoc_set k' x ps) = true.
Proof.
  unfold has_key. induction ps as [|[k0 v] ps IH]; simpl; [discriminate|].
  destruct (String.eqb k' k0) eqn:Hk; simpl.
  - apply String.eqb_eq in Hk. now subst k0.
  - destruct (String.eqb k k0); simpl; auto.
Qed.

Lemma has_key_false_get k ps : has_key k ps = false -> assoc_get k ps = VUndef.
Proof.
  unfold has_key. induction ps as [|[k0 v] ps IH]; simpl; [reflexivity|].
  destruct (String.eqb k k0); simpl; [discriminate | exact IH].
Qed.

(** The comparisons of a range object: one per truthy bound, at most four. *)
Lemma rangePredicates_spec dbField rng q :
  In q (rangePredicates dbField rng) <->
  exists op bound,
    In (op, bound) [("<", "lt"); ("<=", "lte"); (">", "gt"); (">=", "gte")]
    /\ truthy (assoc_get bound rng) = true
    /\ q = WhereCmp dbField op (assoc_get bound rng).
Proof.
  unfold rangePredicates, boundPredicate. rewrite !in_app_iff. split.
  - intros H.
    repeat match type of H with
           | _ \/ _ => destruct H as [H|H]
           end;
      match type of H with
      | In _ (if truthy (assoc_get ?b _) then _ else _) =>
          destruct (truthy (assoc_get b rng)) eqn:Ht; simpl in H;
          [destruct H as [<-|[]]|destruct H]
      end;
      eexists _, _; (split; [|split; [eassumption|reflexivity]]); simpl; tauto.
  - intros (op & bound & Hin & Ht & ->). simpl in Hin.
    repeat match type of Hin with
           | _ \/ _ => destruct Hin as [Hin|Hin]
           | (_, _) = (_, _) => injection Hin as <- <-
           | False => destruct Hin
           end; rewrite Ht; simpl; tauto.
Qed.

Lemma rangePredicates_length dbField rng :
  length (rangePredicates dbField rng) <= 4.
Proof.
  unfold rangePredicates, boundPredicate. rewrite !length_app.
  repeat match goal with
         | |- context [if ?b then _ else _] => destruct b
         end; simpl; lia.
Qed.

(** C2. For a range filter whose normalized value is a range object and
    that passes the minimum-bound check, [addFiltersToQueryBuilder]
    appends to the builder exactly the comparisons of the truthy bounds
    of the range object as it reaches compilation: [<] for [lt], [<=] for
    [lte], [>] for [gt], [>=] for [gte]; a falsy bound (0, false) gives
    none, so between zero and four comparisons are appended. *)
Theorem range_predicates_of_truthy_bounds
    E lq lf ltvs lspec ltv key fs spec vs rng ops s ks1 ks2 s1 fs0 :
  heap s !! lf = Some (CObj fs0) ->
  map fst fs0 = ks1 ++ key :: ks2 ->
  forEach (applyFilter E (VRef lq) (VRef lf) (VRef ltvs)) ks1 s = Ok tt s1 ->
  heap s1 !! lf = Some (CObj fs) ->
  assoc_get key fs = VRef lspec ->
  heap s1 !! lspec = Some (CObj spec) ->
  heap s1 !! ltvs = Some (CObj vs) ->
  assoc_get key vs = VRef ltv ->
  heap s1 !! ltv = Some (CObj rng) ->
  heap s1 !! lq = Some (CQuery ops) ->
  assoc_get "query" spec = VStr "range" ->
  truthy (assoc_get "dbField" spec) = true ->
  truthy (lowerBound (heap s1) rng)
  && js_lt (heap s1) (lowerBound (heap s1) rng) (assoc_get "minValue" spec) = false ->
  let dbField := assoc_get "dbField" spec in
  let compiled := compiledRange (assoc_get "minValue" spec) rng in
  addFiltersToQueryBuilder E (VRef lq) (VRef lf) (VRef ltvs) s
  = forEach (applyFilter E (VRef lq) (VRef lf) (VRef ltvs)) ks2
      (writeCell lq (CQuery (ops ++ rangePredicates dbField compiled))
         (writeCell ltv (CObj compiled) s1))
  /\ (forall q, In q (rangePredicates dbField compiled) <->
        exists op bound,
          In (op, bound) [("<", "lt"); ("<=", "lte"); (">", "gt"); (">=", "gte")]
          /\ truthy (assoc_get bound compiled) = true
          /\ q = WhereCmp dbField op (assoc_get bound compiled))
  /\ length (rangePredicates dbField compiled) <= 4.
Proof.
  intros Hfs0 Hks Hrun Hfs Hkey Hspec Hvs Hv Hrng Hq Hquery Hdb Hmin dbField compiled.
  split; [|split].
  - rewrite (addFilters_at _ _ _ _ _ _ _ _ _ _ Hfs0 Hks Hrun).
    erewrite bind_Ok; [reflexivity|].
    rewrite (applyFilter_range E lq lf ltvs lspec ltv key fs spec vs rng ops s1);
      try assumption.
    now rewrite Hmin.
  - apply rangePredicates_spec.
  - apply rangePredicates_length.
Qed.

Lemma range_predicates_of_truthy_bounds_witness :
  addFiltersToQueryBuilder (Sample.env []) (VRef 0) (VRef 1) (VRef 4)
    (Sample.rangeStore [("lt", VNum 50); ("lte", VNum 0); ("gt", VBool false);
                        ("gte", VNum 20)] (VNum 10))
  = Ok tt (writeCell 0 (CQuery [WhereCmp (VStr "price") "<" (VNum 50);
                                WhereCmp (VStr "price") ">=" (VNum 20)])
             (Sample.rangeStore [("lt", VNum 50); ("lte", VNum 0);
                                 ("gt", VBool false); ("gte", VNum 20)] (VNum 10))).
Proof.
  set (s := Sample.rangeStore _ _).
  destruct (range_predicates_of_truthy_bounds (Sample.env []) 0 1 4 2 3 "price"
              [("price", VRef 2)]
              [("dbField", VStr "price"); ("value", VRef 3);
               ("minValue", VNum 10); ("query", VStr "range")]
              [("price", VRef 3)]
              [("lt", VNum 50); ("lte", VNum 0); ("gt", VBool false); ("gte", VNum 20)]
              [] s [] [] s [("price", VRef 2)]
              eq_refl eq_refl eq_refl eq_refl eq_refl eq_refl eq_refl eq_refl
              eq_refl eq_refl eq_refl eq_refl eq_refl) as [H _].
  rewrite H. reflexivity.
Defined.

(** C4. A range filter whose range object supplies neither [gt] nor [gte]
    gets [gte = minValue] written into that object before its predicates
    are compiled from it; when [minValue] is truthy the [>=] comparison
    with [minValue] is among them. *)
Theorem lower_bound_injected
    E lq lf ltvs lspec ltv key fs spec vs rng ops s ks1 ks2 s1 fs0 :
  heap s !! lf = Some (CObj fs0) ->
  map fst fs0 = ks1 ++ key :: ks2 ->
  forEach (applyFilter E (VRef lq) (VRef lf) (VRef ltvs)) ks1 s = Ok tt s1 ->
  heap s1 !! lf = Some (CObj fs) ->
  assoc_get key fs = VRef lspec ->
  heap s1 !! lspec = Some (CObj spec) ->
  heap s1 !! ltvs = Some (CObj vs) ->
  assoc_get key vs = VRef ltv ->
  heap s1 !! ltv = Some (CObj rng) ->
  heap s1 !! lq = Some (CQuery ops) ->
  assoc_get "query" spec = VStr "range" ->
  truthy (assoc_get "dbField" spec) = true ->
  assoc_get "gt" rng = VUndef ->
  assoc_get "gte" rng = VUndef ->
  let dbField := assoc_get "dbField" spec in
  let minValue := assoc_get "minValue" spec in
  let injected := assoc_set "gte" minValue rng in
  addFiltersToQueryBuilder E (VRef lq) (VRef lf) (VRef ltvs) s
  = forEach (applyFilter E (VRef lq) (VRef lf) (VRef ltvs)) ks2
      (writeCell lq (CQuery (ops ++ rangePredicates dbField injected))
         (writeCell ltv (CObj injected) s1))
  /\ assoc_get "gte" injected = minValue
  /\ (truthy minValue = true ->
      In (WhereCmp dbField ">=" minValue) (rangePredicates dbField injected)).
Proof.
  intros Hfs0 Hks Hrun Hfs Hkey Hspec Hvs Hv Hrng Hq Hquery Hdb Hgt Hgte
         dbField minValue injected.
  assert (Hlow : lowerBound (heap s1) rng = VUndef)
    by (unfold lowerBound; now rewrite Hgt, Hgte).
  assert (Hcomp : compiledRange minValue rng = injected)
    by (unfold compiledRange; now rewrite Hgt, Hgte).
  split; [|split].
  - rewrite (addFilters_at _ _ _ _ _ _ _ _ _ _ Hfs0 Hks Hrun).
    erewrite bind_Ok; [reflexivity|].
    rewrite (applyFilter_range E lq lf ltvs lspec ltv key fs spec vs rng ops s1);
      try assumption.
    rewrite Hlow. simpl. fold minValue. now rewrite Hcomp.
  - apply assoc_get_set_same.
  - intros Ht. apply rangePredicates_spec. exists ">=", "gte".
    unfold injected. rewrite assoc_get_set_same. simpl. tauto.
Qed.

Lemma lower_bound_injected_witness :
  addFiltersToQueryBuilder (Sample.env []) (VRef 0) (VRef 1) (VRef 4)
    (Sample.rangeStore [("lt", VNum 50)] (VNum 10))
  = Ok tt (writeCell 0 (CQuery [WhereCmp (VStr "price") "<" (VNum 50);
                                WhereCmp (VStr "price") ">=" (VNum 10)])
             (writeCell 3 (CObj [("lt", VNum 50); ("gte", VNum 10)])
                (Sample.rangeStore [("lt", VNum 50)] (VNum 10)))).
Proof.
  set (s := Sample.rangeStore _ _).
  destruct (lower_bound_injected (Sample.env []) 0 1 4 2 3 "price"
              [("price", VRef 2)]
              [("dbField", VStr "price"); ("value", VRef 3);
               ("minValue", VNum 10); ("query", VStr "range")]
              [("price", VRef 3)] [("lt", VNum 50)]
              [] s [] [] s [("price", VRef 2)]
              eq_refl eq_refl eq_refl eq_refl eq_refl eq_refl eq_refl eq_refl
              eq_refl eq_refl eq_refl eq_refl eq_refl eq_refl) as [H _].
  rewrite H. reflexivity.
Defined.

(** What the minimum-bound check does enforce: a truthy lower bound that
    is below [minValue] stops the loop with the 400 error, in the store
    reached by the filters before it (nothing is emitted for the filter). *)
Lemma truthy_lower_bound_rejected
    E lq lf ltvs lspec ltv key fs spec vs rng ops s ks1 ks2 s1 fs0 :
  heap s !! lf = Some (CObj fs0) ->
  map fst fs0 = ks1 ++ key :: ks2 ->
  forEach (applyFilter E (VRef lq) (VRef lf) (VRef ltvs)) ks1 s = Ok tt s1 ->
  heap s1 !! lf = Some (CObj fs) ->
  assoc_get key fs = VRef lspec ->
  heap s1 !! lspec = Some (CObj spec) ->
  heap s1 !! ltvs = Some (CObj vs) ->
  assoc_get key vs = VRef ltv ->
  heap s1 !! ltv = Some (CObj rng) ->
  heap s1 !! lq = Some (CQuery ops) ->
  assoc_get "query" spec = VStr "range" ->
  truthy (assoc_get "dbField" spec) = true ->
  truthy (getMinRangeValue (heap s1) (VRef ltv)) = true ->
  js_lt (heap s1) (getMinRangeValue (heap s1) (VRef ltv)) (assoc_get "minValue" spec) = true ->
  addFiltersToQueryBuilder E (VRef lq) (VRef lf) (VRef ltvs) s
  = Err (minValueError key (assoc_get "minValue" spec)) s1.
Proof.
  intros Hfs0 Hks Hrun Hfs Hkey Hspec Hvs Hv Hrng Hq Hquery Hdb Ht Hlt.
  rewrite (getMinRangeValue_obj _ _ _ Hrng) in Ht, Hlt.
  rewrite (addFilters_at _ _ _ _ _ _ _ _ _ _ Hfs0 Hks Hrun).
  apply bind_Err.
  rewrite (applyFilter_range E lq lf ltvs lspec ltv key fs spec vs rng ops s1);
    try assumption.
  now rewrite Ht, Hlt.
Qed.

(** C1. The specification has every lower bound strictly below
    [minValue] refused with the 400 error.  With the range value [{ gte: 0 }] and [minValue] 10
    the lower bound read by [getMinRangeValue] is 0, which is below 10,
    yet [addFiltersToQueryBuilder] returns normally and leaves the store
    and the builder as they were: no error and no lower-bound predicate. *)
Theorem zero_lower_bound_not_rejected :
  let s := Sample.rangeStore [("gte", VNum 0)] (VNum 10) in
  getMinRangeValue (heap s) (VRef 3) = VNum 0
  /\ js_lt (heap s) (VNum 0) (VNum 10) = true
  /\ addFiltersToQueryBuilder (Sample.env []) (VRef 0) (VRef 1) (VRef 4) s = Ok tt s.
Proof. repeat split. Qed.

(** ** The planners: what is refused before any query *)

(** C6. When [field] equals [groupBy], [performAggregationQuery] always
    fails and leaves the store untouched: no operation reaches the builder
    and no query is executed.  The shape validations of the order config,
    the filters and the pagination config come first; once they pass, the
    error is the 422 [field cannot be field and groupBy at the same time]. *)
Theorem aggregation_field_groupBy_conflict E p s :
  strictEq (field p) (groupBy p) = true ->
  performAggregationQuery E p s
  = Err (if negb (orderConfigSchema (heap s) (orderConfig p))
         then JoiError "Bad order config: "
         else if truthy (filters p) && negb (filtersSchema (heap s) (filters p))
         then JoiError "Bad filters: "
         else if negb (paginationConfigSchema (heap s) (paginationConfig p))
         then JoiError "Bad pagination config: "
         else fieldGroupByError (field p)) s.
Proof.
  intros Heq. unfold performAggregationQuery.
  unfold checkOrderConfig, checkFilters, checkPaginationConfig, validate, gets, when.
  unfold bind at 1 2. destruct (orderConfigSchema _ _); simpl; [|reflexivity].
  unfold bind at 1. destruct (truthy (filters p)); simpl.
  - unfold bind at 1. destruct (filtersSchema _ _); simpl; [|reflexivity].
    unfold bind. destruct (paginationConfigSchema _ _); simpl; [|reflexivity].
    now rewrite Heq.
  - unfold bind. destruct (paginationConfigSchema _ _); simpl; [|reflexivity].
    now rewrite Heq.
Qed.

Lemma aggregation_field_groupBy_conflict_witness :
  performAggregationQuery (Sample.env [])
    (Sample.statsParams (VStr "data.price") (VStr "data.price"))
    Sample2.textPageStore
  = Err (HttpError 422 "data.price cannot be field and groupBy at the same time")
      Sample2.textPageStore.
Proof.
  rewrite (aggregation_field_groupBy_conflict (Sample.env [])
             (Sample.statsParams (VStr "data.price") (VStr "data.price"))
             Sample2.textPageStore eq_refl).
  reflexivity.
Defined.

Lemma validate_ok schema prefix v s :
  schema (heap s) v = true -> validate schema prefix v s = Ok tt s.
Proof. intros H. unfold validate, gets, bind. now rewrite H. Qed.

Lemma validate_err schema prefix v s :
  schema (heap s) v = false -> validate schema prefix v s = Err (JoiError prefix) s.
Proof. intros H. unfold validate, gets, bind. now rewrite H. Qed.

Lemma objectKeys_obj l ps s :
  heap s !! l = Some (CObj ps) -> objectKeys (VRef l) s = Ok (map fst ps) s.
Proof. intros H. unfold objectKeys. simpl. now rewrite H. Qed.

Lemma gets_Ok {A} (f : list cell -> A) s : gets f s = Ok (f (heap s)) s.
Proof. reflexivity. Qed.

(** C10. With valid order config and a valid (hence non-empty) filters
    object that has no entry under the time filter key ([createdDate]
    unless [timeFilter] is given), [performHistoryQuery] stops in the
    retention guard with the runtime TypeError of reading [.value] of
    undefined, before anything is written. *)
Theorem history_needs_time_filter_entry E p s lf fs :
  orderConfigSchema (heap s) (orderConfig p) = true ->
  filters p = VRef lf ->
  heap s !! lf = Some (CObj fs) ->
  filtersSchema (heap s) (VRef lf) = true ->
  has_key (ToString (default (VStr "createdDate") (timeFilter p))) fs = false ->
  performHistoryQuery E p s
  = Err (TypeError "Cannot read property 'value' of undefined") s.
Proof.
  intros Hoc Hf Hfs Hvalid Hno. unfold performHistoryQuery. rewrite Hf.
  unfold checkOrderConfig, checkFilters.
  rewrite (bind_Ok _ _ _ _ _ (validate_ok _ _ _ _ Hoc)).
  apply bind_Err. change (truthy (VRef lf)) with true. cbv iota.
  rewrite (bind_Ok _ _ _ _ _ (validate_ok _ _ _ _ Hvalid)).
  rewrite (bind_Ok _ _ _ _ _ (objectKeys_obj _ _ _ Hfs)).
  rewrite (bind_Ok _ _ _ _ _ (gets_Ok _ _)).
  rewrite (bind_Ok _ _ _ _ _ (getProp_ref _ _ _)).
  rewrite (prop_obj _ _ _ _ Hfs), (has_key_false_get _ _ Hno).
  reflexivity.
Qed.

Lemma history_needs_time_filter_entry_witness :
  performHistoryQuery (Sample.env [])
    (Sample.historyParams (VStr "2019-01-01") (VRef 3)) Sample.typeOnlyStore
  = Err (TypeError "Cannot read property 'value' of undefined")
      Sample.typeOnlyStore.
Proof.
  apply (history_needs_time_filter_entry (Sample.env [])
           (Sample.historyParams (VStr "2019-01-01") (VRef 3))
           Sample.typeOnlyStore 3 [("type", VRef 4)]);
    reflexivity.
Defined.

(** What the retention guard does enforce: with valid inputs, a truthy
    lower time bound before [retentionLimitDate] together with an active
    filter other than the time and secondary filters is refused with the
    400 error, before anything is written. *)
Lemma retention_guard_rejects E p s lf fs lt tspec :
  orderConfigSchema (heap s) (orderConfig p) = true ->
  filters p = VRef lf ->
  heap s !! lf = Some (CObj fs) ->
  filtersSchema (heap s) (VRef lf) = true ->
  assoc_get (ToString (default (VStr "createdDate") (timeFilter p))) fs = VRef lt ->
  heap s !! lt = Some (CObj tspec) ->
  truthy (getMinRangeValue (heap s) (assoc_get "value" tspec)) = true ->
  js_lt (heap s) (getMinRangeValue (heap s) (assoc_get "value" tspec)) (retentionLimitDate p)
  = true ->
  forallb isUndefined
    (map (fun key => lodash_get (heap s) (VRef lf) (key +:+ ".value"))
       (without (map fst fs)
          (compact [default (VStr "createdDate") (timeFilter p); secondaryFilter p])))
  = false ->
  performHistoryQuery E p s = Err (retentionError (retentionLimitDate p)) s.
Proof.
  intros Hoc Hf Hfs Hvalid Htime Htspec Htruthy Hlt Hactive.
  unfold performHistoryQuery. rewrite Hf.
  unfold checkOrderConfig, checkFilters.
  rewrite (bind_Ok _ _ _ _ _ (validate_ok _ _ _ _ Hoc)).
  apply bind_Err. change (truthy (VRef lf)) with true. cbv iota.
  rewrite (bind_Ok _ _ _ _ _ (validate_ok _ _ _ _ Hvalid)).
  rewrite (bind_Ok _ _ _ _ _ (objectKeys_obj _ _ _ Hfs)).
  rewrite (bind_Ok _ _ _ _ _ (gets_Ok _ _)).
  rewrite (bind_Ok _ _ _ _ _ (getProp_ref _ _ _)).
  rewrite (prop_obj _ _ _ _ Hfs), Htime.
  rewrite (bind_Ok _ _ _ _ _ (getProp_ref _ _ _)).
  rewrite (prop_obj _ _ _ _ Htspec).
  rewrite (bind_Ok _ _ _ _ _ (gets_Ok _ _)).
  rewrite (bind_Ok _ _ _ _ _ (gets_Ok _ _)).
  now rewrite Htruthy, Hlt, Hactive.
Qed.

(** C3. The specification has the 400 raised whenever the lower time
    bound predates [retentionLimitDate] and a filter other than the time
    and secondary filters is active.  With the time range [{ gte: 0 }],
    [retentionLimitDate] 1000 and the [type] filter set, the lower bound
    0 is before the limit and [type] is active, yet the query is run and
    a page is returned; likewise with the empty string as lower bound and
    a date string as limit. *)
Theorem zero_time_bound_not_refused :
  (let s := Sample.historyStore [("gte", VNum 0)] (VStr "x") in
   let p := Sample.historyParams (VNum 1000) (VRef 3) in
   getMinRangeValue (heap s) (prop (heap s) (VRef 4) "value") = VNum 0
   /\ js_lt (heap s) (VNum 0) (retentionLimitDate p) = true
   /\ prop (heap s) (VRef 6) "value" = VStr "x"
   /\ exists page s',
        performHistoryQuery (Sample.env Sample.buckets) p s = Ok page s'
        /\ length (executed s') = 1)
  /\ (let s := Sample.historyStore [("gte", VStr "")] (VStr "x") in
      let p := Sample.historyParams (VStr "2019-01-01") (VRef 3) in
      getMinRangeValue (heap s) (prop (heap s) (VRef 4) "value") = VStr ""
      /\ js_lt (heap s) (VStr "") (retentionLimitDate p) = true
      /\ prop (heap s) (VRef 6) "value" = VStr "x"
      /\ exists page s',
           performHistoryQuery (Sample.env Sample.buckets) p s = Ok page s'
           /\ length (executed s') = 1).
Proof.
  split; repeat split;
    (eexists _, _; split; [vm_compute; reflexivity|reflexivity]).
Qed.

(** ** Invariants of the engine's steps *)

Section Keeps.
Variable P : state -> Prop.

Lemma keeps_Ok {A} (m : M A) s a s' : keeps P m -> P s -> m s = Ok a s' -> P s'.
Proof. intros Hm H Hr. specialize (Hm s H). now rewrite Hr in Hm. Qed.

Lemma keeps_ret {A} (a : A) : keeps P (ret a).
Proof. intros s H. exact H. Qed.

Lemma keeps_throw {A} e : keeps P (@throw A e).
Proof. intros s H. exact H. Qed.

Lemma keeps_gets {A} (f : list cell -> A) : keeps P (gets f).
Proof. intros s H. exact H. Qed.

Lemma keeps_bind {A B} (m : M A) (k : A -> M B) :
  keeps P m -> (forall a, keeps P (k a)) -> keeps P (bind m k).
Proof.
  intros Hm Hk s H. unfold bind. specialize (Hm s H).
  destruct (m s) as [a s'|e s']; simpl in *; [now apply Hk | exact Hm].
Qed.

Lemma keeps_when b (m : M unit) : keeps P m -> keeps P (when b m).
Proof. intros Hm. destruct b; [exact Hm | apply keeps_ret]. Qed.

Lemma keeps_forEach {A} (f : A -> M unit) xs :
  (forall x, keeps P (f x)) -> keeps P (forEach f xs).
Proof.
  intros Hf. induction xs as [|x xs IH]; simpl.
  - apply keeps_ret.
  - apply keeps_bind; [apply Hf | intros _; exact IH].
Qed.

Lemma keeps_mapM {A B} (f : A -> M B) xs :
  (forall x, keeps P (f x)) -> keeps P (mapM f xs).
Proof.
  intros Hf. induction xs as [|x xs IH]; simpl.
  - apply keeps_ret.
  - apply keeps_bind; [apply Hf | intros y].
    apply keeps_bind; [exact IH | intros ys; apply keeps_ret].
Qed.

Lemma keeps_getProp v k : keeps P (getProp v k).
Proof. intros s H. unfold getProp. destruct v; exact H. Qed.

Lemma keeps_destructure v : keeps P (destructure v).
Proof. intros s H. unfold destructure. destruct v; exact H. Qed.

Lemma keeps_objectKeys v : keeps P (objectKeys v).
Proof. intros s H. unfold objectKeys. destruct v; exact H. Qed.

Lemma keeps_readOps v : keeps P (readOps v).
Proof.
  intros s H. unfold readOps. destruct (cellAt (heap s) v) as [[]|]; exact H.
Qed.

Lemma keeps_validate schema prefix v : keeps P (validate schema prefix v).
Proof.
  unfold validate. apply keeps_bind; [apply keeps_gets|].
  intros []; [apply keeps_ret | apply keeps_throw].
Qed.

(** The filter machinery keeps [P] as soon as the writes it is made of
    do: builder calls, allocation, the [gte] injection, and the writes
    into the object [getTransformedValues] has just created. *)
Variable fresh : value -> Prop.
Hypothesis Hpush : forall qb op, keeps P (push qb op).
Hypothesis Halloc : forall f, keeps P (liftAlloc f).
Hypothesis Hnew : forall c s, P s -> fresh (VRef (length (heap s)))
                                     /\ P (finalState (alloc c s)).
Hypothesis Hgte : forall v x, keeps P (setProp v "gte" x).
Hypothesis Hfresh : forall v k x, fresh v -> keeps P (setProp v k x).

Lemma keeps_alloc c : keeps P (alloc c).
Proof. intros s H. now apply Hnew. Qed.

Lemma keeps_callTransform E f v : keeps P (callTransform E f v).
Proof.
  unfold callTransform. destruct f; try apply keeps_throw. apply Halloc.
Qed.

Lemma keeps_callQuery E f qb v vs : keeps P (callQuery E f qb v vs).
Proof.
  unfold callQuery. destruct f; try apply keeps_throw.
  apply keeps_bind; [apply keeps_gets|]. intros [e|ops].
  - apply keeps_throw.
  - apply keeps_forEach. intros op. apply Hpush.
Qed.

Lemma keeps_transformOne E filters values key :
  fresh values -> keeps P (transformOne E filters values key).
Proof.
  intros Hv. unfold transformOne.
  apply keeps_bind; [apply keeps_getProp | intros filter].
  apply keeps_bind; [apply keeps_destructure | intros _].
  apply keeps_bind; [apply keeps_getProp | intros value].
  apply keeps_bind; [apply keeps_getProp | intros transformValue].
  apply keeps_bind; [apply keeps_getProp | intros defaultValue].
  apply keeps_bind.
  - destruct (isUndefined transformValue); [apply keeps_ret|].
    destruct (isString transformValue).
    + destruct (strictEq _ _); [apply Halloc | apply keeps_ret].
    + destruct (isFunction transformValue); [apply keeps_callTransform|].
      apply keeps_bind; [apply keeps_getProp | intros ?; apply keeps_throw].
  - intros newValue. now apply Hfresh.
Qed.

Lemma keeps_getTransformedValues E filters : keeps P (getTransformedValues E filters).
Proof.
  intros s H. unfold getTransformedValues.
  destruct (Hnew (CObj []) s H) as [Hv H1].
  unfold bind at 1. unfold alloc at 1. unfold alloc in H1. simpl in H1.
  revert H1.
  generalize ({| heap := heap s ++ [CObj []]; executed := executed s |}).
  change (keeps P (let* ks := objectKeys filters in
                   forEach (transformOne E filters (VRef (length (heap s)))) ks ;;
                   ret (VRef (length (heap s))))).
  apply keeps_bind; [apply keeps_objectKeys | intros ks].
  apply keeps_bind; [|intros _; apply keeps_ret].
  apply keeps_forEach. intros key. now apply keeps_transformOne.
Qed.

Lemma keeps_whereJsonb qb c d : keeps P (whereJsonbColumnSupersetOf qb c d).
Proof.
  unfold whereJsonbColumnSupersetOf.
  destruct (negb (isString c)); [apply keeps_throw|].
  apply keeps_bind; [apply keeps_gets | intros plain].
  destruct (negb plain); [apply keeps_throw | apply Hpush].
Qed.

Lemma keeps_applyFilter E qb filters tvs key : keeps P (applyFilter E qb filters tvs key).
Proof.
  unfold applyFilter.
  apply keeps_bind; [apply keeps_getProp | intros filter].
  apply keeps_bind; [apply keeps_destructure | intros _].
  do 5 (apply keeps_bind; [apply keeps_getProp | intros ?]).
  destruct (isUndefined _); [apply keeps_ret|].
  destruct (_ && _); [apply keeps_throw|].
  destruct (isUndefined _); [apply Hpush|].
  destruct (isString _).
  - destruct (strictEq _ _).
    + apply keeps_bind; [apply keeps_validate | intros _].
      apply keeps_bind; [apply keeps_gets | intros m].
      apply keeps_bind.
      * destruct (truthy m).
        -- apply keeps_bind; [apply keeps_gets | intros below].
           destruct below; [apply keeps_throw | apply keeps_ret].
        -- apply keeps_bind; [apply keeps_gets | intros ?].
           apply keeps_bind; [apply keeps_gets | intros ?].
           destruct (_ && _); [apply Hgte | apply keeps_ret].
      * intros _.
        repeat (apply keeps_bind;
                [first [apply keeps_getProp | apply keeps_when, Hpush] | intros ?]).
        apply keeps_when, Hpush.
    + destruct (strictEq _ _); [apply Hpush|].
      destruct (strictEq _ _); [apply keeps_whereJsonb | apply keeps_ret].
  - destruct (isFunction _); [apply keeps_callQuery | apply keeps_throw].
Qed.

Lemma keeps_addFilters E qb filters tvs :
  keeps P (addFiltersToQueryBuilder E qb filters tvs).
Proof.
  unfold addFiltersToQueryBuilder.
  apply keeps_bind; [apply keeps_objectKeys | intros ks].
  apply keeps_forEach. intros key. apply keeps_applyFilter.
Qed.

Lemma keeps_aggregationsCallback E c : keeps P (aggregationsCallback E c).
Proof.
  unfold aggregationsCallback.
  apply keeps_bind; [apply keeps_alloc | intros qb0].
  do 5 (apply keeps_bind; [apply Hpush | intros _]).
  apply keeps_bind.
  - destruct (cte_statsExpr c); [|apply keeps_ret].
    apply keeps_forEach. intros fn. apply Hpush.
  - intros _. apply keeps_bind; [|intros _; apply keeps_readOps].
    apply keeps_when.
    apply keeps_bind; [apply keeps_getTransformedValues | intros tvs].
    apply keeps_addFilters.
Qed.

(** Everything [await] does before the query is sent. *)
Lemma keeps_expand E ops :
  keeps P (mapM (fun op => match op with
                           | With name c =>
                               let* sub := aggregationsCallback E c in
                               ret (WithQuery name sub)
                           | _ => ret op
                           end) ops).
Proof.
  apply keeps_mapM. intros op. destruct op; try apply keeps_ret.
  apply keeps_bind; [apply keeps_aggregationsCallback | intros sub; apply keeps_ret].
Qed.
End Keeps.

(** *** A [dbField] once written stays *)

Section KeepsDbField.
Variables (lt : loc) (g : value).
Let P := fun s : state => dbFieldIs lt g (heap s).
Let fresh := fun v : value => v <> VRef lt.

Lemma dbFieldIs_app h more : dbFieldIs lt g h -> dbFieldIs lt g (h ++ more).
Proof.
  intros (o & Ho & Hg). exists o. split; [|exact Hg].
  now apply lookup_app_l_Some.
Qed.

Lemma dbField_push qb op : keeps P (push qb op).
Proof.
  intros s H. unfold push. destruct qb as [| | | | | |l| | |]; try exact H.
  destruct (heap s !! l) as [[]|] eqn:Hl; try exact H.
  unfold P. simpl. destruct H as (o & Ho & Hg). exists o. split; [|exact Hg].
  rewrite list_lookup_insert_ne; [exact Ho|]. intros ->. congruence.
Qed.

Lemma dbField_liftAlloc f : keeps P (liftAlloc f).
Proof.
  intros s H. unfold liftAlloc. destruct (f (heap s)) as [e|[v more]]; simpl.
  - exact H.
  - now apply dbFieldIs_app.
Qed.

Lemma dbField_new c s :
  P s -> fresh (VRef (length (heap s))) /\ P (finalState (alloc c s)).
Proof.
  intros H. split.
  - destruct H as (o & Ho & _). apply lookup_lt_Some in Ho.
    unfold fresh. intros [= Heq]. lia.
  - unfold P. simpl. now apply dbFieldIs_app.
Qed.

Lemma dbField_setProp v k x : k <> "dbField" \/ fresh v -> keeps P (setProp v k x).
Proof.
  intros Hk s H. unfold setProp. destruct v as [| | | | | |l| | |]; try exact H.
  destruct (heap s !! l) as [[ps| |]|] eqn:Hl; try exact H.
  unfold P. simpl. destruct H as (o & Ho & Hg).
  destruct (Nat.eq_dec l lt) as [->|Hne].
  - destruct Hk as [Hk|Hk]; [|now elim Hk].
    exists (assoc_set k x ps). split.
    + apply list_lookup_insert_eq. eapply lookup_lt_Some; eassumption.
    + rewrite assoc_get_set_other by congruence. congruence.
  - exists o. split; [|exact Hg]. now rewrite list_lookup_insert_ne.
Qed.

Lemma dbField_getTransformedValues E filters :
  keeps P (getTransformedValues E filters).
Proof.
  apply (keeps_getTransformedValues P fresh).
  - apply dbField_liftAlloc.
  - apply dbField_new.
  - intros v k x Hv. apply dbField_setProp. now right.
Qed.

Lemma dbField_addFilters E qb filters tvs :
  keeps P (addFiltersToQueryBuilder E qb filters tvs).
Proof.
  apply keeps_addFilters.
  - apply dbField_push.
  - intros v x. apply dbField_setProp. left. discriminate.
Qed.

Lemma dbField_await E qb : keeps P (await E qb).
Proof.
  unfold await.
  apply keeps_bind; [apply keeps_readOps | intros ops].
  apply keeps_bind.
  - apply (keeps_expand P fresh).
    + apply dbField_push.
    + apply dbField_liftAlloc.
    + apply dbField_new.
    + intros v x. apply dbField_setProp. left. discriminate.
    + intros v k x Hv. apply dbField_setProp. now right.
  - intros q s H. unfold send. destruct (database E q); exact H.
Qed.
End KeepsDbField.

(** *** Only [send] adds to the executed queries *)

Section KeepsExecuted.
Variable ex : list (list qop).
Let P := fun s : state => executed s = ex.

Lemma executed_push qb op : keeps P (push qb op).
Proof.
  intros s H. unfold push. destruct qb as [| | | | | |l| | |]; try exact H.
  destruct (heap s !! l) as [[]|]; exact H.
Qed.

Lemma executed_liftAlloc f : keeps P (liftAlloc f).
Proof.
  intros s H. unfold liftAlloc. destruct (f (heap s)) as [e|[v more]]; exact H.
Qed.

Lemma executed_setProp v k x : keeps P (setProp v k x).
Proof.
  intros s H. unfold setProp. destruct v as [| | | | | |l| | |]; try exact H.
  destruct (heap s !! l) as [[]|]; exact H.
Qed.

Lemma executed_alloc c : keeps P (alloc c).
Proof. intros s H. exact H. Qed.

Lemma executed_getTransformedValues E filters :
  keeps P (getTransformedValues E filters).
Proof.
  apply (keeps_getTransformedValues P (fun _ => True)).
  - apply executed_liftAlloc.
  - intros c s H. split; [exact I | exact H].
  - intros v k x _. apply executed_setProp.
Qed.

Lemma executed_addFilters E qb filters tvs :
  keeps P (addFiltersToQueryBuilder E qb filters tvs).
Proof.
  apply keeps_addFilters.
  - apply executed_push.
  - intros v x. apply executed_setProp.
Qed.

Lemma executed_expand E ops :
  keeps P (mapM (fun op => match op with
                           | With name c =>
                               let* sub := aggregationsCallback E c in
                               ret (WithQuery name sub)
                           | _ => ret op
                           end) ops).
Proof.
  apply (keeps_expand P (fun _ => True)).
  - apply executed_push.
  - apply executed_liftAlloc.
  - intros c s H. split; [exact I | exact H].
  - intros v x. apply executed_setProp.
  - intros v k x _. apply executed_setProp.
Qed.
End KeepsExecuted.

Lemma assoc_get_has_key k ps : assoc_get k ps <> VUndef -> has_key k ps = true.
Proof.
  intros H. destruct (has_key k ps) eqn:Hk; [reflexivity|].
  now apply has_key_false_get in Hk.
Qed.

Lemma pick_obj l ps paths s :
  heap s !! l = Some (CObj ps) ->
  pick (VRef l) paths s
  = Ok (VRef (length (heap s)))
      (extend [CObj (fold_left (fun acc path =>
                                  let k := ToString path in
                                  if has_key k ps
                                  then assoc_set k (assoc_get k ps) acc else acc)
                       paths [])] s).
Proof.
  intros H. unfold pick. rewrite (bind_Ok _ _ _ _ _ (gets_Ok _ _)).
  simpl. rewrite H. reflexivity.
Qed.

Lemma picked_time_spec ps a b l :
  assoc_get (ToString a) ps = VRef l ->
  assoc_get (ToString a)
    (fold_left (fun acc path =>
                  let k := ToString path in
                  if has_key k ps then assoc_set k (assoc_get k ps) acc else acc)
       [a; b] [])
  = VRef l.
Proof.
  intros H. simpl.
  rewrite (assoc_get_has_key (ToString a) ps) by (rewrite H; discriminate).
  simpl. destruct (has_key (ToString b) ps).
  - destruct (String.eqb (ToString b) (ToString a)) eqn:Hk; simpl.
    + rewrite String.eqb_sym, Hk. apply String.eqb_eq in Hk. now rewrite Hk.
    + rewrite String.eqb_refl. exact H.
  - simpl. now rewrite String.eqb_refl.
Qed.

Lemma prop_fresh s ps k :
  prop (heap (extend [CObj ps] s)) (VRef (length (heap s))) k = assoc_get k ps.
Proof.
  apply prop_obj. simpl. now apply list_lookup_middle.
Qed.

(** C9. On the continuous-aggregate path of [performHistoryQuery] (valid
    inputs, only the time and secondary filters active, a view for
    [groupBy]) the filter spec object the caller's filters hold under the
    time filter key is written through the picked copy: when the call
    ends, by a result or by a later error, its [dbField] is [groupBy]. *)
Theorem history_view_path_rewrites_dbField E p s lq lf lt ops fs tspec :
  queryBuilder p = VRef lq ->
  heap s !! lq = Some (CQuery ops) ->
  orderConfigSchema (heap s) (orderConfig p) = true ->
  filters p = VRef lf ->
  heap s !! lf = Some (CObj fs) ->
  filtersSchema (heap s) (VRef lf) = true ->
  assoc_get (ToString (default (VStr "createdDate") (timeFilter p))) fs = VRef lt ->
  heap s !! lt = Some (CObj tspec) ->
  forallb isUndefined
    (map (fun key => lodash_get (heap s) (VRef lf) (key +:+ ".value"))
       (without (map fst fs)
          (compact [default (VStr "createdDate") (timeFilter p); secondaryFilter p])))
  = true ->
  paginationConfigSchema (heap s) (paginationConfig p) = true ->
  includes ["hour"; "day"; "month"] (groupBy p) = true ->
  truthy (prop (heap s) (groupByViews p) (ToString (groupBy p))) = true ->
  dbFieldIs lt (groupBy p) (heap (finalState (performHistoryQuery E p s))).
Proof.
  intros Hqb Hops Hoc Hf Hfs Hvalid Htime Htspec Honly Hpag Hgroup Hview.
  assert (Hlq : lq < length (heap s)) by (eapply lookup_lt_Some; eassumption).
  assert (Hne1 : lq <> lf) by (intros ->; congruence).
  assert (Hne2 : lq <> lt) by (intros ->; congruence).
  unfold performHistoryQuery. rewrite Hf, Hqb.
  unfold checkOrderConfig, checkFilters, checkPaginationConfig.
  rewrite (bind_Ok _ _ _ _ _ (validate_ok _ _ _ _ Hoc)).
  rewrite (bind_Ok _ _ s true s).
  2:{ change (truthy (VRef lf)) with true. cbv iota.
      rewrite (bind_Ok _ _ _ _ _ (validate_ok _ _ _ _ Hvalid)).
      rewrite (bind_Ok _ _ _ _ _ (objectKeys_obj _ _ _ Hfs)).
      rewrite (bind_Ok _ _ _ _ _ (gets_Ok _ _)).
      rewrite (bind_Ok _ _ _ _ _ (getProp_ref _ _ _)).
      rewrite (prop_obj _ _ _ _ Hfs), Htime.
      rewrite (bind_Ok _ _ _ _ _ (getProp_ref _ _ _)).
      rewrite (bind_Ok _ _ _ _ _ (gets_Ok _ _)).
      rewrite (bind_Ok _ _ _ _ _ (gets_Ok _ _)).
      rewrite Honly. simpl negb. rewrite andb_false_r. reflexivity. }
  rewrite (bind_Ok _ _ _ _ _ (validate_ok _ _ _ _ Hpag)).
  rewrite Hgroup. change (negb true) with false. cbv iota.
  rewrite (bind_Ok _ _ s (prop (heap s) (groupByViews p) (ToString (groupBy p))) s).
  2:{ destruct (groupByViews p); try reflexivity. discriminate Hview. }
  rewrite Hview. simpl andb. cbv iota.
  rewrite (bind_Ok _ _ _ _ _ (push_query _ _ _ _ Hops)).
  rewrite (bind_Ok _ _ _ _ _ (push_query _ _ _ _ (writeCell_same _ _ _ Hlq))).
  rewrite writeCell_twice.
  rewrite (bind_Ok _ _ _ _ _ (when_push _ _ _ _ _ (writeCell_same _ _ _ Hlq))).
  rewrite writeCell_twice.
  change (truthy (VRef lf)) with true. unfold when at 1.
  match goal with |- context [writeCell lq ?c s] => set (s3 := writeCell lq c s) end.
  assert (Hfs3 : heap s3 !! lf = Some (CObj fs))
    by (unfold s3; now rewrite writeCell_other).
  assert (Hts3 : heap s3 !! lt = Some (CObj tspec))
    by (unfold s3; now rewrite writeCell_other).
  rewrite !bind_assoc.
  rewrite (bind_Ok _ _ _ _ _ (pick_obj _ _ _ _ Hfs3)).
  rewrite !bind_assoc.
  rewrite (bind_Ok _ _ _ _ _ (getProp_ref _ _ _)).
  rewrite prop_fresh.
  rewrite (picked_time_spec _ _ _ _ Htime).
  rewrite !bind_assoc.
  match goal with |- context [extend ?c s3] => set (s4 := extend c s3) end.
  assert (Hts4 : heap s4 !! lt = Some (CObj tspec))
    by (unfold s4; simpl; now apply lookup_app_l_Some).
  rewrite (bind_Ok _ _ _ _ _ (setProp_obj _ _ _ _ _ Hts4)).
  match goal with |- context [writeCell lt ?c s4] => set (s5 := writeCell lt c s4) end.
  assert (H5 : dbFieldIs lt (groupBy p) (heap s5)).
  { eexists. split.
    - unfold s5. apply writeCell_same. eapply lookup_lt_Some; eassumption.
    - apply assoc_get_set_same. }
  revert H5. generalize s5. clear.
  match goal with
  | |- forall s0, _ -> dbFieldIs ?l ?g (heap (finalState (?m s0))) =>
      change (keeps (fun st => dbFieldIs l g (heap st)) m)
  end.
  apply keeps_bind; [apply keeps_ret | intros a].
  apply keeps_bind.
  { apply keeps_bind; [apply dbField_getTransformedValues | intros tvs].
    apply dbField_addFilters. }
  intros _.
  apply keeps_bind; [apply keeps_getProp | intros orderBy].
  apply keeps_bind; [apply keeps_getProp | intros order].
  apply keeps_bind; [apply dbField_push | intros _].
  apply keeps_bind; [apply dbField_await | intros allResults].
  apply keeps_bind; [apply keeps_getProp | intros pg].
  apply keeps_bind; [apply keeps_getProp | intros per].
  apply keeps_ret.
Qed.

Lemma history_view_path_rewrites_dbField_witness :
  prop (heap (Sample.historyStore [("gte", VStr "2018-01-01")] VUndef)) (VRef 4) "dbField"
  = VStr "createdTimestamp"
  /\ dbFieldIs 4 (VStr "day")
       (heap (finalState
                (performHistoryQuery (Sample.env Sample.buckets)
                   (Sample.historyParams (VStr "2019-01-01") (VRef 3))
                   (Sample.historyStore [("gte", VStr "2018-01-01")] VUndef)))).
Proof.
  split; [reflexivity|].
  apply (history_view_path_rewrites_dbField (Sample.env Sample.buckets)
           (Sample.historyParams (VStr "2019-01-01") (VRef 3))
           (Sample.historyStore [("gte", VStr "2018-01-01")] VUndef)
           0 3 4 []
           [("createdDate", VRef 4); ("type", VRef 6)]
           [("dbField", VStr "createdTimestamp"); ("value", VRef 5);
            ("query", VStr "range")]);
    reflexivity.
Defined.

(** ** The pages returned *)

Lemma bind_inv {A B} (m : M A) (k : A -> M B) s b s' :
  bind m k s = Ok b s' -> exists a s1, m s = Ok a s1 /\ k a s1 = Ok b s'.
Proof.
  unfold bind. destruct (m s) as [a s1|e s1]; [|discriminate].
  intros H. now exists a, s1.
Qed.

Lemma getProp_inv v k s x s' :
  getProp v k s = Ok x s' -> s' = s /\ x = prop (heap s) v k.
Proof. unfold getProp. destruct v; intros H; inversion H; auto. Qed.

Lemma push_inv qb op s u s' :
  push qb op s = Ok u s' ->
  exists l ops, qb = VRef l /\ heap s !! l = Some (CQuery ops)
                /\ s' = writeCell l (CQuery (ops ++ [op])) s.
Proof.
  unfold push. destruct qb as [| | | | | |l| | |]; try discriminate.
  destruct (heap s !! l) as [[| |ops]|] eqn:Hl; try discriminate.
  intros H. inversion H. now exists l, ops.
Qed.

Lemma send_inv E q s rows s' :
  send E q s = Ok rows s' ->
  database E q = inr rows /\ executed s' = executed s ++ [q].
Proof.
  unfold send. destruct (database E q) as [e|rs]; [discriminate|].
  intros H. inversion H. auto.
Qed.

(** Expanding the callbacks of a builder keeps its last plain operation. *)
Lemma mapM_last {A B} (f : A -> M B) xs x y s q s' :
  (forall s0, f x s0 = Ok y s0) ->
  mapM f (xs ++ [x]) s = Ok q s' -> exists q0, q = q0 ++ [y].
Proof.
  intros Hx. revert s q s'. induction xs as [|a xs IH]; intros s q s' H; simpl in H.
  - rewrite (bind_Ok _ _ _ _ _ (Hx s)) in H. inversion H. now exists [].
  - apply bind_inv in H. destruct H as (b & s1 & _ & H).
    apply bind_inv in H. destruct H as (bs & s2 & Hrest & H).
    inversion H. destruct (IH _ _ _ Hrest) as (q0 & ->). now exists (b :: q0).
Qed.

(** *** Whole numbers, as numbers and as text *)

Lemma pow10_pos e : (0 < pow10 e)%Z.
Proof. unfold pow10. apply Z.pow_pos_nonneg; lia. Qed.





Lemma integerOf_whole n e : integerOf (NFin (n * pow10 e) e) = Some n.
Proof.
  pose proof (pow10_pos e). simpl.
  rewrite Z.mod_mul by lia. simpl. now rewrite Z.div_mul by lia.
Qed.








(** What [checkPaginationConfig] lets through is a whole number from 1
    on, whether it is given as a number or as text. *)
Lemma joi_integer_min1_whole v :
  joi_integer_min1 v = true ->
  exists n, integerOf (ToNumber v) = Some n /\ (1 <= n)%Z.
Proof.
  unfold joi_integer_min1, joi_number. intros H.
  assert (Hx : exists x, match integerOf x with
                         | Some n => (1 <=? n)%Z && (n <=? MAX_SAFE_INTEGER)%Z
                         | None => false
                         end = true /\ ToNumber v = x).
  { destruct v as [| | |b|n|str|l|f|m e|b]; try discriminate H.
    - now exists (NFin n 0).
    - destruct (regex_test numberRx str); [|discriminate H].
      now exists (StringToNumber str).
    - now exists (NFin m e). }
  destruct Hx as (x & Hx & ->).
  destruct (integerOf x) as [n|]; [|discriminate Hx].
  exists n. split; [reflexivity|].
  apply andb_true_iff in Hx. destruct Hx as [Hx _]. now apply Z.leb_le.
Qed.

Ltac quiet_tac :=
  unfold checkOrderConfig, checkFilters, checkPaginationConfig, pick;
  repeat first
    [ apply keeps_ret | apply keeps_throw | apply keeps_gets | apply keeps_getProp
    | apply keeps_destructure | apply keeps_objectKeys | apply keeps_readOps
    | apply keeps_validate | apply executed_push | apply executed_setProp
    | apply executed_alloc | apply executed_liftAlloc
    | apply executed_getTransformedValues | apply executed_addFilters
    | apply executed_expand | apply keeps_when
    | (apply keeps_bind; [|intros ?])
    | match goal with |- keeps _ (if ?b then _ else _) => destruct b end ].

(** A step that sends nothing leaves the executed queries as they were. *)
Ltac quiet H :=
  match type of H with
  | ?m ?s0 = Ok ?a ?s1 =>
      let Hq := fresh "Hq" in
      assert (Hq : executed s1 = executed s0)
        by (apply (keeps_Ok (fun st => executed st = executed s0) m s0 a s1);
            [quiet_tac | reflexivity | exact H]);
      clear H
  end.


(** ** The rows of an aggregation *)

Lemma nullIfAbsent_get ops c k :
  assoc_get k (fold_left (fun acc op => if isUndefined (assoc_get op acc)
                               then assoc_set op VNull acc else acc) ops c)
  = if inb k ops && isUndefined (assoc_get k c) then VNull else assoc_get k c.
Proof.
  revert c. induction ops as [|op ops IH]; intros c; simpl; [reflexivity|].
  rewrite IH.
  destruct (String.eqb k op) eqn:Hk; simpl.
  - apply String.eqb_eq in Hk. subst op.
    destruct (isUndefined (assoc_get k c)) eqn:Hu.
    + rewrite assoc_get_set_same. simpl. now rewrite andb_false_r.
    + rewrite Hu. now rewrite andb_false_r.
  - apply String.eqb_neq in Hk.
    destruct (isUndefined (assoc_get op c)); [|reflexivity].
    now rewrite assoc_get_set_other.
Qed.

Lemma nullIfAbsent_has_key ops c k :
  In k ops \/ has_key k c = true -> has_key k (fold_left (fun acc op => if isUndefined (assoc_get op acc)
                               then assoc_set op VNull acc else acc) ops c) = true.
Proof.
  revert c. induction ops as [|op ops IH]; intros c [H|H]; simpl.
  - destruct H.
  - exact H.
  - apply IH. destruct H as [->|H]; [right|now left].
    destruct (isUndefined (assoc_get k c)) eqn:Hu.
    + apply has_key_set_same.
    + apply assoc_get_has_key. intros Heq. now rewrite Heq in Hu.
  - apply IH. right.
    destruct (isUndefined (assoc_get op c)); [|exact H].
    now apply has_key_set_other.
Qed.


Lemma numValue_defined x : isUndefined (numValue x) = false.
Proof.
  destruct x as [|b|m e]; try reflexivity. simpl.
  destruct (normalize m e) as [m' [|e']]; reflexivity.
Qed.

Lemma roundDecimal_defined v precision :
  isNumber v = true -> isUndefined (roundDecimal v precision) = false.
Proof.
  intros H. unfold roundDecimal.
  destruct (numOf v) as [[|b|m e]|]; try (destruct v; now try discriminate H).
  destruct (integerOf (ToNumber precision)) as [d|];
    [|destruct v; now try discriminate H].
  destruct (0 <=? d)%Z; [apply numValue_defined|destruct v; now try discriminate H].
Qed.

Lemma formatAggregationRow_operator groupBy avgPrecision row op :
  In op operators ->
  let out := formatAggregationRow groupBy avgPrecision row in
  has_key op out = true
  /\ isUndefined (assoc_get op out) = false
  /\ assoc_get op out
     = if isUndefined (assoc_get op row) then VNull
       else if String.eqb op "avg" && isNumber (assoc_get op row)
       then (roundDecimal (assoc_get op row) avgPrecision)
       else assoc_get op row.
Proof.
  intros Hop out.
  assert (Hinb : inb op operators = true).
  { unfold operators in *. simpl in Hop.
    repeat destruct Hop as [<-|Hop]; try reflexivity. destruct Hop. }
  unfold out, formatAggregationRow.
  set (c3 := assoc_del "groupByField" _).
  set (c4 := if truthy (assoc_get "count" c3) then _ else c3).
  assert (Hc4 : forall k, In k operators -> assoc_get k c4 = assoc_get k row).
  { intros k Hk. unfold c4, c3, operators in *. simpl in Hk.
    destruct (truthy _);
      repeat destruct Hk as [<-|Hk]; try destruct Hk;
      repeat first [rewrite assoc_get_set_other by discriminate
                   | rewrite assoc_get_del_other by discriminate];
      reflexivity. }
  set (c5 := if isNumber (assoc_get "avg" c4) then _ else c4).
  assert (Hc5 : assoc_get op c5
                = if String.eqb op "avg" && isNumber (assoc_get op row)
                  then (roundDecimal (assoc_get op row) avgPrecision)
                  else assoc_get op row).
  { unfold c5. rewrite (Hc4 "avg") by (unfold operators; simpl; tauto).
    destruct (String.eqb op "avg") eqn:Havg; simpl.
    - apply String.eqb_eq in Havg. subst op.
      destruct (isNumber (assoc_get "avg" row)).
      + apply assoc_get_set_same.
      + now apply Hc4.
    - apply String.eqb_neq in Havg.
      destruct (isNumber (assoc_get "avg" row)).
      + rewrite assoc_get_set_other by assumption. now apply Hc4.
      + now apply Hc4. }
  split; [apply nullIfAbsent_has_key; now left|].
  rewrite nullIfAbsent_get, Hinb, Hc5. simpl.
  destruct (isUndefined (assoc_get op row)) eqn:Hu.
  - destruct (assoc_get op row); try discriminate.
    rewrite andb_false_r. simpl. auto.
  - destruct (String.eqb op "avg" && isNumber (assoc_get op row)) eqn:Hc.
    + apply andb_prop in Hc. destruct Hc as [_ Hc].
      pose proof (roundDecimal_defined _ avgPrecision Hc) as Hd.
      rewrite Hd. cbv iota. split; [exact Hd | reflexivity].
    + rewrite Hu. auto.
Qed.

Lemma tryCatch_inv {A} (m : M A) handler s a s' :
  (forall e s0 b s1, handler e s0 <> Ok b s1) ->
  tryCatch m handler s = Ok a s' -> m s = Ok a s'.
Proof.
  intros Hh. unfold tryCatch. destruct (m s) as [x s1|e s1]; [auto|].
  intros H. now apply Hh in H.
Qed.

Lemma promiseAll2_inv {A B} (m1 : M A) (m2 : M B) s r s' :
  promiseAll2 m1 m2 s = Ok r s' ->
  exists s1, m1 s = Ok (fst r) s1 /\ m2 s1 = Ok (snd r) s'.
Proof.
  unfold promiseAll2. destruct (m1 s) as [a s1|e s1]; [|discriminate].
  destruct (m2 s1) as [b s2|e s2] eqn:H2; [|discriminate].
  intros H. inversion H. subst. now exists s1.
Qed.

Lemma await_inv E qb s rows s' :
  await E qb s = Ok rows s' ->
  exists q sb, database E q = inr rows /\ executed s' = executed sb ++ [q]
               /\ executed sb = executed s.
Proof.
  unfold await. intros H.
  apply bind_inv in H. destruct H as (ops & sa & Hread & H).
  apply bind_inv in H. destruct H as (q & sb & Hmap & Hsend).
  apply send_inv in Hsend. destruct Hsend as [Hdb Hex].
  exists q, sb. repeat split; try assumption.
  assert (Hsa : executed sa = executed s).
  { unfold readOps in Hread. destruct (cellAt _ _) as [[]|]; now inversion Hread. }
  rewrite <- Hsa.
  eapply (keeps_Ok (fun st => executed st = executed sa));
    [apply executed_expand | reflexivity | exact Hmap].
Qed.


(** * Further properties of the engine *)

(** ** getMinRangeValue *)

Lemma ltb_irrefl s : String.ltb s s = false.
Proof.
  unfold String.ltb. pose proof (String.compare_antisym s s) as H.
  destruct (String.compare s s); try reflexivity; discriminate.
Qed.

Lemma ltb_asym s t : String.ltb s t = true -> String.ltb t s = false.
Proof.
  unfold String.ltb. rewrite (String.compare_antisym s t).
  destruct (String.compare t s); simpl; congruence.
Qed.

Lemma num_lt_irrefl x : num_lt x x = false.
Proof.
  destruct x as [|[]|m e]; simpl; try reflexivity. apply Z.ltb_irrefl.
Qed.

Lemma num_lt_asym x y : num_lt x y = true -> num_lt y x = false.
Proof.
  destruct x as [|[]|m1 e1], y as [|[]|m2 e2]; simpl;
    try discriminate; try reflexivity.
  intros H. apply Z.ltb_lt in H. apply Z.ltb_ge. lia.
Qed.

Lemma js_lt_irrefl h a : js_lt h a a = false.
Proof.
  unfold js_lt. destruct (ToPrimitive h a); try apply num_lt_irrefl.
  apply ltb_irrefl.
Qed.

Lemma js_lt_asym h a b : js_lt h a b = true -> js_lt h b a = false.
Proof.
  unfold js_lt. destruct (ToPrimitive h a), (ToPrimitive h b);
    first [apply ltb_asym | apply num_lt_asym].
Qed.

(** X1. On a range object [getMinRangeValue] returns one of its [gt] and
    [gte], and no defined lower bound of the object is strictly below the
    value returned, as [<] compares them: text with text by code units,
    anything else by the numbers they convert to. *)
Theorem getMinRangeValue_lowest h l rng :
  h !! l = Some (CObj rng) ->
  let m := getMinRangeValue h (VRef l) in
  (m = assoc_get "gt" rng \/ m = assoc_get "gte" rng)
  /\ (isUndefined (assoc_get "gt" rng) = false -> js_lt h (assoc_get "gt" rng) m = false)
  /\ (isUndefined (assoc_get "gte" rng) = false -> js_lt h (assoc_get "gte" rng) m = false).
Proof.
  intros H m. unfold m. rewrite (getMinRangeValue_obj _ _ _ H). unfold lowerBound.
  destruct (isUndefined (assoc_get "gt" rng)) eqn:Hgt,
           (isUndefined (assoc_get "gte" rng)) eqn:Hgte; simpl.
  - split; [|split; discriminate].
    left. destruct (assoc_get "gt" rng); try discriminate. reflexivity.
  - split; [now right|]. split; [discriminate|]. intros _. apply js_lt_irrefl.
  - split; [now left|]. split; [|discriminate]. intros _. apply js_lt_irrefl.
  - destruct (js_lt h (assoc_get "gt" rng) (assoc_get "gte" rng)) eqn:Hlt.
    + split; [now left|]. split; intros _; [apply js_lt_irrefl|now apply js_lt_asym].
    + split; [now right|]. split; intros _; [exact Hlt|apply js_lt_irrefl].
Qed.

Lemma getMinRangeValue_lowest_witness :
  let h := [CObj [("gt", VStr "5.5"); ("gte", VNum 10)]; CArr [VNum 7]] in
  getMinRangeValue h (VRef 0) = VStr "5.5"
  /\ js_lt h (VNum 10) (VStr "5.5") = false
  /\ getMinRangeValue [CObj [("gt", VRef 1); ("gte", VNum 8)]; CArr [VNum 7]] (VRef 0)
     = VRef 1.
Proof.
  intros h.
  destruct (getMinRangeValue_lowest h 0 [("gt", VStr "5.5"); ("gte", VNum 10)] eq_refl)
    as (_ & _ & Hgte).
  split; [reflexivity|]. split; [exact (Hgte eq_refl) | reflexivity].
Defined.

(** X2. [getMinRangeValue] returns undefined exactly when its argument is
    undefined or is a range object with neither [gt] nor [gte]; any other
    argument, scalar or not, has a defined result. *)
Theorem getMinRangeValue_undefined_iff h v :
  getMinRangeValue h v = VUndef
  <-> v = VUndef
      \/ (isPlainObject h v = true
          /\ prop h v "gt" = VUndef /\ prop h v "gte" = VUndef).
Proof.
  unfold getMinRangeValue.
  destruct (isUndefined v) eqn:Hv.
  - destruct v; try discriminate. tauto.
  - destruct (isPlainObject h v) eqn:Hp; simpl.
    + destruct (isUndefined (prop h v "gt")) eqn:Hgt,
               (isUndefined (prop h v "gte")) eqn:Hgte; simpl.
      * destruct (prop h v "gt"), (prop h v "gte"); try discriminate.
        split; auto.
      * split.
        -- intros H. rewrite H in Hgte. discriminate.
        -- intros [->|(_ & _ & H)]; [discriminate|]. rewrite H in Hgte. discriminate.
      * split.
        -- intros H. rewrite H in Hgt. discriminate.
        -- intros [->|(_ & H & _)]; [discriminate|]. rewrite H in Hgt. discriminate.
      * split.
        -- destruct (js_lt _ _); intros H;
             [rewrite H in Hgt | rewrite H in Hgte]; discriminate.
        -- intros [->|(_ & H & _)]; [discriminate|]. rewrite H in Hgt. discriminate.
    + split.
      * intros ->. discriminate.
      * intros [->|(H & _)]; discriminate.
Qed.

(** ** The other strategies of the predicate compiler *)

Lemma getProp_ok v k s :
  isNullish v = false -> getProp v k s = Ok (prop (heap s) v k) s.
Proof. destruct v; try discriminate; reflexivity. Qed.

Lemma destructure_ok v s : isNullish v = false -> destructure v s = Ok tt s.
Proof. destruct v; try discriminate; reflexivity. Qed.

Lemma cellAt_not_nullish h v c : cellAt h v = Some c -> isNullish v = false.
Proof. destruct v; try discriminate; reflexivity. Qed.

Lemma prop_cell h v ps k :
  cellAt h v = Some (CObj ps) -> prop h v k = assoc_get k ps.
Proof. intros H. unfold prop. now rewrite H. Qed.

Lemma addFilters_reaches E qb filters tvs s key rest s1 :
  reaches E qb filters tvs s key rest s1 ->
  addFiltersToQueryBuilder E qb filters tvs s
  = (applyFilter E qb filters tvs key ;;
     forEach (applyFilter E qb filters tvs) rest) s1.
Proof.
  intros (lf & fs & done & -> & Hfs & Hks & Hrun).
  now apply (addFilters_at E qb lf tvs s fs done key rest s1).
Qed.

(** The reads at the head of the callback. *)
Ltac filter_reads Hat :=
  let Hf := fresh "Hf" in
  let Hspec := fresh "Hspec" in
  let Htvs := fresh "Htvs" in
  let Htv := fresh "Htv" in
  destruct Hat as (Hf & Hspec & Htvs & Htv);
  unfold applyFilter;
  rewrite (bind_Ok _ _ _ _ _ (getProp_ok _ _ _ Hf));
  rewrite (bind_Ok _ _ _ _ _ (destructure_ok _ _ (cellAt_not_nullish _ _ _ Hspec)));
  rewrite !(bind_Ok _ _ _ _ _ (getProp_ok _ _ _ (cellAt_not_nullish _ _ _ Hspec)));
  rewrite (bind_Ok _ _ _ _ _ (getProp_ok _ _ _ Htvs));
  rewrite Htv;
  rewrite ?(prop_cell _ _ _ _ Hspec).

(** X3. A filter with a defined normalized value, no custom query
    function and no (or an empty) [dbField] stops the loop with the error
    [dbField is needed for filter with key <key>]; nothing is emitted for
    it and the filters after it are not applied. *)
Theorem filter_without_dbField_rejected E qb filters tvs s key rest s1 spec tv :
  reaches E qb filters tvs s key rest s1 ->
  filterAt (heap s1) filters tvs key spec tv ->
  isUndefined tv = false ->
  isFunction (assoc_get "query" spec) = false ->
  truthy (assoc_get "dbField" spec) = false ->
  addFiltersToQueryBuilder E qb filters tvs s
  = Err (PlainError ("dbField is needed for filter with key " +:+ key)) s1.
Proof.
  intros Hreach Hat Hdef Hq Hdb.
  rewrite (addFilters_reaches _ _ _ _ _ _ _ _ Hreach). apply bind_Err.
  filter_reads Hat. now rewrite Hdef, Hq, Hdb.
Qed.

Lemma filter_without_dbField_rejected_witness :
  addFiltersToQueryBuilder (Sample.env []) (VRef 0) (VRef 1) (VRef 3)
    (Sample2.oneFilter "type" [("value", VStr "x")] (VStr "x") [])
  = Err (PlainError "dbField is needed for filter with key type")
      (Sample2.oneFilter "type" [("value", VStr "x")] (VStr "x") []).
Proof.
  apply (filter_without_dbField_rejected (Sample.env []) (VRef 0) (VRef 1) (VRef 3)
           _ "type" [] _ [("value", VStr "x")] (VStr "x")).
  - exists 1, [("type", VRef 2)], []. repeat split.
  - repeat split.
  - reflexivity.
  - reflexivity.
  - reflexivity.
Defined.

(** X4. The equality strategy (no [query]) appends the single predicate
    [where(dbField, value)] and the [inList] strategy the single predicate
    [whereIn(dbField, value)], both with the normalized value, after which
    the loop goes on with the remaining filters. *)
Theorem equality_and_inList_predicates
    E lq filters tvs s key rest s1 spec tv ops :
  reaches E (VRef lq) filters tvs s key rest s1 ->
  filterAt (heap s1) filters tvs key spec tv ->
  heap s1 !! lq = Some (CQuery ops) ->
  isUndefined tv = false ->
  truthy (assoc_get "dbField" spec) = true ->
  assoc_get "query" spec = VUndef \/ assoc_get "query" spec = VStr "inList" ->
  addFiltersToQueryBuilder E (VRef lq) filters tvs s
  = forEach (applyFilter E (VRef lq) filters tvs) rest
      (writeCell lq
         (CQuery (ops ++ [if isUndefined (assoc_get "query" spec)
                          then Where (assoc_get "dbField" spec) tv
                          else WhereIn (assoc_get "dbField" spec) tv])) s1).
Proof.
  intros Hreach Hat Hops Hdef Hdb Hq.
  rewrite (addFilters_reaches _ _ _ _ _ _ _ _ Hreach).
  erewrite bind_Ok; [reflexivity|].
  filter_reads Hat. rewrite Hdef, Hdb, andb_false_r.
  destruct Hq as [-> | ->]; simpl; now apply push_query.
Qed.

Lemma equality_and_inList_predicates_witness :
  addFiltersToQueryBuilder (Sample.env []) (VRef 0) (VRef 1) (VRef 4)
    Sample.optionalStore
  = Ok tt (writeCell 0 (CQuery [Where (VStr "status") (VStr "on")])
             Sample.optionalStore).
Proof.
  rewrite (equality_and_inList_predicates (Sample.env []) 0 (VRef 1) (VRef 4)
             Sample.optionalStore "status" [] Sample.optionalStore
             [("dbField", VStr "status"); ("value", VStr "on")] (VStr "on") []).
  - reflexivity.
  - exists 1, [("type", VRef 2); ("status", VRef 3)], ["type"]. repeat split.
  - repeat split.
  - reflexivity.
  - reflexivity.
  - reflexivity.
  - now left.
Defined.

(** X5. The range strategy on a normalized value that is not a plain
    object (a number, a string, a boolean, an array) emits no predicate
    at all: either the value is truthy and below [minValue] as [<]
    compares them (an array by the text of its elements, text by the
    number it writes), and the loop stops with the 400 error, or the
    filter constrains nothing and the loop goes on from the same
    store. *)
Theorem range_on_scalar_emits_nothing E qb filters tvs s key rest s1 spec tv :
  reaches E qb filters tvs s key rest s1 ->
  filterAt (heap s1) filters tvs key spec tv ->
  isNullish tv = false ->
  isPlainObject (heap s1) tv = false ->
  assoc_get "query" spec = VStr "range" ->
  truthy (assoc_get "dbField" spec) = true ->
  addFiltersToQueryBuilder E qb filters tvs s
  = if truthy tv && js_lt (heap s1) tv (assoc_get "minValue" spec)
    then Err (minValueError key (assoc_get "minValue" spec)) s1
    else forEach (applyFilter E qb filters tvs) rest s1.
Proof.
  intros Hreach Hat Hnn Hplain Hq Hdb.
  rewrite (addFilters_reaches _ _ _ _ _ _ _ _ Hreach).
  assert (Hundef : isUndefined tv = false) by (destruct tv; try discriminate; reflexivity).
  assert (Hmin : getMinRangeValue (heap s1) tv = tv)
    by (unfold getMinRangeValue; now rewrite Hundef, Hplain).
  assert (Hprop : forall k, prop (heap s1) tv k = VUndef).
  { intros k. unfold prop. unfold isPlainObject in Hplain.
    destruct (cellAt (heap s1) tv) as [[]|]; try reflexivity. discriminate. }
  assert (Hstep : applyFilter E qb filters tvs key s1
                  = if truthy tv && js_lt (heap s1) tv (assoc_get "minValue" spec)
                    then Err (minValueError key (assoc_get "minValue" spec)) s1
                    else Ok tt s1).
  { filter_reads Hat. rewrite Hundef, Hdb, andb_false_r, Hq. simpl.
    rewrite (bind_Ok _ _ s1 tt s1)
      by (apply validate_ok; unfold rangeFilterSchema; now rewrite Hundef).
    rewrite (bind_Ok _ _ _ _ _ (gets_Ok _ _)), Hmin.
    destruct (truthy tv); simpl.
    - rewrite !bind_assoc. rewrite (bind_Ok _ _ _ _ _ (gets_Ok _ _)).
      destruct (js_lt (heap s1) tv (assoc_get "minValue" spec)); [reflexivity|].
      rewrite (bind_Ok _ _ s1 tt s1) by reflexivity.
      repeat (rewrite (bind_Ok _ _ _ _ _ (getProp_ok _ _ _ Hnn)), Hprop; simpl;
              rewrite ?(bind_Ok _ _ s1 tt s1) by reflexivity).
      reflexivity.
    - rewrite !bind_assoc.
      rewrite (bind_Ok _ _ _ _ _ (gets_Ok _ _)), Hplain. simpl.
      rewrite !bind_assoc.
      rewrite (bind_Ok _ _ _ _ _ (gets_Ok _ _)). simpl.
      rewrite (bind_Ok _ _ s1 tt s1) by reflexivity.
      repeat (rewrite (bind_Ok _ _ _ _ _ (getProp_ok _ _ _ Hnn)), Hprop; simpl;
              rewrite ?(bind_Ok _ _ s1 tt s1) by reflexivity).
      reflexivity. }
  unfold bind. rewrite Hstep.
  destruct (truthy tv && js_lt (heap s1) tv (assoc_get "minValue" spec)); reflexivity.
Qed.

Lemma range_on_scalar_emits_nothing_witness :
  let spec := [("dbField", VStr "price"); ("value", VRef 4); ("minValue", VNum 10);
               ("query", VStr "range")] in
  addFiltersToQueryBuilder (Sample.env []) (VRef 0) (VRef 1) (VRef 3)
    (Sample2.oneFilter "price" spec (VRef 4) [CArr [VNum 5]])
  = Err (minValueError "price" (VNum 10))
      (Sample2.oneFilter "price" spec (VRef 4) [CArr [VNum 5]])
  /\ js_lt [] (VStr "5.5") (VNum 10) = true.
Proof.
  intros spec. split; [|reflexivity].
  set (s := Sample2.oneFilter _ _ _ _).
  rewrite (range_on_scalar_emits_nothing (Sample.env []) (VRef 0) (VRef 1) (VRef 3)
             s "price" [] s spec (VRef 4)).
  - reflexivity.
  - exists 1, [("price", VRef 2)], []. repeat split.
  - repeat split.
  - reflexivity.
  - reflexivity.
  - reflexivity.
  - reflexivity.
Defined.

(** X6. The range strategy on a normalized value that is [null] passes
    the range check and the minimum check and then fails with the runtime
    TypeError of reading [lt] of null; nothing is emitted. *)
Theorem range_on_null_is_a_type_error E qb filters tvs s key rest s1 spec :
  reaches E qb filters tvs s key rest s1 ->
  filterAt (heap s1) filters tvs key spec VNull ->
  assoc_get "query" spec = VStr "range" ->
  truthy (assoc_get "dbField" spec) = true ->
  addFiltersToQueryBuilder E qb filters tvs s
  = Err (TypeError "Cannot read property 'lt' of null") s1.
Proof.
  intros Hreach Hat Hq Hdb.
  rewrite (addFilters_reaches _ _ _ _ _ _ _ _ Hreach). apply bind_Err.
  filter_reads Hat. rewrite Hdb, Hq. simpl.
  reflexivity.
Qed.

Lemma range_on_null_is_a_type_error_witness :
  addFiltersToQueryBuilder (Sample.env []) (VRef 0) (VRef 1) (VRef 3)
    (Sample2.oneFilter "price"
       [("dbField", VStr "price"); ("value", VNull); ("query", VStr "range")]
       VNull [])
  = Err (TypeError "Cannot read property 'lt' of null")
      (Sample2.oneFilter "price"
         [("dbField", VStr "price"); ("value", VNull); ("query", VStr "range")]
         VNull []).
Proof.
  apply (range_on_null_is_a_type_error (Sample.env []) (VRef 0) (VRef 1) (VRef 3)
           _ "price" [] _
           [("dbField", VStr "price"); ("value", VNull); ("query", VStr "range")]).
  - exists 1, [("price", VRef 2)], []. repeat split.
  - repeat split.
  - reflexivity.
  - reflexivity.
Defined.

(** X7. The [jsonSupersetOf] strategy ignores the normalized value beyond
    requiring it to be defined: it tests the raw [value] of the spec.
    When that is a plain object the containment predicate is appended with
    the column and the raw value as bindings; otherwise (for instance when
    only a [defaultValue] was given) the loop stops with the error
    [`data` object expected]. *)
Theorem jsonSupersetOf_uses_raw_value
    E lq filters tvs s key rest s1 spec tv ops :
  reaches E (VRef lq) filters tvs s key rest s1 ->
  filterAt (heap s1) filters tvs key spec tv ->
  heap s1 !! lq = Some (CQuery ops) ->
  isUndefined tv = false ->
  assoc_get "query" spec = VStr "jsonSupersetOf" ->
  isString (assoc_get "dbField" spec) = true ->
  truthy (assoc_get "dbField" spec) = true ->
  addFiltersToQueryBuilder E (VRef lq) filters tvs s
  = if isPlainObject (heap s1) (assoc_get "value" spec)
    then forEach (applyFilter E (VRef lq) filters tvs) rest
           (writeCell lq
              (CQuery (ops ++ [WhereRaw "??::jsonb @> ?::jsonb"
                                 [assoc_get "dbField" spec; assoc_get "value" spec]]))
              s1)
    else Err (PlainError "`data` object expected") s1.
Proof.
  intros Hreach Hat Hops Hdef Hq Hstr Hdb.
  rewrite (addFilters_reaches _ _ _ _ _ _ _ _ Hreach).
  assert (Hstep : applyFilter E (VRef lq) filters tvs key s1
                  = if isPlainObject (heap s1) (assoc_get "value" spec)
                    then Ok tt (writeCell lq
                                  (CQuery (ops ++ [WhereRaw "??::jsonb @> ?::jsonb"
                                                     [assoc_get "dbField" spec;
                                                      assoc_get "value" spec]])) s1)
                    else Err (PlainError "`data` object expected") s1).
  { filter_reads Hat. rewrite Hdef, Hdb, andb_false_r, Hq. simpl.
    unfold whereJsonbColumnSupersetOf. rewrite Hstr. simpl.
    rewrite (bind_Ok _ _ _ _ _ (gets_Ok _ _)).
    destruct (isPlainObject (heap s1) (assoc_get "value" spec)); simpl.
    - now apply push_query.
    - reflexivity. }
  unfold bind. rewrite Hstep.
  destruct (isPlainObject (heap s1) (assoc_get "value" spec)); reflexivity.
Qed.

Lemma jsonSupersetOf_uses_raw_value_witness :
  addFiltersToQueryBuilder (Sample.env []) (VRef 0) (VRef 1) (VRef 3)
    (Sample2.oneFilter "data"
       [("dbField", VStr "data"); ("defaultValue", VRef 4);
        ("query", VStr "jsonSupersetOf")]
       (VRef 4) [CObj [("color", VStr "red")]])
  = Err (PlainError "`data` object expected")
      (Sample2.oneFilter "data"
         [("dbField", VStr "data"); ("defaultValue", VRef 4);
          ("query", VStr "jsonSupersetOf")]
         (VRef 4) [CObj [("color", VStr "red")]]).
Proof.
  set (s := Sample2.oneFilter _ _ _ _).
  rewrite (jsonSupersetOf_uses_raw_value (Sample.env []) 0 (VRef 1) (VRef 3)
             s "data" [] s
             [("dbField", VStr "data"); ("defaultValue", VRef 4);
              ("query", VStr "jsonSupersetOf")] (VRef 4) []).
  - reflexivity.
  - exists 1, [("data", VRef 2)], []. repeat split.
  - repeat split.
  - reflexivity.
  - reflexivity.
  - reflexivity.
  - reflexivity.
  - reflexivity.
Defined.

(** ** getTransformedValues *)

(** X8. [getTransformedValues] never writes into an object that existed
    before the call: whether it returns or throws, the heap it leaves is
    the heap it found followed by the cells allocated meanwhile.  The
    filter specs and their values are not mutated. *)
Theorem getTransformedValues_only_allocates E filters s :
  exists more, heap (finalState (getTransformedValues E filters s)) = heap s ++ more.
Proof.
  apply (keeps_getTransformedValues
           (fun st => exists more, heap st = heap s ++ more)
           (fun v => exists lv, v = VRef lv /\ length (heap s) <= lv)).
  - intros f st (more & Hst). unfold liftAlloc.
    destruct (f (heap st)) as [e|[v new]]; simpl.
    + now exists more.
    + exists (more ++ new). now rewrite Hst, app_assoc.
  - intros c st (more & Hst). split.
    + exists (length (heap st)). split; [reflexivity|]. rewrite Hst, length_app. lia.
    + simpl. exists (more ++ [c]). now rewrite Hst, app_assoc.
  - intros v k x (lv & -> & Hlv) st (more & Hst). unfold setProp.
    destruct (heap st !! lv) as [[ps| |]|]; simpl; try now exists more.
    rewrite Hst, insert_app_r_alt by exact Hlv. eauto.
  - exists []. now rewrite app_nil_r.
Qed.

Lemma assoc_set_fresh k x ps :
  ~ In k (map fst ps) -> assoc_set k x ps = ps ++ [(k, x)].
Proof.
  induction ps as [|[k' v] ps IH]; simpl; intros Hk; [reflexivity|].
  destruct (String.eqb k k') eqn:Heq.
  - apply String.eqb_eq in Heq. subst k'. elim Hk. now left.
  - rewrite IH by tauto. reflexivity.
Qed.

Lemma assoc_get_In k v ps :
  NoDup (map fst ps) -> In (k, v) ps -> assoc_get k ps = v.
Proof.
  induction ps as [|[k' v'] ps IH]; simpl; intros Hnd Hin; [destruct Hin|].
  inversion Hnd as [|? ? Hnotin Hnd']. subst.
  destruct Hin as [Heq|Hin].
  - inversion Heq. subst. now rewrite String.eqb_refl.
  - destruct (String.eqb k k') eqn:Hk; [|now apply IH].
    apply String.eqb_eq in Hk. subst k'. elim Hnotin.
    apply list_elem_of_In. change k with (fst (k, v)). now apply in_map.
Qed.

Section NoTransform.
Variables (E : Env) (lf : loc) (fs : object) (h : list cell) (ex : list (list qop)).
Hypothesis Hfs : h !! lf = Some (CObj fs).
Hypothesis Hnodup : NoDup (map fst fs).
Hypothesis Hspecs :
  forall k v, In (k, v) fs ->
    isPlainObject h v = true /\ prop h v "transformValue" = VUndef.

Let st (acc : object) : state := {| heap := h ++ [CObj acc]; executed := ex |}.

Lemma prop_old v k acc :
  isPlainObject h v = true -> prop (h ++ [CObj acc]) v k = prop h v k.
Proof.
  unfold isPlainObject, prop. destruct v as [| | | | | |l| | |]; simpl; try discriminate.
  destruct (h !! l) as [c|] eqn:Hl; [|discriminate].
  intros _. now rewrite (lookup_app_l_Some _ _ _ _ Hl).
Qed.

Lemma transformOne_plain k v acc :
  In (k, v) fs -> ~ In k (map fst acc) ->
  transformOne E (VRef lf) (VRef (length h)) k (st acc)
  = Ok tt (st (acc ++ [(k, normalizedAt h v)])).
Proof.
  intros Hin Hnew. destruct (Hspecs k v Hin) as [Hplain Htr].
  assert (Hv : isNullish v = false)
    by (unfold isPlainObject in Hplain; destruct v; try discriminate; reflexivity).
  unfold transformOne.
  rewrite (bind_Ok _ _ _ _ _ (getProp_ref _ _ _)).
  rewrite (prop_obj _ lf fs) by (simpl; now apply lookup_app_l_Some).
  rewrite (assoc_get_In _ _ _ Hnodup Hin).
  rewrite (bind_Ok _ _ _ _ _ (destructure_ok _ _ Hv)).
  rewrite !(bind_Ok _ _ _ _ _ (getProp_ok _ _ _ Hv)).
  simpl heap. rewrite !prop_old by assumption. rewrite Htr. simpl.
  rewrite (bind_Ok _ _ (st acc) (prop h v "value") (st acc)) by reflexivity.
  rewrite (setProp_obj (length h) acc) by (simpl; now apply list_lookup_middle).
  unfold writeCell, st. simpl. f_equal. f_equal.
  rewrite (assoc_set_fresh _ _ _ Hnew).
  rewrite insert_app_r_alt by lia. rewrite Nat.sub_diag. reflexivity.
Qed.

Lemma transform_loop todo acc :
  incl todo fs -> NoDup (map fst (acc ++ todo)) ->
  forEach (transformOne E (VRef lf) (VRef (length h))) (map fst todo) (st acc)
  = Ok tt (st (acc ++ map (fun kv => (fst kv, normalizedAt h (snd kv))) todo)).
Proof.
  revert acc. induction todo as [|[k v] todo IH]; intros acc Hincl Hnd; simpl.
  - now rewrite app_nil_r.
  - assert (Hnew : ~ In k (map fst acc)).
    { rewrite map_app in Hnd. apply NoDup_app in Hnd.
      destruct Hnd as (_ & Hdisj & _). intros Hk.
      apply Stdlib.Lists.List.in_map_iff in Hk. destruct Hk as ([k' v'] & Hk & Hin).
      simpl in Hk. subst k'.
      apply (Hdisj k); [apply list_elem_of_In; change k with (fst (k, v'));
                        now apply in_map | simpl; left]. }
    rewrite (bind_Ok _ _ _ _ _ (transformOne_plain k v acc (Hincl _ (or_introl eq_refl)) Hnew)).
    rewrite IH.
    + now rewrite <- app_assoc.
    + intros x Hx. apply Hincl. now right.
    + replace (map fst ((acc ++ [(k, normalizedAt h v)]) ++ todo))
        with (map fst (acc ++ (k, v) :: todo)); [exact Hnd|].
      rewrite <- app_assoc, !map_app. reflexivity.
Qed.
End NoTransform.

(** X9. For filters without [transformValue], [getTransformedValues]
    returns a fresh object that holds, for the filter keys in their
    order, the raw [value] of each spec, or its [defaultValue] when the raw
    value is undefined (and only then: null, 0 and the empty string are
    kept); object values are shared with the spec, not copied. *)
Theorem getTransformedValues_without_transform E lf fs s :
  heap s !! lf = Some (CObj fs) ->
  NoDup (map fst fs) ->
  (forall k v, In (k, v) fs ->
     isPlainObject (heap s) v = true /\ prop (heap s) v "transformValue" = VUndef) ->
  getTransformedValues E (VRef lf) s
  = Ok (VRef (length (heap s)))
      (extend [CObj (map (fun kv => (fst kv, normalizedAt (heap s) (snd kv))) fs)] s).
Proof.
  intros Hfs Hnd Hspecs. destruct s as [h ex]. simpl in *.
  unfold getTransformedValues.
  rewrite (bind_Ok _ _ _ (VRef (length h)) {| heap := h ++ [CObj []]; executed := ex |})
    by reflexivity.
  rewrite (bind_Ok _ _ _ _ _
             (objectKeys_obj lf fs {| heap := h ++ [CObj []]; executed := ex |}
                (lookup_app_l_Some _ _ _ _ Hfs))).
  rewrite (bind_Ok _ _ _ _ _
             (transform_loop E lf fs h ex Hfs Hnd Hspecs fs [] (incl_refl _) Hnd)).
  reflexivity.
Qed.

Lemma getTransformedValues_without_transform_witness :
  getTransformedValues (Sample.env []) (VRef 0)
    {| heap := [CObj [("type", VRef 1); ("active", VRef 2); ("data", VRef 3)];
                CObj [("dbField", VStr "type"); ("defaultValue", VStr "all")];
                CObj [("dbField", VStr "active"); ("value", VNull);
                      ("defaultValue", VBool true)];
                CObj [("dbField", VStr "data"); ("value", VRef 4)];
                CObj [("color", VStr "red")]];
       executed := [] |}
  = Ok (VRef 5)
      {| heap := [CObj [("type", VRef 1); ("active", VRef 2); ("data", VRef 3)];
                  CObj [("dbField", VStr "type"); ("defaultValue", VStr "all")];
                  CObj [("dbField", VStr "active"); ("value", VNull);
                        ("defaultValue", VBool true)];
                  CObj [("dbField", VStr "data"); ("value", VRef 4)];
                  CObj [("color", VStr "red")];
                  CObj [("type", VStr "all"); ("active", VNull); ("data", VRef 4)]];
         executed := [] |}.
Proof.
  rewrite (getTransformedValues_without_transform (Sample.env []) 0
             [("type", VRef 1); ("active", VRef 2); ("data", VRef 3)]).
  - reflexivity.
  - reflexivity.
  - repeat (apply NoDup_cons; split;
            [rewrite list_elem_of_In; simpl; intuition discriminate|]).
    apply NoDup_nil_2.
  - simpl. intros k v H.
    repeat destruct H as [H|H]; try (inversion H; subst; split; reflexivity).
Defined.

(** ** getSqlExpression *)

Lemma split_on_cons sep s : exists x xs, split_on sep s = x :: xs.
Proof.
  destruct s as [|c s]; simpl; [now eexists _, _|].
  destruct (sep c); [now eexists _, _|].
  destruct (split_on sep s); now eexists _, _.
Qed.

Lemma split_on_app_sep sep a c b :
  sep c = true ->
  split_on sep (a +:+ String c b) = split_on sep a ++ split_on sep b.
Proof.
  intros Hc. induction a as [|x a IH]; simpl.
  - now rewrite Hc.
  - rewrite IH. destruct (sep x); [reflexivity|].
    destruct (split_on_cons sep a) as (y & ys & ->). reflexivity.
Qed.

Lemma segments_app_sep a c b :
  is_path_sep c = true -> segments (a +:+ String c b) = segments a ++ segments b.
Proof.
  intros Hc. unfold segments. rewrite (split_on_app_sep _ _ _ _ Hc).
  apply List.filter_app.
Qed.

Lemma split_on_segment s :
  allChars (fun c => negb (is_path_sep c)) s = true -> split_on is_path_sep s = [s].
Proof.
  induction s as [|c s IH]; simpl; [reflexivity|].
  intros H. apply andb_prop in H. destruct H as [Hc Hs].
  apply negb_true_iff in Hc. rewrite Hc, (IH Hs). reflexivity.
Qed.

Lemma segments_segment s : isSegment s = true -> segments s = [s].
Proof.
  unfold isSegment, segments. intros H. apply andb_prop in H. destruct H as [Hne Hs].
  rewrite (split_on_segment _ Hs). simpl. now rewrite Hne.
Qed.

Lemma segments_separators s : allChars is_path_sep s = true -> segments s = [].
Proof.
  unfold segments. induction s as [|c s IH]; simpl; [reflexivity|].
  intros H. apply andb_prop in H. destruct H as [Hc Hs]. rewrite Hc. simpl.
  now apply IH.
Qed.

Lemma segments_path col parts :
  isSegment col = true -> forallb isSegment parts = true ->
  segments (String.concat "." (col :: parts)) = col :: parts.
Proof.
  revert col. induction parts as [|p parts IH]; intros col Hcol Hparts.
  - simpl. now apply segments_segment.
  - simpl in Hparts. apply andb_prop in Hparts. destruct Hparts as [Hp Hparts].
    change (String.concat "." (col :: p :: parts))
      with (col +:+ String "." (String.concat "." (p :: parts))).
    rewrite segments_app_sep by reflexivity.
    rewrite (segments_segment _ Hcol), (IH p Hp Hparts). reflexivity.
Qed.

Lemma getSqlExpression_segments str s :
  getSqlExpression (VStr str) s
  = Ok (match segments str with
        | [] => dquote +:+ "undefined" +:+ dquote +:+ "#>>'{}'"
        | c :: path => sqlExpression c path
        end) s.
Proof.
  unfold getSqlExpression. fold (segments str).
  destruct (segments str) as [|c [|p path]]; reflexivity.
Qed.

(** X10.  A path written as segments joined by dots becomes the quoted
    first segment, followed, when there are further segments, by the JSON
    path operator over the remaining segments joined by commas. *)
Theorem getSqlExpression_dotted_path (column : string) (path : list string) (s : state) :
  isSegment column = true ->
  forallb isSegment path = true ->
  getSqlExpression (VStr (String.concat "." (column :: path))) s
  = Ok (sqlExpression column path) s.
Proof.
  intros Hc Hp. rewrite getSqlExpression_segments.
  now rewrite (segments_path _ _ Hc Hp).
Qed.

Lemma getSqlExpression_dotted_path_witness :
  getSqlExpression (VStr "root.nested.property") Sample.optionalStore
  = Ok (dquote +:+ "root" +:+ dquote +:+ "#>>'{nested,property}'") Sample.optionalStore.
Proof.
  apply (getSqlExpression_dotted_path "root" ["nested"; "property"]); reflexivity.
Defined.

(** X11.  An index in brackets at the end of a path is read exactly as a
    further dotted segment: [a[i]] and [a.i] give the same expression. *)
Theorem getSqlExpression_bracket_is_dot (a i : string) (s : state) :
  getSqlExpression (VStr (a +:+ "[" +:+ i +:+ "]")) s
  = getSqlExpression (VStr (a +:+ "." +:+ i)) s.
Proof.
  rewrite !getSqlExpression_segments.
  change (a +:+ "[" +:+ i +:+ "]") with (a +:+ String "[" (i +:+ "]")).
  change (a +:+ "." +:+ i) with (a +:+ String "." i).
  rewrite !segments_app_sep by reflexivity.
  change (segments EmptyString) with (@nil string). now rewrite app_nil_r.
Qed.

(** X12.  An attribute made only of separators (the empty string
    included) has no segment left: the column is then the text
    [undefined] and the path is empty; the function does not fail. *)
Theorem getSqlExpression_without_segment (str : string) (s : state) :
  allChars is_path_sep str = true ->
  getSqlExpression (VStr str) s
  = Ok (dquote +:+ "undefined" +:+ dquote +:+ "#>>'{}'") s.
Proof.
  intros H. rewrite getSqlExpression_segments.
  now rewrite (segments_separators _ H).
Qed.

Lemma getSqlExpression_without_segment_witness :
  getSqlExpression (VStr "..[]") Sample.optionalStore
  = Ok (dquote +:+ "undefined" +:+ dquote +:+ "#>>'{}'") Sample.optionalStore.
Proof.
  apply getSqlExpression_without_segment. reflexivity.
Defined.

(** ** Builders under the filter machinery *)

(** *** Operations are only ever appended *)

Section KeepsPrefix.
Variables (lb : loc) (ops0 : list qop).
Let P := fun s : state => exists more, heap s !! lb = Some (CQuery (ops0 ++ more)).

Lemma prefix_push qb op : keeps P (push qb op).
Proof.
  intros s H. unfold push. destruct qb as [| | | | | |l| | |]; try exact H.
  destruct (heap s !! l) as [[| |ops]|] eqn:Hl; try exact H.
  unfold P. simpl. destruct H as (more & Hm).
  destruct (Nat.eq_dec l lb) as [->|Hne].
  - exists (more ++ [op]). rewrite list_lookup_insert_eq
      by (eapply lookup_lt_Some; eassumption).
    rewrite Hm in Hl. inversion Hl. now rewrite app_assoc.
  - exists more. now rewrite list_lookup_insert_ne.
Qed.

Lemma prefix_extend more s : P s -> P (extend more s).
Proof.
  intros (m & Hm). exists m. simpl. now apply lookup_app_l_Some.
Qed.

Lemma prefix_liftAlloc f : keeps P (liftAlloc f).
Proof.
  intros s H. unfold liftAlloc. destruct (f (heap s)) as [e|[v more]]; simpl.
  - exact H.
  - now apply prefix_extend.
Qed.

Lemma prefix_setProp v k x : keeps P (setProp v k x).
Proof.
  intros s H. unfold setProp. destruct v as [| | | | | |l| | |]; try exact H.
  destruct (heap s !! l) as [[ps| |]|] eqn:Hl; try exact H.
  unfold P. simpl. destruct H as (more & Hm). exists more.
  rewrite list_lookup_insert_ne; [exact Hm|]. intros ->. congruence.
Qed.

Lemma prefix_addFilters E qb filters tvs :
  keeps P (addFiltersToQueryBuilder E qb filters tvs).
Proof.
  apply keeps_addFilters.
  - apply prefix_push.
  - intros v x. apply prefix_setProp.
Qed.

Lemma prefix_getTransformedValues E filters :
  keeps P (getTransformedValues E filters).
Proof.
  apply (keeps_getTransformedValues P (fun _ => True)).
  - apply prefix_liftAlloc.
  - intros c s H. split; [exact I | now apply (prefix_extend [c])].
  - intros v k x _. apply prefix_setProp.
Qed.
End KeepsPrefix.

(** *** Writes go to the builder at hand *)

Section Frame.
Variable P : state -> Prop.
Variable mine : value -> Prop.
Hypothesis Hpush : forall qb op, mine qb -> keeps P (push qb op).
Hypothesis Halloc : forall f, keeps P (liftAlloc f).
Hypothesis Hset : forall v k x, keeps P (setProp v k x).
Hypothesis Hnew : forall c s, P s -> mine (VRef (length (heap s)))
                                    /\ P (finalState (alloc c s)).

Lemma frame_callQuery E f qb v vs : mine qb -> keeps P (callQuery E f qb v vs).
Proof.
  intros Hq. unfold callQuery. destruct f; try apply keeps_throw.
  apply keeps_bind; [apply keeps_gets|]. intros [e|ops].
  - apply keeps_throw.
  - apply keeps_forEach. intros op. now apply Hpush.
Qed.

Lemma frame_whereJsonb qb c d : mine qb -> keeps P (whereJsonbColumnSupersetOf qb c d).
Proof.
  intros Hq. unfold whereJsonbColumnSupersetOf.
  destruct (negb (isString c)); [apply keeps_throw|].
  apply keeps_bind; [apply keeps_gets | intros plain].
  destruct (negb plain); [apply keeps_throw | now apply Hpush].
Qed.

Lemma frame_applyFilter E qb filters tvs key :
  mine qb -> keeps P (applyFilter E qb filters tvs key).
Proof.
  intros Hq. unfold applyFilter.
  apply keeps_bind; [apply keeps_getProp | intros filter].
  apply keeps_bind; [apply keeps_destructure | intros _].
  do 5 (apply keeps_bind; [apply keeps_getProp | intros ?]).
  destruct (isUndefined _); [apply keeps_ret|].
  destruct (_ && _); [apply keeps_throw|].
  destruct (isUndefined _); [now apply Hpush|].
  destruct (isString _).
  - destruct (strictEq _ _).
    + apply keeps_bind; [apply keeps_validate | intros _].
      apply keeps_bind; [apply keeps_gets | intros m].
      apply keeps_bind.
      * destruct (truthy m).
        -- apply keeps_bind; [apply keeps_gets | intros below].
           destruct below; [apply keeps_throw | apply keeps_ret].
        -- apply keeps_bind; [apply keeps_gets | intros ?].
           apply keeps_bind; [apply keeps_gets | intros ?].
           destruct (_ && _); [apply Hset | apply keeps_ret].
      * intros _.
        repeat (apply keeps_bind;
                [first [apply keeps_getProp | now apply keeps_when, Hpush] | intros ?]).
        now apply keeps_when, Hpush.
    + destruct (strictEq _ _); [now apply Hpush|].
      destruct (strictEq _ _); [now apply frame_whereJsonb | apply keeps_ret].
  - destruct (isFunction _); [now apply frame_callQuery | apply keeps_throw].
Qed.

Lemma frame_addFilters E qb filters tvs :
  mine qb -> keeps P (addFiltersToQueryBuilder E qb filters tvs).
Proof.
  intros Hq. unfold addFiltersToQueryBuilder.
  apply keeps_bind; [apply keeps_objectKeys | intros ks].
  apply keeps_forEach. intros key. now apply frame_applyFilter.
Qed.

Lemma frame_getTransformedValues E filters : keeps P (getTransformedValues E filters).
Proof.
  apply (keeps_getTransformedValues P (fun _ => True)).
  - apply Halloc.
  - intros c s H. split; [exact I | now apply Hnew].
  - intros v k x _. apply Hset.
Qed.

Lemma frame_aggregationsCallback E c : keeps P (aggregationsCallback E c).
Proof.
  intros s H. unfold aggregationsCallback.
  destruct (Hnew (CQuery []) s H) as [Hq H1].
  unfold bind at 1. unfold alloc at 1. unfold alloc in H1. simpl in H1.
  revert H1. generalize ({| heap := heap s ++ [CQuery []]; executed := executed s |}).
  generalize dependent (VRef (length (heap s))). clear s H. intros qb0 Hq.
  match goal with |- forall s0, P s0 -> P (finalState (?m s0)) => change (keeps P m) end.
  do 5 (apply keeps_bind; [now apply Hpush | intros _]).
  apply keeps_bind.
  - destruct (cte_statsExpr c); [|apply keeps_ret].
    apply keeps_forEach. intros fn. now apply Hpush.
  - intros _. apply keeps_bind; [|intros _; apply keeps_readOps].
    apply keeps_when.
    apply keeps_bind; [apply frame_getTransformedValues | intros tvs].
    now apply frame_addFilters.
Qed.

Lemma frame_expand E ops :
  keeps P (mapM (fun op => match op with
                           | With name c =>
                               let* sub := aggregationsCallback E c in
                               ret (WithQuery name sub)
                           | _ => ret op
                           end) ops).
Proof.
  apply keeps_mapM. intros op. destruct op; try apply keeps_ret.
  apply keeps_bind; [apply frame_aggregationsCallback | intros sub; apply keeps_ret].
Qed.

Lemma frame_await E qb :
  (forall q, keeps P (send E q)) -> keeps P (await E qb).
Proof.
  intros Hsend. unfold await.
  apply keeps_bind; [apply keeps_readOps | intros ops].
  apply keeps_bind; [apply frame_expand | intros q; apply Hsend].
Qed.
End Frame.

Section KeepsBuilders.
Variable h0 : list cell.
Let P := fun s : state => buildersKept h0 (heap s).
Let mine := fun v : value => exists l, v = VRef l /\ length h0 <= l.

Lemma builders_push qb op : mine qb -> keeps P (push qb op).
Proof.
  intros (l0 & -> & Hl0) s H. unfold push.
  destruct (heap s !! l0) as [[| |ops]|] eqn:Hl; try exact H.
  unfold P. simpl. destruct H as (Hlen & Hk). split.
  - now rewrite length_insert.
  - intros l ops' Hc. rewrite list_lookup_insert_ne; [now apply Hk|].
    intros ->. apply lookup_lt_Some in Hc. lia.
Qed.

Lemma builders_extend more s : P s -> P (extend more s).
Proof.
  intros (Hlen & Hk). split; simpl.
  - rewrite length_app. lia.
  - intros l ops Hc. apply lookup_app_l_Some. now apply Hk.
Qed.

Lemma builders_liftAlloc f : keeps P (liftAlloc f).
Proof.
  intros s H. unfold liftAlloc. destruct (f (heap s)) as [e|[v more]]; simpl.
  - exact H.
  - now apply builders_extend.
Qed.

Lemma builders_setProp v k x : keeps P (setProp v k x).
Proof.
  intros s H. unfold setProp. destruct v as [| | | | | |l| | |]; try exact H.
  destruct (heap s !! l) as [[ps| |]|] eqn:Hl; try exact H.
  unfold P. simpl. destruct H as (Hlen & Hk). split.
  - now rewrite length_insert.
  - intros l' ops Hc. rewrite list_lookup_insert_ne; [now apply Hk|].
    intros ->. apply Hk in Hc.
    pose proof (eq_trans (eq_sym Hl) Hc) as Habs. discriminate Habs.
Qed.

Lemma builders_new c s :
  P s -> mine (VRef (length (heap s))) /\ P (finalState (alloc c s)).
Proof.
  intros H. split.
  - exists (length (heap s)). split; [reflexivity | apply H].
  - now apply (builders_extend [c]).
Qed.

Lemma builders_await E qb : keeps P (await E qb).
Proof.
  apply (frame_await P mine).
  - apply builders_push.
  - apply builders_liftAlloc.
  - apply builders_setProp.
  - apply builders_new.
  - intros q s H. unfold send. destruct (database E q); exact H.
Qed.
End KeepsBuilders.

Lemma buildersKept_refl h : buildersKept h h.
Proof. split; [lia | auto]. Qed.

(** X13.  [addFiltersToQueryBuilder] only appends: whether it returns or
    throws, a builder of the store still begins with the operations it
    had, and a builder other than the one it was given is left exactly
    as it was. *)
Theorem addFilters_only_appends E qb filters tvs s l ops :
  heap s !! l = Some (CQuery ops) ->
  let s' := finalState (addFiltersToQueryBuilder E qb filters tvs s) in
  (exists more, heap s' !! l = Some (CQuery (ops ++ more)))
  /\ (qb <> VRef l -> heap s' !! l = Some (CQuery ops)).
Proof.
  intros Hl s'. split.
  - apply (prefix_addFilters l ops E qb filters tvs s).
    exists []. now rewrite app_nil_r.
  - intros Hne.
    apply (frame_addFilters (fun st => heap st !! l = Some (CQuery ops)) (fun v => v = qb));
      [| |reflexivity|exact Hl].
    + intros qb0 op -> s0 H0. unfold push. destruct qb as [| | | | | |l0| | |]; try exact H0.
      destruct (heap s0 !! l0) as [[| |ops1]|] eqn:Hl0; try exact H0.
      simpl. rewrite list_lookup_insert_ne; [exact H0|]. congruence.
    + intros v k x s0 H0. unfold setProp. destruct v as [| | | | | |l0| | |]; try exact H0.
      destruct (heap s0 !! l0) as [[ps| |]|] eqn:Hl0; try exact H0.
      simpl. rewrite list_lookup_insert_ne; [exact H0|]. intros ->. congruence.
Qed.

Lemma addFilters_only_appends_witness :
  let s' := finalState (addFiltersToQueryBuilder (Sample.env []) (VRef 0) (VRef 1) (VRef 3)
                          (Sample2.oneFilter "type" [("dbField", VStr "type")] (VStr "x")
                             [CQuery [SelectAll]])) in
  (exists more, heap s' !! 4 = Some (CQuery ([SelectAll] ++ more)))
  /\ (VRef 0 <> VRef 4 -> heap s' !! 4 = Some (CQuery [SelectAll])).
Proof.
  apply (addFilters_only_appends (Sample.env []) (VRef 0) (VRef 1) (VRef 3)
           (Sample2.oneFilter "type" [("dbField", VStr "type")] (VStr "x")
              [CQuery [SelectAll]]) 4 [SelectAll]).
  reflexivity.
Defined.

(** X14.  Awaiting a builder leaves every builder of the store, the
    awaited one included, with exactly the operations it had: the
    callbacks compiled on the way write on builders of their own. *)
Theorem await_keeps_builders E qb s :
  buildersKept (heap s) (heap (finalState (await E qb s))).
Proof. apply (builders_await (heap s) E qb s). apply buildersKept_refl. Qed.

Lemma keeps_getSqlExpression P attr : keeps P (getSqlExpression attr).
Proof.
  intros s H. unfold getSqlExpression. destruct attr; try exact H.
  simpl. destruct (Nat.eqb _ 1); exact H.
Qed.

(** *** A property the engine does not write stays *)

Section KeepsProp.
Variables (lo : loc) (name : string) (v : value).
Hypothesis Hname : name <> "gte".
Let P := fun s : state => propIs lo name v (heap s).
Let fresh := fun x : value => x <> VRef lo.

Lemma propIs_app h more : propIs lo name v h -> propIs lo name v (h ++ more).
Proof.
  intros (o & Ho & Hv). exists o. split; [|exact Hv].
  now apply lookup_app_l_Some.
Qed.

Lemma propIs_prop h : propIs lo name v h -> prop h (VRef lo) name = v.
Proof. intros (o & Ho & Hv). now rewrite (prop_obj _ _ _ _ Ho). Qed.

Lemma propIs_push qb op : keeps P (push qb op).
Proof.
  intros s H. unfold push. destruct qb as [| | | | | |l| | |]; try exact H.
  destruct (heap s !! l) as [[]|] eqn:Hl; try exact H.
  unfold P. simpl. destruct H as (o & Ho & Hv). exists o. split; [|exact Hv].
  rewrite list_lookup_insert_ne; [exact Ho|]. intros ->.
  pose proof (eq_trans (eq_sym Hl) Ho) as Habs. discriminate Habs.
Qed.

Lemma propIs_liftAlloc f : keeps P (liftAlloc f).
Proof.
  intros s H. unfold liftAlloc. destruct (f (heap s)) as [e|[x more]]; simpl.
  - exact H.
  - now apply propIs_app.
Qed.

Lemma propIs_alloc c : keeps P (alloc c).
Proof. intros s H. unfold P. simpl. now apply propIs_app. Qed.

Lemma propIs_new c s :
  P s -> fresh (VRef (length (heap s))) /\ P (finalState (alloc c s)).
Proof.
  intros H. split.
  - destruct H as (o & Ho & _). apply lookup_lt_Some in Ho.
    unfold fresh. intros [= Heq]. lia.
  - now apply propIs_alloc.
Qed.

Lemma propIs_setProp x k y : k <> name \/ fresh x -> keeps P (setProp x k y).
Proof.
  intros Hk s H. unfold setProp. destruct x as [| | | | | |l| | |]; try exact H.
  destruct (heap s !! l) as [[ps| |]|] eqn:Hl; try exact H.
  unfold P. simpl. destruct H as (o & Ho & Hv).
  destruct (Nat.eq_dec l lo) as [->|Hne].
  - destruct Hk as [Hk|Hk]; [|now elim Hk].
    exists (assoc_set k y ps). split.
    + apply list_lookup_insert_eq. eapply lookup_lt_Some; eassumption.
    + rewrite assoc_get_set_other by congruence.
      pose proof (eq_trans (eq_sym Hl) Ho) as Heq. now inversion Heq.
  - exists o. split; [|exact Hv]. now rewrite list_lookup_insert_ne.
Qed.

Lemma propIs_getTransformedValues E filters :
  keeps P (getTransformedValues E filters).
Proof.
  apply (keeps_getTransformedValues P fresh).
  - apply propIs_liftAlloc.
  - apply propIs_new.
  - intros x k y Hx. apply propIs_setProp. now right.
Qed.

Lemma propIs_addFilters E qb filters tvs :
  keeps P (addFiltersToQueryBuilder E qb filters tvs).
Proof.
  apply keeps_addFilters.
  - apply propIs_push.
  - intros x y. apply propIs_setProp. left. congruence.
Qed.

Lemma propIs_await E qb : keeps P (await E qb).
Proof.
  unfold await.
  apply keeps_bind; [apply keeps_readOps | intros ops].
  apply keeps_bind.
  - apply (keeps_expand P fresh).
    + apply propIs_push.
    + apply propIs_liftAlloc.
    + apply propIs_new.
    + intros x y. apply propIs_setProp. left. congruence.
    + intros x k y Hx. apply propIs_setProp. now right.
  - intros q s H. unfold send. destruct (database E q); exact H.
Qed.
End KeepsProp.

(** Every step of the planners keeps what an object holds under a name
    other than [gte] and [dbField]. *)
Ltac steady_tac :=
  unfold checkOrderConfig, checkFilters, checkPaginationConfig, pick;
  repeat first
    [ apply keeps_ret | apply keeps_throw | apply keeps_gets | apply keeps_getProp
    | apply keeps_destructure | apply keeps_objectKeys | apply keeps_readOps
    | apply keeps_validate | apply keeps_getSqlExpression
    | apply propIs_push | apply propIs_alloc | apply propIs_liftAlloc
    | (apply propIs_setProp; left; discriminate)
    | (apply propIs_getTransformedValues; discriminate)
    | (apply propIs_addFilters; discriminate)
    | (apply propIs_await; discriminate)
    | apply keeps_when
    | (apply keeps_bind; [|intros ?])
    | match goal with |- keeps _ (if ?b then _ else _) => destruct b end ].

(** What a step keeps, carried from its start to its end. *)
Ltac steady H Hp :=
  match type of H with
  | ?m ?s0 = Ok ?a ?s1 =>
      match type of Hp with
      | propIs ?lo ?name ?v (heap s0) =>
          apply (keeps_Ok (fun st => propIs lo name v (heap st)) m s0 a s1) in Hp;
          [| steady_tac | exact H]
      end
  end.

Lemma validate_inv schema prefix v s u s' :
  validate schema prefix v s = Ok u s' -> schema (heap s) v = true /\ s' = s.
Proof.
  unfold validate, gets, bind. destruct (schema (heap s) v); [|discriminate].
  intros H. inversion H. auto.
Qed.


(** A page configuration that [checkPaginationConfig] accepts holds two
    whole numbers from 1 on, as numbers or as text. *)
Lemma paginationConfig_valid h pc :
  paginationConfigSchema h pc = true ->
  exists l ps pg per,
    pc = VRef l /\ h !! l = Some (CObj ps)
    /\ integerOf (ToNumber (prop h pc "page")) = Some pg /\ (1 <= pg)%Z
    /\ integerOf (ToNumber (prop h pc "nbResultsPerPage")) = Some per /\ (1 <= per)%Z.
Proof.
  unfold paginationConfigSchema. destruct pc as [| | | | | |l| | |]; try discriminate.
  simpl. destruct (h !! l) as [[ps| |]|] eqn:Hl; try discriminate.
  intros H. apply andb_prop in H. destruct H as [H Hper].
  apply andb_prop in H. destruct H as [_ Hpg].
  apply joi_integer_min1_whole in Hpg, Hper.
  destruct Hpg as (pg & Hpg & Hpg1), Hper as (per & Hper & Hper1).
  exists l, ps, pg, per. rewrite !(prop_obj _ _ _ _ Hl). auto 10.
Qed.

(** *** What the built-in strategies add are predicates *)

Section KeepsPredicates.
Variables (E : Env) (lb : loc) (base : list qop).
Hypothesis HE : customQueriesFilterOnly E.
Let P := fun s : state =>
  exists more, heap s !! lb = Some (CQuery (base ++ more))
               /\ forallb isPredicate more = true.

Lemma predicates_push qb op : isPredicate op = true -> keeps P (push qb op).
Proof.
  intros Hop s H. unfold push. destruct qb as [| | | | | |l| | |]; try exact H.
  destruct (heap s !! l) as [[| |ops]|] eqn:Hl; try exact H.
  unfold P. simpl. destruct H as (more & Hm & Hp).
  destruct (Nat.eq_dec l lb) as [->|Hne].
  - exists (more ++ [op]). rewrite list_lookup_insert_eq
      by (eapply lookup_lt_Some; eassumption).
    pose proof (eq_trans (eq_sym Hl) Hm) as Heq. inversion Heq.
    split; [now rewrite app_assoc|].
    rewrite forallb_app, Hp. simpl. now rewrite Hop.
  - exists more. now rewrite list_lookup_insert_ne.
Qed.

Lemma predicates_extend more s : P s -> P (extend more s).
Proof.
  intros (m & Hm & Hp). exists m. simpl. split; [|exact Hp].
  now apply lookup_app_l_Some.
Qed.

Lemma predicates_liftAlloc f : keeps P (liftAlloc f).
Proof.
  intros s H. unfold liftAlloc. destruct (f (heap s)) as [e|[x more]]; simpl.
  - exact H.
  - now apply predicates_extend.
Qed.

Lemma predicates_setProp x k y : keeps P (setProp x k y).
Proof.
  intros s H. unfold setProp. destruct x as [| | | | | |l| | |]; try exact H.
  destruct (heap s !! l) as [[ps| |]|] eqn:Hl; try exact H.
  unfold P. simpl. destruct H as (more & Hm & Hp). exists more. split; [|exact Hp].
  rewrite list_lookup_insert_ne; [exact Hm|]. intros ->.
  pose proof (eq_trans (eq_sym Hl) Hm) as Habs. discriminate Habs.
Qed.

Lemma predicates_getTransformedValues filters :
  keeps P (getTransformedValues E filters).
Proof.
  apply (keeps_getTransformedValues P (fun _ => True)).
  - apply predicates_liftAlloc.
  - intros c s H. split; [exact I | now apply (predicates_extend [c])].
  - intros x k y _. apply predicates_setProp.
Qed.

Lemma predicates_callQuery f qb x xs : keeps P (callQuery E f qb x xs).
Proof.
  unfold callQuery. destruct f as [| | | | | | |n| |]; try apply keeps_throw.
  intros s H. unfold bind, gets.
  destruct (queryFn E n (heap s) x xs) as [e|ops] eqn:Hq; [exact H|].
  apply HE in Hq. revert s H.
  change (keeps P (forEach (push qb) ops)).
  induction ops as [|op ops IH]; simpl; [apply keeps_ret|].
  simpl in Hq. apply andb_prop in Hq. destruct Hq as [Hop Hq].
  apply keeps_bind; [now apply predicates_push | intros _; now apply IH].
Qed.

Lemma predicates_whereJsonb qb c d : keeps P (whereJsonbColumnSupersetOf qb c d).
Proof.
  unfold whereJsonbColumnSupersetOf.
  destruct (negb (isString c)); [apply keeps_throw|].
  apply keeps_bind; [apply keeps_gets | intros plain].
  destruct (negb plain); [apply keeps_throw | now apply predicates_push].
Qed.

Lemma predicates_applyFilter qb filters tvs key :
  keeps P (applyFilter E qb filters tvs key).
Proof.
  unfold applyFilter.
  apply keeps_bind; [apply keeps_getProp | intros filter].
  apply keeps_bind; [apply keeps_destructure | intros _].
  do 5 (apply keeps_bind; [apply keeps_getProp | intros ?]).
  destruct (isUndefined _); [apply keeps_ret|].
  destruct (_ && _); [apply keeps_throw|].
  destruct (isUndefined _); [now apply predicates_push|].
  destruct (isString _).
  - destruct (strictEq _ _).
    + apply keeps_bind; [apply keeps_validate | intros _].
      apply keeps_bind; [apply keeps_gets | intros m].
      apply keeps_bind.
      * destruct (truthy m).
        -- apply keeps_bind; [apply keeps_gets | intros below].
           destruct below; [apply keeps_throw | apply keeps_ret].
        -- apply keeps_bind; [apply keeps_gets | intros ?].
           apply keeps_bind; [apply keeps_gets | intros ?].
           destruct (_ && _); [apply predicates_setProp | apply keeps_ret].
      * intros _.
        repeat (apply keeps_bind;
                [first [apply keeps_getProp
                       | apply keeps_when; now apply predicates_push] | intros ?]).
        apply keeps_when. now apply predicates_push.
    + destruct (strictEq _ _); [now apply predicates_push|].
      destruct (strictEq _ _); [apply predicates_whereJsonb | apply keeps_ret].
  - destruct (isFunction _); [apply predicates_callQuery | apply keeps_throw].
Qed.

Lemma predicates_addFilters qb filters tvs :
  keeps P (addFiltersToQueryBuilder E qb filters tvs).
Proof.
  unfold addFiltersToQueryBuilder.
  apply keeps_bind; [apply keeps_objectKeys | intros ks].
  apply keeps_forEach. intros key. apply predicates_applyFilter.
Qed.
End KeepsPredicates.

(** ** The two queries of an aggregation *)

Ltac readonly_tac :=
  unfold checkOrderConfig, checkFilters, checkPaginationConfig;
  repeat first
    [ apply keeps_ret | apply keeps_throw | apply keeps_gets | apply keeps_getProp
    | apply keeps_destructure | apply keeps_objectKeys | apply keeps_readOps
    | apply keeps_validate | apply keeps_getSqlExpression | apply keeps_when
    | (apply keeps_bind; [|intros ?])
    | match goal with |- keeps _ (if ?b then _ else _) => destruct b end ].

(** A step that only reads returns in the store it started in. *)
Ltac readonly H :=
  match type of H with
  | ?m ?s0 = Ok ?a ?s1 =>
      let Hq := fresh "Hq" in
      assert (Hq : s1 = s0)
        by (apply (keeps_Ok (fun st => st = s0) m s0 a s1);
            [readonly_tac | reflexivity | exact H]);
      subst s1
  end.

Lemma push_fwd l ops op s u s' :
  heap s !! l = Some (CQuery ops) ->
  push (VRef l) op s = Ok u s' ->
  heap s' !! l = Some (CQuery (ops ++ [op]))
  /\ (forall l', l' <> l -> heap s' !! l' = heap s !! l')
  /\ length (heap s') = length (heap s)
  /\ executed s' = executed s.
Proof.
  intros Hl H. rewrite (push_query _ _ _ _ Hl) in H. inversion H. subst s'. simpl.
  split; [|split; [|split]].
  - apply list_lookup_insert_eq. eapply lookup_lt_Some; eassumption.
  - intros l' Hne. apply list_lookup_insert_ne. congruence.
  - apply length_insert.
  - reflexivity.
Qed.

Lemma clone_inv qb s v s' :
  clone qb s = Ok v s' ->
  exists ops, cellAt (heap s) qb = Some (CQuery ops)
              /\ v = VRef (length (heap s)) /\ s' = extend [CQuery ops] s.
Proof.
  unfold clone, bind, readOps, alloc.
  destruct (cellAt (heap s) qb) as [[| |ops]|]; try discriminate.
  intros H. inversion H. now exists ops.
Qed.


Lemma expands_plain b : forallb (fun op => negb (isWith op)) b = true ->
  forall q, expands b q -> q = b.
Proof.
  intros Hb q H. induction H as [|op op' b q Hop H IH]; [reflexivity|].
  simpl in Hb. apply andb_prop in Hb. destruct Hb as [Hw Hb].
  f_equal; [|now apply IH]. destruct op; try exact Hop. discriminate Hw.
Qed.

Lemma expands_plain_suffix a b q :
  forallb (fun op => negb (isWith op)) b = true ->
  expands (a ++ b) q -> exists qa, q = qa ++ b /\ expands a qa.
Proof.
  intros Hb H. apply Forall2_app_inv_l in H.
  destruct H as (qa & qb & Ha & Hqb & ->).
  exists qa. split; [|exact Ha]. f_equal. now apply expands_plain.
Qed.

Lemma expands_plain_after a w b q :
  forallb (fun op => negb (isWith op)) b = true ->
  expands (a ++ w :: b) q -> exists qa, q = qa ++ b /\ expands (a ++ [w]) qa.
Proof.
  intros Hb H. change (a ++ w :: b) with (a ++ [w] ++ b) in H.
  rewrite app_assoc in H. now apply expands_plain_suffix.
Qed.


Lemma firstCount_inv rows s c s' :
  firstCount rows s = Ok c s' ->
  s' = s /\ exists cnt rest, rows = cnt :: rest /\ c = assoc_get "count" cnt.
Proof.
  unfold firstCount. destruct rows as [|cnt rest]; [discriminate|].
  intros H. inversion H. split; [reflexivity|]. now exists cnt, rest.
Qed.

Lemma readOps_query l ops s :
  heap s !! l = Some (CQuery ops) -> readOps (VRef l) s = Ok ops s.
Proof. intros H. unfold readOps. simpl. now rewrite H. Qed.

(** The callback builds its selection, then lets the filters add. *)
Lemma aggregationsCallback_subQuery E c s sub s' :
  aggregationsCallback E c s = Ok sub s' -> subQuery E c sub.
Proof.
  intros H. unfold aggregationsCallback in H.
  apply bind_inv in H. destruct H as (qb & s0 & H0 & H).
  unfold alloc in H0. inversion H0. subst qb s0. clear H0.
  remember (length (heap s)) as l eqn:Hlen in *.
  match type of H with bind _ _ ?st = _ =>
    assert (Hl0 : heap st !! l = Some (CQuery []))
      by (simpl; apply list_lookup_middle; exact Hlen)
  end.
  apply bind_inv in H. destruct H as (u1 & s1 & H1 & H).
  destruct (push_fwd _ _ _ _ _ _ Hl0 H1) as (Hl1 & _).
  apply bind_inv in H. destruct H as (u2 & s2 & H2 & H).
  destruct (push_fwd _ _ _ _ _ _ Hl1 H2) as (Hl2 & _).
  apply bind_inv in H. destruct H as (u3 & s3 & H3 & H).
  destruct (push_fwd _ _ _ _ _ _ Hl2 H3) as (Hl3 & _).
  apply bind_inv in H. destruct H as (u4 & s4 & H4 & H).
  destruct (push_fwd _ _ _ _ _ _ Hl3 H4) as (Hl4 & _).
  apply bind_inv in H. destruct H as (u5 & s5 & H5 & H).
  destruct (push_fwd _ _ _ _ _ _ Hl4 H5) as (Hl5 & _).
  apply bind_inv in H. destruct H as (u6 & s6 & H6 & H).
  assert (Hl6 : heap s6 !! l = Some (CQuery (aggregationSelection c))).
  { unfold aggregationSelection. destruct (cte_statsExpr c) as [expr|].
    - simpl in H6.
      apply bind_inv in H6. destruct H6 as (v1 & t1 & G1 & H6).
      destruct (push_fwd _ _ _ _ _ _ Hl5 G1) as (K1 & _).
      apply bind_inv in H6. destruct H6 as (v2 & t2 & G2 & H6).
      destruct (push_fwd _ _ _ _ _ _ K1 G2) as (K2 & _).
      apply bind_inv in H6. destruct H6 as (v3 & t3 & G3 & H6).
      destruct (push_fwd _ _ _ _ _ _ K2 G3) as (K3 & _).
      apply bind_inv in H6. destruct H6 as (v4 & t4 & G4 & H6).
      destruct (push_fwd _ _ _ _ _ _ K3 G4) as (K4 & _).
      inversion H6. subst s6. exact K4.
    - inversion H6. subst s6. rewrite app_nil_r. exact Hl5. }
  apply bind_inv in H. destruct H as (u7 & s7 & H7 & H).
  assert (Hl7 : exists more, heap s7 !! l = Some (CQuery (aggregationSelection c ++ more))).
  { eapply (keeps_Ok (fun st => exists more,
                        heap st !! l = Some (CQuery (aggregationSelection c ++ more))));
      [| |exact H7].
    - apply keeps_when.
      apply keeps_bind; [apply prefix_getTransformedValues | intros tvs].
      apply prefix_addFilters.
    - exists []. now rewrite app_nil_r. }
  destruct Hl7 as (more & Hl7).
  rewrite (readOps_query _ _ _ Hl7) in H. inversion H. subst sub s'.
  exists more. split; [reflexivity|]. split.
  - intros Hf. rewrite Hf in H7. inversion H7. subst s7.
    pose proof (eq_trans (eq_sym Hl6) Hl7) as Heq.
    assert (Hops : aggregationSelection c ++ [] = aggregationSelection c ++ more)
      by (rewrite app_nil_r; congruence).
    apply app_inv_head in Hops. now symmetry.
  - intros HE.
    assert (Hp : exists more', heap s7 !! l = Some (CQuery (aggregationSelection c ++ more'))
                               /\ forallb isPredicate more' = true).
    { eapply (keeps_Ok (fun st => exists more',
                          heap st !! l = Some (CQuery (aggregationSelection c ++ more'))
                          /\ forallb isPredicate more' = true));
        [| |exact H7].
      - apply keeps_when.
        apply keeps_bind; [now apply predicates_getTransformedValues | intros tvs].
        now apply predicates_addFilters.
      - exists []. rewrite app_nil_r. now split. }
    destruct Hp as (more' & Hm' & Hp).
    pose proof (eq_trans (eq_sym Hl7) Hm') as Heq.
    assert (Hops : aggregationSelection c ++ more = aggregationSelection c ++ more')
      by congruence.
    apply app_inv_head in Hops. now subst more'.
Qed.

Lemma mapM_compiles E ops s q s' :
  mapM (fun op => match op with
                  | With name c =>
                      let* sub := aggregationsCallback E c in
                      ret (WithQuery name sub)
                  | _ => ret op
                  end) ops s = Ok q s' ->
  compiles E ops q.
Proof.
  revert s q s'. induction ops as [|op ops IH]; intros s q s' H; simpl in H.
  - inversion H. constructor.
  - apply bind_inv in H. destruct H as (op' & s1 & Hop & H).
    apply bind_inv in H. destruct H as (q' & s2 & Hrest & H).
    inversion H. subst q s'. constructor; [|eapply IH; eassumption].
    destruct op; try (now inversion Hop).
    apply bind_inv in Hop. destruct Hop as (sub & s3 & Hsub & Hop).
    inversion Hop. exists sub. split; [reflexivity|].
    eapply aggregationsCallback_subQuery; eassumption.
Qed.

Lemma compiles_expands E base q : compiles E base q -> expands base q.
Proof.
  intros H. induction H as [|op op' base q Hop H IH]; constructor; [|exact IH].
  destruct op; try exact Hop. destruct Hop as (sub & -> & _). now exists sub.
Qed.

(** A builder that ends with one callback and plain operations after it
    compiles into the caller's part, the sub-query and those operations. *)
Lemma compiles_callback_last E a name c b q :
  forallb (fun op => negb (isWith op)) b = true ->
  compiles E (a ++ With name c :: b) q ->
  exists qa sub, q = qa ++ WithQuery name sub :: b
                 /\ expands a qa /\ subQuery E c sub.
Proof.
  intros Hb H. apply Forall2_app_inv_l in H.
  destruct H as (qa & qr & Ha & Hr & ->).
  apply Forall2_cons_inv_l in Hr. destruct Hr as (w & qb & (sub & -> & Hsub) & Hqb & ->).
  exists qa, sub. split; [|split; [now apply compiles_expands in Ha | exact Hsub]].
  do 2 f_equal. apply compiles_expands in Hqb. now apply expands_plain.
Qed.

Lemma await_compiles E qb s rows s' :
  await E qb s = Ok rows s' ->
  exists ops q,
    cellAt (heap s) qb = Some (CQuery ops)
    /\ compiles E ops q
    /\ database E q = inr rows
    /\ executed s' = executed s ++ [q]
    /\ buildersKept (heap s) (heap s').
Proof.
  intros H.
  assert (Hk : buildersKept (heap s) (heap s')).
  { apply (keeps_Ok _ _ _ _ _ (builders_await (heap s) E qb) (buildersKept_refl _) H). }
  unfold await in H.
  apply bind_inv in H. destruct H as (ops & sa & Hread & H).
  apply bind_inv in H. destruct H as (q & sb & Hmap & Hsend).
  apply send_inv in Hsend. destruct Hsend as [Hdb Hex].
  assert (Hsa : sa = s /\ cellAt (heap s) qb = Some (CQuery ops)).
  { unfold readOps in Hread. destruct (cellAt _ _) as [[]|]; inversion Hread; auto. }
  destruct Hsa as [-> Hcell].
  exists ops, q. split; [exact Hcell|]. split; [now apply mapM_compiles in Hmap|].
  split; [exact Hdb|]. split; [|exact Hk].
  rewrite Hex. f_equal.
  eapply (keeps_Ok (fun st => executed st = executed s));
    [apply executed_expand | reflexivity | exact Hmap].
Qed.

(** What a successful [performAggregationQuery] has done. *)
Lemma aggregation_run E p s r s' :
  performAggregationQuery E p s = Ok r s' ->
  let page := prop (heap s) (paginationConfig p) "page" in
  let nbResultsPerPage := prop (heap s) (paginationConfig p) "nbResultsPerPage" in
  exists ops0 ge se pre1 pre2 sub1 sub2 rows cnt rest,
    let c := aggregationsClosure (heap s) p ge se in
    let q1 := pre1 ++ WithQuery "aggregations" sub1
                      :: fromAggregations
                      ++ [OrderBy (prop (heap s) (orderConfig p) "orderBy")
                                  (prop (heap s) (orderConfig p) "order");
                          Offset (js_mul (js_sub page (VNum 1)) nbResultsPerPage);
                          Limit nbResultsPerPage] in
    let q2 := pre2 ++ WithQuery "aggregations" sub2 :: fromAggregations ++ [CountAll] in
    cellAt (heap s) (queryBuilder p) = Some (CQuery ops0)
    /\ paginationConfigSchema (heap s) (paginationConfig p) = true
    /\ getSqlExpression (groupBy p) s = Ok ge s
    /\ (truthy (field p) = true ->
        exists e, getSqlExpression (field p) s = Ok e s /\ se = Some e)
    /\ (truthy (field p) = false -> se = None)
    /\ expands ops0 pre1 /\ expands ops0 pre2
    /\ subQuery E c sub1 /\ subQuery E c sub2
    /\ executed s' = executed s ++ [q1; q2]
    /\ database E q1 = inr rows
    /\ database E q2 = inr (cnt :: rest)
    /\ nbResults r = assoc_get "count" cnt
    /\ results r = map (formatAggregationRow (groupBy p)
                          (default (VNum 2) (avgPrecision p))) rows.
Proof.
  intros H page nbResultsPerPage. unfold performAggregationQuery in H.
  apply bind_inv in H. destruct H as (u1 & s1 & H1 & H). readonly H1.
  apply bind_inv in H. destruct H as (u2 & s2 & H2 & H). readonly H2.
  apply bind_inv in H. destruct H as (u3 & s3 & H3 & H).
  pose proof H3 as Hpc. readonly H3.
  apply validate_inv in Hpc. destruct Hpc as [Hpc _].
  destruct (paginationConfig_valid _ _ Hpc)
    as (lp & pps & pg0 & per0 & Hlp & Hpps & _).
  assert (Hpage : propIs lp "page" page (heap s)).
  { exists pps. split; [exact Hpps|]. unfold page. rewrite Hlp.
    now rewrite (prop_obj _ _ _ _ Hpps). }
  assert (Hper : propIs lp "nbResultsPerPage" nbResultsPerPage (heap s)).
  { exists pps. split; [exact Hpps|]. unfold nbResultsPerPage. rewrite Hlp.
    now rewrite (prop_obj _ _ _ _ Hpps). }
  destruct (strictEq _ _); [discriminate|].
  apply bind_inv in H. destruct H as (ge & s4 & H4 & H).
  pose proof H4 as Hge. readonly H4.
  apply bind_inv in H. destruct H as (se & s5 & H5 & H).
  pose proof H5 as Hse. readonly H5.
  apply bind_inv in H. destruct H as (orderBy & s6 & H6 & H).
  apply getProp_inv in H6. destruct H6 as [-> ->].
  apply bind_inv in H. destruct H as (order & s7 & H7 & H).
  apply getProp_inv in H7. destruct H7 as [-> ->].
  apply bind_inv in H. destruct H as (u8 & s8 & H8 & H).
  destruct (push_inv _ _ _ _ _ H8) as (l & ops0 & Hqb & Hl & _).
  rewrite Hqb in *.
  steady H8 Hpage. steady H8 Hper.
  destruct (push_fwd _ _ _ _ _ _ Hl H8) as (Hl8 & _ & Hn8 & Hx8).
  apply bind_inv in H. destruct H as (u9 & s9 & H9 & H).
  steady H9 Hpage. steady H9 Hper.
  destruct (push_fwd _ _ _ _ _ _ Hl8 H9) as (Hl9 & _ & Hn9 & Hx9).
  apply bind_inv in H. destruct H as (u10 & s10 & H10 & H).
  steady H10 Hpage. steady H10 Hper.
  destruct (push_fwd _ _ _ _ _ _ Hl9 H10) as (Hl10 & _ & Hn10 & Hx10).
  apply bind_inv in H. destruct H as (u11 & s11 & H11 & H).
  steady H11 Hpage. steady H11 Hper.
  destruct (push_fwd _ _ _ _ _ _ Hl10 H11) as (Hl11 & _ & Hn11 & Hx11).
  apply bind_inv in H. destruct H as (cqb & s12 & H12 & H).
  assert (Hpage12 : propIs lp "page" page (heap s12)).
  { eapply (keeps_Ok (fun st => propIs lp "page" page (heap st)));
      [|exact Hpage|exact H12].
    unfold clone. steady_tac. }
  assert (Hper12 : propIs lp "nbResultsPerPage" nbResultsPerPage (heap s12)).
  { eapply (keeps_Ok (fun st => propIs lp "nbResultsPerPage" nbResultsPerPage (heap st)));
      [|exact Hper|exact H12].
    unfold clone. steady_tac. }
  clear Hpage Hper.
  apply clone_inv in H12. destruct H12 as (opsc & Hc & -> & ->).
  simpl in Hc. rewrite Hl11 in Hc. inversion Hc. subst opsc. clear Hc.
  assert (Hlt : l < length (heap s11)) by (eapply lookup_lt_Some; eassumption).
  remember (length (heap s11)) as lc eqn:Hlc.
  remember (aggregationsClosure (heap s) p ge se) as c eqn:Hcdef.
  assert (Hcl : c = {| cte_schema := default (VStr "public") (schema p);
                       cte_groupByExpr := ge; cte_statsExpr := se;
                       cte_orderBy := prop (heap s) (orderConfig p) "orderBy";
                       cte_order := prop (heap s) (orderConfig p) "order";
                       cte_filters := filters p |})
    by (subst c; reflexivity).
  rewrite <- Hcl in *.
  assert (Hl12 : heap (extend [CQuery ((((ops0 ++ [With "aggregations" c])
                   ++ [SelectAll])
                   ++ [FromTable "aggregations"]) ++ [WhereNotNull "groupByField"])] s11)
                 !! l = heap s11 !! l)
    by (simpl; apply lookup_app_l; lia).
  rewrite Hl11 in Hl12.
  match type of Hl12 with heap ?s12 !! _ = _ =>
    assert (Hc12 : heap s12 !! lc = Some (CQuery ((((ops0 ++ [With "aggregations" c])
                   ++ [SelectAll])
                   ++ [FromTable "aggregations"]) ++ [WhereNotNull "groupByField"])))
      by (simpl; apply list_lookup_middle; exact Hlc)
  end.
  apply bind_inv in H. destruct H as (u13 & s13 & H13 & H).
  steady H13 Hpage12. steady H13 Hper12.
  destruct (push_fwd _ _ _ _ _ _ Hl12 H13) as (Hl13 & Hf13 & Hn13 & Hx13).
  apply bind_inv in H. destruct H as (pg & s14 & H14 & H).
  apply getProp_inv in H14. destruct H14 as [-> ->].
  apply bind_inv in H. destruct H as (per & s15 & H15 & H).
  apply getProp_inv in H15. destruct H15 as [-> ->].
  rewrite Hlp in H.
  rewrite (propIs_prop _ _ _ _ Hpage12), (propIs_prop _ _ _ _ Hper12) in H.
  apply bind_inv in H. destruct H as (u16 & s16 & H16 & H).
  destruct (push_fwd _ _ _ _ _ _ Hl13 H16) as (Hl16 & Hf16 & Hn16 & Hx16).
  apply bind_inv in H. destruct H as (u17 & s17 & H17 & H).
  destruct (push_fwd _ _ _ _ _ _ Hl16 H17) as (Hl17 & Hf17 & Hn17 & Hx17).
  apply bind_inv in H. destruct H as (fetched & s18 & Hfetch & H).
  inversion H. subst r s'. clear H.
  apply tryCatch_inv in Hfetch.
  2:{ intros e s0 b sx. destruct (strictEq _ _); discriminate. }
  apply bind_inv in Hfetch. destruct Hfetch as (u19 & s19 & H19 & Hfetch).
  assert (Hc17 : heap s17 !! lc = Some (CQuery ((((ops0 ++ [With "aggregations" c])
                   ++ [SelectAll])
                   ++ [FromTable "aggregations"]) ++ [WhereNotNull "groupByField"])))
    by (rewrite Hf17, Hf16, Hf13 by lia; exact Hc12).
  destruct (push_fwd _ _ _ _ _ _ Hc17 H19) as (Hc19 & Hf19 & Hn19 & Hx19).
  assert (Hl19 : heap s19 !! l = heap s17 !! l) by (apply Hf19; lia).
  rewrite Hl17 in Hl19.
  apply bind_inv in Hfetch. destruct Hfetch as (both & s20 & Hboth & Hfetch).
  apply bind_inv in Hfetch. destruct Hfetch as (count & s21 & Hcount & Hfetch).
  inversion Hfetch. subst fetched s21. clear Hfetch.
  apply firstCount_inv in Hcount. destruct Hcount as (-> & cnt & rest & Hrows & ->).
  apply promiseAll2_inv in Hboth. destruct Hboth as (sm & Hmain & Hcnt).
  apply await_compiles in Hmain.
  destruct Hmain as (opsm & q1 & Hcm & Hem & Hdbm & Hexm & Hkept).
  simpl in Hcm. rewrite Hl19 in Hcm. inversion Hcm. subst opsm. clear Hcm.
  apply await_compiles in Hcnt.
  destruct Hcnt as (opsc & q2 & Hcc & Hec & Hdbc & Hexc & _).
  simpl in Hcc. pose proof (eq_trans (eq_sym (proj2 Hkept _ _ Hc19)) Hcc) as Heq.
  inversion Heq. subst opsc. clear Hcc Heq.
  repeat rewrite <- app_assoc in Hem. repeat rewrite <- app_assoc in Hec.
  simpl in Hem, Hec.
  apply compiles_callback_last in Hem; [|reflexivity].
  apply compiles_callback_last in Hec; [|reflexivity].
  destruct Hem as (pre1 & sub1 & -> & Hpre1 & Hsub1).
  destruct Hec as (pre2 & sub2 & -> & Hpre2 & Hsub2).
  exists ops0, ge, se, pre1, pre2, sub1, sub2, (fst both), cnt, rest.
  rewrite <- Hcdef. cbv zeta.
  split; [exact Hl|]. split; [exact Hpc|]. split; [exact Hge|].
  split.
  { intros Hf. rewrite Hf in Hse.
    apply bind_inv in Hse. destruct Hse as (e & se' & He & Hse).
    pose proof He as He'. readonly He'. inversion Hse. now exists e. }
  split.
  { intros Hf. rewrite Hf in Hse. now inversion Hse. }
  split; [exact Hpre1|]. split; [exact Hpre2|].
  split; [exact Hsub1|]. split; [exact Hsub2|].
  split.
  { rewrite Hexc, Hexm, Hx19, Hx17, Hx16, Hx13. simpl.
    rewrite Hx11, Hx10, Hx9, Hx8. now rewrite <- app_assoc. }
  split; [exact Hdbm|]. split; [rewrite <- Hrows; exact Hdbc|].
  split; reflexivity.
Qed.



(** ** The rows of an aggregation, from the request to the result *)

Lemma numOf_isNumber v x : numOf v = Some x -> isNumber v = true.
Proof. destruct v; try discriminate; reflexivity. Qed.

Lemma numOf_numValue v x : numOf v = Some x -> x = NNaN \/ (exists b, x = NInf b) -> v = numValue x.
Proof.
  destruct v; try discriminate; intros [= <-] [H|(b & H)];
    try discriminate H; reflexivity.
Qed.

Lemma nearest_half a b :
  (0 < b)%Z -> (2 * Z.abs (nearest a b * b - a) <= b)%Z.
Proof.
  intros Hb. unfold nearest.
  pose proof (Z.div_mod (2 * a + b) (2 * b)) as Hdm.
  pose proof (Z.mod_pos_bound (2 * a + b) (2 * b)) as Hr.
  nia.
Qed.

(** The spec-modelled rounding yields the nearest decimal of the digits
    asked for. *)
Lemma roundDecimal_roundedTo v precision x d :
  numOf v = Some x ->
  integerOf (ToNumber precision) = Some d -> (0 <= d)%Z ->
  roundedTo d x (roundDecimal v precision).
Proof.
  intros Hv Hd Hd0. unfold roundDecimal. rewrite Hv, Hd.
  destruct x as [|b|m e]; simpl.
  - apply (numOf_numValue _ _ Hv). now left.
  - apply (numOf_numValue _ _ Hv). right. now exists b.
  - apply Z.leb_le in Hd0. rewrite Hd0.
    exists (nearest (m * pow10 (Z.to_nat d)) (pow10 e)). split; [reflexivity|].
    apply nearest_half, pow10_pos.
Qed.

Lemma predicates_no_aggregate alias ops :
  forallb isPredicate ops = true -> existsb (isAggregateAs alias) ops = false.
Proof.
  induction ops as [|op ops IH]; simpl; [reflexivity|].
  intros H. apply andb_prop in H. destruct H as [Hop H].
  rewrite (IH H). destruct op; try discriminate Hop; reflexivity.
Qed.

(** C7. Every row returned by [performAggregationQuery] is the formatted
    image of a row the database returned for the page query, and in it
    each of [avg], [sum], [min], [max] is present and defined: null when
    the database row has no value for it, the rounded value for a
    numeric [avg], and the database value otherwise.  The rounded value
    is a decimal of [avgPrecision] digits, no further than half a unit
    of the last digit from the average of the row.  The page query
    selects from the [aggregations] sub-query the planner has built,
    which asks for the four operators only when [field] is given: without
    [field], over a database that returns no operator column it was not
    asked for, and with custom query functions that add predicates only,
    all four are null in every row returned. *)
Theorem aggregation_rows_carry_operators E p s r s' :
  performAggregationQuery E p s = Ok r s' ->
  let avgPrecision := default (VNum 2) (avgPrecision p) in
  exists q pre sub tail ge se rows,
    In q (executed s')
    /\ database E q = inr rows
    /\ q = pre ++ WithQuery "aggregations" sub :: tail
    /\ subQuery E (aggregationsClosure (heap s) p ge se) sub
    /\ (truthy (field p) = false -> se = None)
    /\ results r = map (formatAggregationRow (groupBy p) avgPrecision) rows
    /\ (forall row op,
          In row rows -> In op operators ->
          let out := formatAggregationRow (groupBy p) avgPrecision row in
          has_key op out = true
          /\ isUndefined (assoc_get op out) = false
          /\ assoc_get op out
             = if isUndefined (assoc_get op row) then VNull
               else if String.eqb op "avg" && isNumber (assoc_get op row)
               then roundDecimal (assoc_get op row) avgPrecision
               else assoc_get op row)
    /\ (forall row x d,
          In row rows -> numOf (assoc_get "avg" row) = Some x ->
          integerOf (ToNumber avgPrecision) = Some d -> (0 <= d)%Z ->
          roundedTo d x
            (assoc_get "avg" (formatAggregationRow (groupBy p) avgPrecision row)))
    /\ (truthy (field p) = false ->
        customQueriesFilterOnly E -> answersWhatIsAsked E ->
        forall out op, In out (results r) -> In op operators ->
                       assoc_get op out = VNull).
Proof.
  intros H ap. subst ap.
  destruct (aggregation_run _ _ _ _ _ H)
    as (ops0 & ge & se & pre1 & pre2 & sub1 & sub2 & rows & cnt & rest
        & Hqb & Hpc & Hge & Hse1 & Hse0 & Hpre1 & Hpre2 & Hsub1 & Hsub2
        & Hex & Hdb1 & Hdb2 & Hnb & Hres).
  eexists _, pre1, sub1, _, ge, se, rows.
  split; [rewrite Hex; apply in_or_app; right; left; reflexivity|].
  split; [exact Hdb1|]. split; [reflexivity|]. split; [exact Hsub1|].
  split; [exact Hse0|]. split; [exact Hres|]. split; [|split].
  - intros row op _ Hop. now apply formatAggregationRow_operator.
  - intros row x d _ Hx Hd Hd0.
    destruct (formatAggregationRow_operator (groupBy p)
                (default (VNum 2) (avgPrecision p)) row "avg") as (_ & _ & Havg);
      [unfold operators; simpl; tauto|].
    rewrite Havg, (numOf_isNumber _ _ Hx).
    replace (isUndefined (assoc_get "avg" row)) with false
      by (destruct (assoc_get "avg" row); try discriminate Hx; reflexivity).
    simpl. now apply roundDecimal_roundedTo.
  - intros Hf HE HD out op Hout Hop.
    rewrite Hres in Hout. apply in_map_iff in Hout. destruct Hout as (row & <- & Hrow).
    destruct (formatAggregationRow_operator (groupBy p)
                (default (VNum 2) (avgPrecision p)) row op Hop) as (_ & _ & Hout).
    rewrite Hout.
    destruct Hsub1 as (more & -> & _ & Hmore).
    assert (Hu : assoc_get op row = VUndef).
    { eapply (HD _ rows _ op row Hdb1).
      - apply in_or_app. right. left. reflexivity.
      - exact Hop.
      - rewrite existsb_app, (predicates_no_aggregate _ _ (Hmore HE)), orb_false_r.
        unfold aggregationSelection. rewrite (Hse0 Hf). reflexivity.
      - exact Hrow. }
    now rewrite Hu.
Qed.

Lemma answersWhatIsAsked_priced : answersWhatIsAsked Sample2.priced.
Proof.
  intros q rows sub alias row Hdb Hin Halias Hno Hrow. simpl in Hdb.
  destruct (Sample2.asksFor "avg" q) eqn:Hasks.
  - unfold Sample2.asksFor in Hasks. rewrite forallb_forall in Hasks.
    specialize (Hasks _ Hin). simpl in Hasks.
    inversion Hdb. subst rows. unfold operators in Halias. simpl in Halias, Hrow.
    destruct Halias as [<-|[<-|[<-|[<-|[]]]]];
      [rewrite Hasks in Hno; discriminate Hno| | |];
      destruct Hrow as [<-|[<-|[]]]; reflexivity.
  - inversion Hdb. subst rows. unfold operators in Halias. simpl in Halias, Hrow.
    destruct Halias as [<-|[<-|[<-|[<-|[]]]]];
      destruct Hrow as [<-|[<-|[]]]; reflexivity.
Qed.

Lemma aggregation_rows_carry_operators_witness :
  (exists s',
     performAggregationQuery Sample2.priced
       (Sample.statsParams (VStr "data.price") (VStr "type")) Sample2.textPageStore
     = Ok {| nbResults := VStr "3"; nbPages := VNum 2; page := VStr "2";
             nbResultsPerPage := VStr "2";
             results :=
               [[("count", VNum 3); ("avg", VDec 1235 2);
                 ("groupBy", VStr "type"); ("groupByValue", VStr "a");
                 ("sum", VNull); ("min", VNull); ("max", VNull)];
                [("count", VNum 1); ("avg", VNull);
                 ("groupBy", VStr "type"); ("groupByValue", VStr "b");
                 ("sum", VNull); ("min", VNull); ("max", VNull)]] |} s')
  /\ forall out op,
       In out (results
                 match performAggregationQuery Sample2.priced
                         (Sample.statsParams VUndef (VStr "type")) Sample2.textPageStore
                 with
                 | Ok r _ => r
                 | Err _ _ => getPaginationMeta VUndef VUndef VUndef
                 end) ->
       In op operators -> assoc_get op out = VNull.
Proof.
  split.
  - eexists. vm_compute. reflexivity.
  - destruct (performAggregationQuery Sample2.priced
                (Sample.statsParams VUndef (VStr "type")) Sample2.textPageStore)
      as [r s'|e s'] eqn:Hrun.
    + destruct (aggregation_rows_carry_operators _ _ _ _ _ Hrun)
        as (q & pre & sub & tail & ge & se & rows & _ & _ & _ & _ & _ & _ & _ & _ & Hnull).
      apply Hnull.
      * reflexivity.
      * intros n h v vs ops Hq. inversion Hq. reflexivity.
      * apply answersWhatIsAsked_priced.
    + vm_compute in Hrun. discriminate Hrun.
Defined.


(** ** Errors of the aggregation *)

Section FailsOnlyWith.
Variable Q : error -> Prop.






Hypothesis Htype : forall msg, Q (TypeError msg).
Hypothesis Hjoi : forall prefix, Q (JoiError prefix).





End FailsOnlyWith.



(** ** The grouping columns of an aggregation row *)

Lemma has_key_elem k ps : has_key k ps = true <-> k ∈ map fst ps.
Proof.
  unfold has_key. induction ps as [|[k' v] ps IH]; simpl.
  - split; [discriminate | intros H; inversion H].
  - rewrite orb_true_iff, IH, elem_of_cons, String.eqb_eq. reflexivity.
Qed.

Lemma has_key_set_ne k k' x ps :
  k <> k' -> has_key k (assoc_set k' x ps) = has_key k ps.
Proof.
  intros Hne. apply String.eqb_neq in Hne. unfold has_key.
  induction ps as [|[k0 v] ps IH]; simpl.
  - now rewrite Hne.
  - destruct (String.eqb k' k0) eqn:Hk; simpl.
    + apply String.eqb_eq in Hk. subst k0. now rewrite Hne.
    + now rewrite IH.
Qed.

Lemma assoc_set_NoDup k x ps : NoDup (map fst ps) -> NoDup (map fst (assoc_set k x ps)).
Proof.
  induction ps as [|[k' v] ps IH]; simpl; intros Hnd.
  - apply NoDup_cons. split; [intros H; inversion H | apply NoDup_nil_2].
  - apply NoDup_cons in Hnd. destruct Hnd as [Hnotin Hnd].
    destruct (String.eqb k k') eqn:Hk; simpl.
    + apply String.eqb_eq in Hk. subst k'. apply NoDup_cons. now split.
    + apply String.eqb_neq in Hk. apply NoDup_cons. split; [|now apply IH].
      rewrite <- has_key_elem, has_key_set_ne by congruence.
      now rewrite has_key_elem.
Qed.

Lemma has_key_del_same k ps : NoDup (map fst ps) -> has_key k (assoc_del k ps) = false.
Proof.
  induction ps as [|[k' v] ps IH]; simpl; intros Hnd; [reflexivity|].
  apply NoDup_cons in Hnd. destruct Hnd as [Hnotin Hnd].
  destruct (String.eqb k k') eqn:Hk.
  - apply String.eqb_eq in Hk. subst k'.
    destruct (has_key k ps) eqn:Hh; [|reflexivity].
    apply has_key_elem in Hh. contradiction.
  - unfold has_key in *. simpl. rewrite Hk. now apply IH.
Qed.

Lemma nullIfAbsent_has_key_other ops c k :
  inb k ops = false ->
  has_key k (fold_left (fun acc op => if isUndefined (assoc_get op acc)
                                      then assoc_set op VNull acc else acc) ops c)
  = has_key k c.
Proof.
  revert c. induction ops as [|op ops IH]; intros c Hk; simpl; [reflexivity|].
  unfold inb in Hk. simpl in Hk. apply orb_false_iff in Hk. destruct Hk as [Hne Hk].
  apply String.eqb_neq in Hne.
  rewrite (IH _ Hk). destruct (isUndefined (assoc_get op c)); [|reflexivity].
  now apply has_key_set_ne.
Qed.

(** X17.  In a row returned by [performAggregationQuery], [groupBy] is
    the requested grouping and [groupByValue] the group the database row
    stands for; the working column [groupByField] is gone; and a truthy
    [count] is read as a base-10 integer. *)
Theorem formatAggregationRow_grouping groupBy avgPrecision (row : object) :
  NoDup (map fst row) ->
  let out := formatAggregationRow groupBy avgPrecision row in
  assoc_get "groupBy" out = groupBy
  /\ assoc_get "groupByValue" out = assoc_get "groupByField" row
  /\ has_key "groupByField" out = false
  /\ assoc_get "count" out
     = if truthy (assoc_get "count" row) then parseInt10 (assoc_get "count" row)
       else assoc_get "count" row.
Proof.
  intros Hnd out. subst out. unfold formatAggregationRow.
  set (c1 := assoc_set "groupBy" groupBy row).
  set (c2 := assoc_set "groupByValue" (assoc_get "groupByField" c1) c1).
  set (c3 := assoc_del "groupByField" c2).
  set (c4 := if truthy (assoc_get "count" c3)
             then assoc_set "count" (parseInt10 (assoc_get "count" c3)) c3 else c3).
  set (c5 := if isNumber (assoc_get "avg" c4)
             then assoc_set "avg" ((roundDecimal (assoc_get "avg" c4)
                                                  avgPrecision)) c4
             else c4).
  assert (Hfield : assoc_get "groupByField" c1 = assoc_get "groupByField" row)
    by (apply assoc_get_set_other; discriminate).
  assert (H45 : forall k, k <> "avg" -> assoc_get k c5 = assoc_get k c4).
  { intros k Hk. unfold c5. destruct (isNumber _); [|reflexivity].
    now apply assoc_get_set_other. }
  assert (H34 : forall k, k <> "count" -> assoc_get k c4 = assoc_get k c3).
  { intros k Hk. unfold c4. destruct (truthy _); [|reflexivity].
    now apply assoc_get_set_other. }
  assert (Hcount3 : assoc_get "count" c3 = assoc_get "count" row).
  { unfold c3, c2, c1. rewrite assoc_get_del_other by discriminate.
    now rewrite !assoc_get_set_other by discriminate. }
  split; [|split; [|split]].
  - rewrite nullIfAbsent_get. simpl. rewrite H45, H34 by discriminate.
    unfold c3, c2, c1. rewrite assoc_get_del_other by discriminate.
    rewrite assoc_get_set_other by discriminate. apply assoc_get_set_same.
  - rewrite nullIfAbsent_get. simpl. rewrite H45, H34 by discriminate.
    unfold c3, c2. rewrite assoc_get_del_other by discriminate.
    now rewrite assoc_get_set_same.
  - rewrite nullIfAbsent_has_key_other by reflexivity.
    assert (H3 : has_key "groupByField" c3 = false).
    { unfold c3, c2, c1. apply has_key_del_same. now do 2 apply assoc_set_NoDup. }
    unfold c5. destruct (isNumber _).
    + rewrite has_key_set_ne by discriminate.
      unfold c4. destruct (truthy _); [|exact H3].
      now rewrite has_key_set_ne by discriminate.
    + unfold c4. destruct (truthy _); [|exact H3].
      now rewrite has_key_set_ne by discriminate.
  - rewrite nullIfAbsent_get. simpl. rewrite H45 by discriminate.
    unfold c4. rewrite Hcount3. destruct (truthy (assoc_get "count" row)).
    + apply assoc_get_set_same.
    + exact Hcount3.
Qed.

Lemma formatAggregationRow_grouping_witness :
  let out := formatAggregationRow (VStr "type") (VNum 2)
               [("groupByField", VStr "a"); ("count", VStr "3")] in
  assoc_get "groupBy" out = VStr "type"
  /\ assoc_get "groupByValue" out = VStr "a"
  /\ has_key "groupByField" out = false
  /\ assoc_get "count" out = VNum 3.
Proof.
  apply (formatAggregationRow_grouping (VStr "type") (VNum 2)
           [("groupByField", VStr "a"); ("count", VStr "3")]).
  apply NoDup_cons. split; [rewrite list_elem_of_In; simpl; intuition discriminate|].
  apply NoDup_cons. split; [rewrite list_elem_of_In; simpl; intuition discriminate|].
  apply NoDup_nil_2.
Defined.

(** ** The history planner *)

Lemma readonly_final {A} (m : M A) s :
  keeps (fun st => st = s) m -> finalState (m s) = s.
Proof. intros H. now apply H. Qed.

(** X18.  With a [groupBy] other than [hour], [day] or [month],
    [performHistoryQuery] always fails, and leaves the store (the builder
    and the executed queries) as it found it; when the configurations
    are valid and no filters are passed, the failure is the plain error
    naming the value. *)
Theorem history_rejects_unknown_groupBy E p s :
  includes ["hour"; "day"; "month"] (groupBy p) = false ->
  (exists e, performHistoryQuery E p s = Err e s)
  /\ (orderConfigSchema (heap s) (orderConfig p) = true ->
      truthy (filters p) = false ->
      paginationConfigSchema (heap s) (paginationConfig p) = true ->
      performHistoryQuery E p s
      = Err (PlainError ("Invalid groupBy value: " +:+ ToString (groupBy p))) s).
Proof.
  intros Hg. split.
  - unfold performHistoryQuery. cbv zeta. unfold bind at 1.
    destruct (checkOrderConfig (orderConfig p) s) as [u1 s1|e1 s1] eqn:H1;
      apply (f_equal finalState) in H1; rewrite readonly_final in H1 by readonly_tac;
      simpl in H1; subst s1; [|now exists e1].
    unfold bind at 1.
    match goal with |- exists e, match ?m s with _ => _ end = _ =>
      destruct (m s) as [u2 s2|e2 s2] eqn:H2;
        apply (f_equal finalState) in H2; rewrite readonly_final in H2 by readonly_tac;
        simpl in H2; subst s2; [|now exists e2]
    end.
    unfold bind at 1.
    destruct (checkPaginationConfig (paginationConfig p) s) as [u3 s3|e3 s3] eqn:H3;
      apply (f_equal finalState) in H3; rewrite readonly_final in H3 by readonly_tac;
      simpl in H3; subst s3; [|now exists e3].
    rewrite Hg. simpl. now eexists.
  - intros Ho Hf Hp. unfold performHistoryQuery. cbv zeta.
    unfold checkOrderConfig, checkPaginationConfig.
    rewrite (bind_Ok _ _ _ _ _ (validate_ok _ _ _ _ Ho)).
    rewrite Hf.
    erewrite bind_Ok; [|reflexivity].
    rewrite (bind_Ok _ _ _ _ _ (validate_ok _ _ _ _ Hp)).
    rewrite Hg. reflexivity.
Qed.

Lemma history_rejects_unknown_groupBy_witness :
  performHistoryQuery (Sample.env []) (Sample2.rawHistoryParams (VStr "week"))
    Sample.typeOnlyStore
  = Err (PlainError "Invalid groupBy value: week") Sample.typeOnlyStore.
Proof.
  apply (history_rejects_unknown_groupBy (Sample.env [])
           (Sample2.rawHistoryParams (VStr "week")) Sample.typeOnlyStore);
    reflexivity.
Defined.






(** ** The list planner *)







(** X22.  [performListQuery] validates before it touches anything: when
    the order configuration is invalid, or the filters passed are, or
    pagination is active and its configuration is invalid, the call
    fails with the validation error and the store (the builder included)
    is as it was. *)
Theorem list_validates_before_building E B (p : ListQuery.Params) s :
  orderConfigSchema (heap s) (ListQuery.orderConfig p) = false
  \/ (truthy (ListQuery.filters p) = true
      /\ filtersSchema (heap s) (ListQuery.filters p) = false)
  \/ (truthy (default (VBool true) (ListQuery.paginationActive p)) = true
      /\ paginationConfigSchema (heap s) (ListQuery.paginationConfig p) = false) ->
  exists prefix, performListQuery E B p s = Err (JoiError prefix) s.
Proof.
  intros Hbad. unfold performListQuery. cbv zeta.
  unfold checkOrderConfig, checkFilters, checkPaginationConfig.
  destruct (orderConfigSchema (heap s) (ListQuery.orderConfig p)) eqn:Ho.
  2:{ eexists. apply bind_Err. now apply validate_err. }
  rewrite (bind_Ok _ _ _ _ _ (validate_ok _ _ _ _ Ho)).
  destruct (truthy (ListQuery.filters p)) eqn:Hf; simpl when.
  - destruct (filtersSchema (heap s) (ListQuery.filters p)) eqn:Hfs.
    2:{ eexists. apply bind_Err. now apply validate_err. }
    rewrite (bind_Ok _ _ _ _ _ (validate_ok _ _ _ _ Hfs)).
    destruct Hbad as [Hbad|[[_ Hbad]|[Hpa Hpc]]]; try discriminate Hbad.
    rewrite Hpa. simpl when. eexists. apply bind_Err. now apply validate_err.
  - erewrite bind_Ok; [|reflexivity].
    destruct Hbad as [Hbad|[[Hbad _]|[Hpa Hpc]]]; try discriminate Hbad.
    rewrite Hpa. simpl when. eexists. apply bind_Err. now apply validate_err.
Qed.

Lemma list_validates_before_building_witness :
  exists prefix,
    performListQuery (Sample.env []) Sample2.namedOnly
      {| ListQuery.queryBuilder := VRef 0; ListQuery.filters := VRef 3;
         ListQuery.paginationActive := VUndef;
         ListQuery.paginationConfig := VUndef; ListQuery.orderConfig := VRef 1;
         ListQuery.beforeQueryFn := VFun 0 |}
      Sample.typeOnlyStore
    = Err (JoiError prefix) Sample.typeOnlyStore.
Proof.
  apply (list_validates_before_building (Sample.env []) Sample2.namedOnly
           {| ListQuery.queryBuilder := VRef 0; ListQuery.filters := VRef 3;
              ListQuery.paginationActive := VUndef;
              ListQuery.paginationConfig := VUndef; ListQuery.orderConfig := VRef 1;
              ListQuery.beforeQueryFn := VFun 0 |}
           Sample.typeOnlyStore).
  right. right. split; reflexivity.
Defined.

(** ** The patterns of the document validation schemas *)

(** [+:+] computes on the constructors of its first argument. *)
Ltac app_step :=
  repeat match goal with
         | |- context [String ?c ?s +:+ ?t] =>
             change (String c s +:+ t) with (String c (s +:+ t))
         | |- context [EmptyString +:+ ?t] => change (EmptyString +:+ t) with t
         end.

Ltac app_step_in H :=
  repeat match type of H with
         | context [String ?c ?s +:+ ?t] =>
             change (String c s +:+ t) with (String c (s +:+ t)) in H
         | context [EmptyString +:+ ?t] => change (EmptyString +:+ t) with t in H
         end.

Lemma append_nil_r (s : string) : s +:+ EmptyString = s.
Proof. induction s as [|c s IH]; app_step; [reflexivity | f_equal; exact IH]. Qed.

Lemma append_assoc (a b c : string) : (a +:+ b) +:+ c = a +:+ (b +:+ c).
Proof. induction a as [|x a IH]; app_step; [reflexivity | f_equal; exact IH]. Qed.

Lemma append_eq_nil (a b : string) :
  a +:+ b = EmptyString -> a = EmptyString /\ b = EmptyString.
Proof. destruct a; app_step; [auto | discriminate]. Qed.

Lemma lang_never_inv s : lang RNever s -> False.
Proof. intros H. inversion H. Qed.

Lemma lang_eps_inv s : lang REps s -> s = EmptyString.
Proof. intros H. now inversion H. Qed.

Lemma lang_class_inv p s :
  lang (RClass p) s -> exists c, s = String c EmptyString /\ p c = true.
Proof. intros H. inversion H. subst. eauto. Qed.

Lemma lang_seq_inv r1 r2 s :
  lang (RSeq r1 r2) s -> exists s1 s2, s = s1 +:+ s2 /\ lang r1 s1 /\ lang r2 s2.
Proof. intros H. inversion H. subst. eauto. Qed.

Lemma lang_alt_inv r1 r2 s : lang (RAlt r1 r2) s -> lang r1 s \/ lang r2 s.
Proof. intros H. inversion H; subst; auto. Qed.

Lemma nullable_lang r : nullable r = true <-> lang r EmptyString.
Proof.
  induction r as [| |p|r1 IH1 r2 IH2|r1 IH1 r2 IH2|r IH]; simpl.
  - split; [discriminate | intros H; now apply lang_never_inv in H].
  - split; [constructor | reflexivity].
  - split; [discriminate|]. intros H. apply lang_class_inv in H.
    destruct H as (c & Hc & _). discriminate Hc.
  - rewrite andb_true_iff, IH1, IH2. split.
    + intros [H1 H2]. apply (lang_seq _ _ EmptyString EmptyString); assumption.
    + intros H. apply lang_seq_inv in H. destruct H as (s1 & s2 & Heq & H1 & H2).
      symmetry in Heq. apply append_eq_nil in Heq. destruct Heq as [-> ->]. now split.
  - rewrite orb_true_iff, IH1, IH2. split.
    + intros [H|H]; [now apply lang_alt_l | now apply lang_alt_r].
    + apply lang_alt_inv.
  - split; [constructor | reflexivity].
Qed.

Lemma deriv_sound c r : forall s, lang (deriv c r) s -> lang r (String c s).
Proof.
  induction r as [| |p|r1 IH1 r2 IH2|r1 IH1 r2 IH2|r IH]; simpl; intros s H.
  - now apply lang_never_inv in H.
  - now apply lang_never_inv in H.
  - destruct (p c) eqn:Hp; [|now apply lang_never_inv in H].
    apply lang_eps_inv in H. subst. now constructor.
  - assert (Hseq : forall t, lang (RSeq (deriv c r1) r2) t -> lang (RSeq r1 r2) (String c t)).
    { intros t Ht. apply lang_seq_inv in Ht. destruct Ht as (s1 & s2 & -> & H1 & H2).
      apply (lang_seq _ _ (String c s1) s2); auto. }
    destruct (nullable r1) eqn:Hn; [|now apply Hseq].
    apply lang_alt_inv in H. destruct H as [H|H]; [now apply Hseq|].
    apply (lang_seq _ _ EmptyString (String c s)); [now apply nullable_lang | auto].
  - apply lang_alt_inv in H. destruct H as [H|H]; [apply lang_alt_l | apply lang_alt_r]; auto.
  - apply lang_seq_inv in H. destruct H as (s1 & s2 & -> & H1 & H2).
    apply (lang_star_cons _ (String c s1) s2); auto.
Qed.

Lemma deriv_complete c r cs : lang r cs -> forall s, cs = String c s -> lang (deriv c r) s.
Proof.
  induction 1 as [|p c0 Hp|r1 r2 s1 s2 H1 IH1 H2 IH2|r1 r2 s0 H IH|r1 r2 s0 H IH
                  |r|r s1 s2 H1 IH1 H2 IH2]; intros s Heq; simpl.
  - discriminate.
  - inversion Heq. subst. rewrite Hp. constructor.
  - destruct s1 as [|c1 s1]; app_step_in Heq.
    + subst s2. apply nullable_lang in H1. rewrite H1. apply lang_alt_r. now apply IH2.
    + inversion Heq. subst.
      assert (Hseq : lang (RSeq (deriv c r1) r2) (s1 +:+ s2))
        by (constructor; [now apply IH1 | exact H2]).
      destruct (nullable r1); [now apply lang_alt_l | exact Hseq].
  - apply lang_alt_l. now apply IH.
  - apply lang_alt_r. now apply IH.
  - discriminate.
  - destruct s1 as [|c1 s1]; app_step_in Heq.
    + now apply IH2.
    + inversion Heq. subst. constructor; [now apply IH1 | exact H2].
Qed.

Lemma regex_test_lang r s : regex_test r s = true <-> lang r s.
Proof.
  revert r. induction s as [|c s IH]; intros r; simpl.
  - apply nullable_lang.
  - rewrite IH. split; [apply deriv_sound | intros H; now apply (deriv_complete c r _ H)].
Qed.

Lemma allChars_app p a b : allChars p (a +:+ b) = allChars p a && allChars p b.
Proof.
  induction a as [|c a IH]; app_step; simpl; [reflexivity|]. now rewrite IH, andb_assoc.
Qed.

Lemma lang_alphabet q r s : alphabet q r -> lang r s -> allChars q s = true.
Proof.
  intros Hq H. induction H as [|p c Hp|r1 r2 s1 s2 H1 IH1 H2 IH2|r1 r2 s0 H IH|r1 r2 s0 H IH
                                |r|r s1 s2 H1 IH1 H2 IH2]; simpl in *.
  - reflexivity.
  - rewrite (Hq _ Hp). reflexivity.
  - rewrite allChars_app, IH1, IH2; tauto.
  - apply IH. tauto.
  - apply IH. tauto.
  - reflexivity.
  - rewrite allChars_app, IH1, IH2; auto.
Qed.

Lemma lang_star_class p s : allChars p s = true -> lang (RStar (RClass p)) s.
Proof.
  induction s as [|c s IH]; simpl; intros H; [constructor|].
  apply andb_prop in H. destruct H as [Hc Hs].
  apply (lang_star_cons _ (String c EmptyString) s); [now constructor | auto].
Qed.

Lemma lang_word s : lang word s <-> isWordString s = true.
Proof.
  unfold isWordString. split.
  - intros H. apply andb_true_iff. split.
    + apply lang_seq_inv in H. destruct H as (s1 & s2 & -> & H1 & _).
      apply lang_class_inv in H1. destruct H1 as (c & -> & _). reflexivity.
    + apply (lang_alphabet _ word); [|exact H]. simpl. auto.
  - intros H. apply andb_prop in H. destruct H as [Hne Hs].
    destruct s as [|c s]; [discriminate|]. simpl in Hs.
    apply andb_prop in Hs. destruct Hs as [Hc Hs].
    apply (lang_seq _ _ (String c EmptyString) s); [now constructor|].
    now apply lang_star_class.
Qed.

Lemma lang_star_mono r r' s :
  (forall t, lang r t -> lang r' t) -> lang (RStar r) s -> lang (RStar r') s.
Proof.
  intros Hsub H. remember (RStar r) as r0 eqn:Hr0.
  induction H as [| | | | |r1|r1 s1 s2 H1 IH1 H2 IH2]; try discriminate.
  - constructor.
  - inversion Hr0. subst. constructor; auto.
Qed.

(** A list written with a separator: [item], then any number of
    [sep item]. *)
Section Separated.
Variables (sep : ascii) (item : regex).
Hypothesis Hitem : alphabet (fun c => negb (Ascii.eqb sep c)) item.

Lemma split_on_item s : lang item s -> split_on (Ascii.eqb sep) s = [s].
Proof.
  intros H. apply (lang_alphabet _ _ _ Hitem) in H.
  induction s as [|c s IH]; simpl; [reflexivity|].
  simpl in H. apply andb_prop in H. destruct H as [Hc Hs].
  apply negb_true_iff in Hc. rewrite Hc, (IH Hs). reflexivity.
Qed.

Lemma separated_split t :
  lang (RStar (RSeq (lit sep) item)) t ->
  forall s, lang item s ->
  Forall (lang item) (split_on (Ascii.eqb sep) (s +:+ t)).
Proof.
  intros H. remember (RStar (RSeq (lit sep) item)) as r0 eqn:Hr0.
  induction H as [| | | | |r1|r1 s1 s2 H1 IH1 H2 IH2]; try discriminate; intros s Hs.
  - rewrite append_nil_r, (split_on_item _ Hs). now constructor.
  - inversion Hr0. subst r1.
    apply lang_seq_inv in H1. destruct H1 as (a & b & -> & Ha & Hb).
    apply lang_class_inv in Ha. destruct Ha as (c & -> & Hc).
    apply Ascii.eqb_eq in Hc. subst c.
    app_step.
    rewrite split_on_app_sep by apply Ascii.eqb_refl.
    rewrite (split_on_item _ Hs). constructor; [exact Hs|]. now apply IH2.
Qed.

Lemma concat_split s :
  String.concat (String sep EmptyString) (split_on (Ascii.eqb sep) s) = s.
Proof.
  induction s as [|c s IH]; simpl; [reflexivity|].
  destruct (split_on_cons (Ascii.eqb sep) s) as (x & xs & Hx). rewrite Hx in *.
  destruct (Ascii.eqb sep c) eqn:Hc.
  - apply Ascii.eqb_eq in Hc. subst c. rewrite <- IH. reflexivity.
  - rewrite <- IH. destruct xs; reflexivity.
Qed.

Lemma separated_concat x xs :
  lang item x -> Forall (lang item) xs ->
  lang (RSeq item (RStar (RSeq (lit sep) item)))
    (String.concat (String sep EmptyString) (x :: xs)).
Proof.
  intros Hx Hxs. revert x Hx. induction Hxs as [|y ys Hy Hys IH]; intros x Hx.
  - simpl. rewrite <- (append_nil_r x). constructor; [exact Hx | constructor].
  - change (String.concat (String sep EmptyString) (x :: y :: ys))
      with (x +:+ String sep (String.concat (String sep EmptyString) (y :: ys))).
    constructor; [exact Hx|].
    specialize (IH y Hy).
    apply lang_seq_inv in IH. destruct IH as (a & b & -> & Ha & Hb).
    change (String sep (a +:+ b)) with ((String sep EmptyString +:+ a) +:+ b).
    constructor; [|exact Hb].
    constructor; [|exact Ha]. constructor. apply Ascii.eqb_refl.
Qed.

Lemma lang_separated s :
  lang (RSeq item (RStar (RSeq (lit sep) item))) s
  <-> Forall (lang item) (split_on (Ascii.eqb sep) s).
Proof.
  split.
  - intros H. apply lang_seq_inv in H. destruct H as (a & b & -> & Ha & Hb).
    now apply separated_split.
  - intros H. rewrite <- (concat_split s).
    destruct (split_on_cons (Ascii.eqb sep) s) as (x & xs & Hx). rewrite Hx in *.
    inversion H. subst. now apply separated_concat.
Qed.
End Separated.

Lemma joi_string_regex_lang r s :
  nullable r = false -> (joi_string_regex r (VStr s) = true <-> lang r s).
Proof.
  intros Hn. unfold joi_string_regex. rewrite andb_true_iff, regex_test_lang. split.
  - tauto.
  - intros H. split; [|exact H]. destruct s as [|c s]; [|reflexivity].
    apply nullable_lang in H. congruence.
Qed.

Lemma Forall_forallb {A} (P : A -> Prop) (f : A -> bool) (l : list A) :
  (forall x, P x <-> f x = true) -> (Forall P l <-> forallb f l = true).
Proof.
  intros Hpf. induction l as [|x l IH]; simpl.
  - split; [reflexivity | constructor].
  - rewrite andb_true_iff, <- IH, <- Hpf. split.
    + intros H. inversion H. now split.
    + intros [Hx Hl]. now constructor.
Qed.

Lemma not_word_char c : isWordChar c = false -> forall c', isWordChar c' = true ->
  negb (Ascii.eqb c c') = true.
Proof.
  intros Hc c' Hc'. destruct (Ascii.eqb c c') eqn:Heq; [|reflexivity].
  apply Ascii.eqb_eq in Heq. subst c'. congruence.
Qed.

Lemma alphabet_word (q : ascii -> bool) :
  (forall c, isWordChar c = true -> q c = true) -> alphabet q word.
Proof. intros H. exact (conj H H). Qed.

Lemma alphabet_lit (q : ascii -> bool) c : q c = true -> alphabet q (lit c).
Proof.
  intros H. unfold lit. cbn [alphabet]. intros x Hx.
  apply Ascii.eqb_eq in Hx. now subst x.
Qed.

Lemma lang_labelWithWildcard_of_label s :
  lang labelRegex s -> lang labelWithWildcardRegex s.
Proof.
  intros H. apply lang_alt_r.
  apply lang_seq_inv in H. destruct H as (a & b & -> & Ha & Hb).
  constructor; [exact Ha|]. revert Hb. apply lang_star_mono.
  intros t Ht. apply lang_seq_inv in Ht. destruct Ht as (c & w & -> & Hc & Hw).
  constructor; [exact Hc | now apply lang_alt_l].
Qed.

(** X23.  The label patterns are nested: a label that [labelSchema]
    accepts (one that can be stored on a document) is accepted by
    [labelWithWildcardSchema], and whatever that accepts is accepted by
    [multipleLabelsWithWildcardSchema] (it can be used as a filter, alone
    or in a list). *)
Theorem label_schemas_nested (v : value) :
  (labelSchema v = true -> labelWithWildcardSchema v = true)
  /\ (labelWithWildcardSchema v = true -> multipleLabelsWithWildcardSchema v = true).
Proof.
  unfold labelSchema, labelWithWildcardSchema, multipleLabelsWithWildcardSchema.
  destruct v as [| | |b|n|s|l|f| |]; try (split; discriminate).
  rewrite !joi_string_regex_lang by reflexivity. split.
  - apply lang_labelWithWildcard_of_label.
  - intros H. rewrite <- (append_nil_r s). constructor; [exact H | constructor].
Qed.

(** X24.  [labelSchema] accepts exactly the strings whose parts between
    colons are all non-empty words (letters, digits, underscores): no
    empty part, hence no leading, trailing or doubled colon. *)
Theorem labelSchema_segments (s : string) :
  labelSchema (VStr s) = true
  <-> forallb isWordString (split_on (Ascii.eqb ":") s) = true.
Proof.
  unfold labelSchema. rewrite joi_string_regex_lang by reflexivity.
  unfold labelRegex. rewrite lang_separated.
  - apply Forall_forallb. apply lang_word.
  - apply alphabet_word. now apply not_word_char.
Qed.

(** X25.  [multipleLabelsWithWildcardSchema] accepts exactly the strings
    whose parts between commas are each accepted by
    [labelWithWildcardSchema]. *)
Theorem multipleLabels_parts (s : string) :
  multipleLabelsWithWildcardSchema (VStr s) = true
  <-> forallb (fun part => labelWithWildcardSchema (VStr part))
        (split_on (Ascii.eqb ",") s) = true.
Proof.
  unfold multipleLabelsWithWildcardSchema. rewrite joi_string_regex_lang by reflexivity.
  unfold multipleLabelsWithWildcardRegex. rewrite lang_separated.
  - apply Forall_forallb. intros part. unfold labelWithWildcardSchema.
    now rewrite joi_string_regex_lang.
  - assert (W : alphabet (fun c => negb (Ascii.eqb "," c)) word)
      by (apply alphabet_word; now apply not_word_char).
    assert (A : alphabet (fun c => negb (Ascii.eqb "," c)) (lit "*"))
      by now apply alphabet_lit.
    assert (C : alphabet (fun c => negb (Ascii.eqb "," c)) (lit ":"))
      by now apply alphabet_lit.
    exact (conj A (conj W (conj C (conj W A)))).
Qed.

Lemma lang_RLit t s : lang (RLit t) s -> s = t.
Proof.
  revert s. induction t as [|c t IH]; simpl; intros s H.
  - now apply lang_eps_inv.
  - apply lang_seq_inv in H. destruct H as (a & b & -> & Ha & Hb).
    apply lang_class_inv in Ha. destruct Ha as (x & -> & Hx).
    apply Ascii.eqb_eq in Hx. subst x. app_step. f_equal. now apply IH.
Qed.

Lemma allChars_mono (p q : ascii -> bool) s :
  (forall c, p c = true -> q c = true) -> allChars p s = true -> allChars q s = true.
Proof.
  intros Hpq. induction s as [|c s IH]; simpl; [reflexivity|].
  intros H. apply andb_prop in H. destruct H as [Hc Hs].
  now rewrite (Hpq _ Hc), IH.
Qed.

Lemma word_is_segment name : isWordString name = true -> isSegment name = true.
Proof.
  unfold isWordString, isSegment. intros H. apply andb_prop in H. destruct H as [Hne Hw].
  rewrite Hne. simpl. revert Hw. apply allChars_mono.
  intros c Hc. destruct (is_path_sep c) eqn:Hsep; [|reflexivity].
  unfold is_path_sep in Hsep. apply orb_prop in Hsep.
  destruct Hsep as [Hsep|Hsep]; [apply orb_prop in Hsep; destruct Hsep as [Hsep|Hsep]|];
    apply Ascii.eqb_eq in Hsep; subst c; discriminate Hc.
Qed.

(** X26.  Whatever the stats endpoint accepts as [groupBy] (and as
    [field], which must be a data field) compiles without failure: a data
    field [data.name] to the JSON path of [name] in the column [data],
    and [authorId] or [targetId] to the quoted column. *)
Theorem validated_groupBy_compiles (v : value) (s : state) :
  groupBySchema v = true ->
  (dataFieldSchema v = true
   /\ exists name, v = VStr ("data." +:+ name) /\ isWordString name = true
        /\ getSqlExpression v s = Ok (sqlExpression "data" [name]) s)
  \/ (exists column, v = VStr column /\ In column ["authorId"; "targetId"]
        /\ getSqlExpression v s = Ok (sqlExpression column []) s).
Proof.
  unfold groupBySchema. intros H. apply orb_prop in H. destruct H as [H|H].
  - left. split; [exact H|].
    destruct v as [| | |b|n|f|l|fn| |]; try discriminate H.
    unfold dataFieldSchema in H. apply joi_string_regex_lang in H; [|reflexivity].
    apply lang_seq_inv in H. destruct H as (a & name & -> & Ha & Hname).
    apply lang_RLit in Ha. subst a. apply lang_word in Hname.
    exists name. split; [reflexivity|]. split; [exact Hname|].
    rewrite getSqlExpression_segments.
    change ("data." +:+ name) with (String.concat "." ["data"; name]).
    rewrite segments_path; [reflexivity | reflexivity |].
    simpl. now rewrite word_is_segment.
  - right. destruct v as [| | |b|n|column|l|fn| |]; try discriminate H.
    exists column. split; [reflexivity|].
    unfold inb in H. simpl in H. rewrite orb_false_r in H.
    apply orb_prop in H. destruct H as [H|H]; apply String.eqb_eq in H; subst column;
      (split; [simpl; tauto | reflexivity]).
Qed.

Lemma validated_groupBy_compiles_witness :
  getSqlExpression (VStr "data.price") Sample.typeOnlyStore
  = Ok (dquote +:+ "data" +:+ dquote +:+ "#>>'{price}'") Sample.typeOnlyStore.
Proof.
  destruct (validated_groupBy_compiles (VStr "data.price") Sample.typeOnlyStore eq_refl)
    as [(_ & name & Hv & _ & Hsql)|(column & Hv & Hin & _)].
  - cbv in Hv. inversion Hv. subst name. exact Hsql.
  - inversion Hv. subst column. simpl in Hin. intuition discriminate.
Defined.

Lemma label_schemas_nested_witness :
  labelWithWildcardSchema (VStr "user:signup") = true
  /\ multipleLabelsWithWildcardSchema (VStr "user:signup") = true.
Proof.
  destruct (label_schemas_nested (VStr "user:signup")) as [H1 H2].
  split; [apply H1; reflexivity | apply H2; apply H1; reflexivity].
Defined.

(** ** Valid filters and the transformations *)

Lemma bind_Err_inv {A B} (m : M A) (k : A -> M B) s e s' :
  bind m k s = Err e s' ->
  m s = Err e s' \/ exists a s1, m s = Ok a s1 /\ k a s1 = Err e s'.
Proof.
  unfold bind. destruct (m s) as [a s1|e1 s1]; intros H.
  - right. now exists a, s1.
  - left. inversion H. reflexivity.
Qed.

Lemma valid_entry h fs key :
  forallb (fun p => joi_string (VStr (fst p)) && optional (filterSpecSchema h) (snd p)) fs
  = true ->
  optional (filterSpecSchema h) (assoc_get key fs) = true.
Proof.
  induction fs as [|[k v] fs IH]; simpl; intros H; [reflexivity|].
  apply andb_prop in H. destruct H as [Hp Hfs]. apply andb_prop in Hp.
  destruct (String.eqb key k); [apply Hp | now apply IH].
Qed.

Section ValidFilters.
Variables (E : Env) (h0 : list cell) (lf : loc) (fs : object).
Hypothesis Hfs : h0 !! lf = Some (CObj fs).
Hypothesis Hvalid :
  forallb (fun p => joi_string (VStr (fst p)) && optional (filterSpecSchema h0) (snd p)) fs
  = true.

Let J := fun st : state => exists more, heap st = h0 ++ more.

Lemma transformOne_failure lvs key st e st' :
  In key (map fst fs) ->
  J st ->
  transformOne E (VRef lf) (VRef lvs) key st = Err e st' ->
  transformFailure E h0 (VRef lf) e.
Proof.
  intros Hkey (more & Hst) H. unfold transformOne in H.
  rewrite (bind_Ok _ _ _ _ _ (getProp_ref _ _ _)) in H.
  assert (Hv : prop (heap st) (VRef lf) key = assoc_get key fs).
  { apply prop_obj. rewrite Hst. now apply lookup_app_l_Some. }
  rewrite Hv in H.
  exists fs, key. split; [exact Hfs|]. split; [exact Hkey|].
  pose proof (valid_entry h0 fs key Hvalid) as Hentry.
  unfold optional in Hentry. apply orb_prop in Hentry. destruct Hentry as [Hu|Hspec].
  - left. destruct (assoc_get key fs) eqn:Hget; try discriminate Hu.
    split; [reflexivity|].
    unfold bind, destructure, throw in H. inversion H. reflexivity.
  - right. unfold filterSpecSchema in Hspec.
    destruct (assoc_get key fs) as [| | | | | |lv| | |] eqn:Hget; try discriminate Hspec.
    simpl in Hspec. destruct (h0 !! lv) as [[ps| |]|] eqn:Hlv; try discriminate Hspec.
    apply andb_prop in Hspec. destruct Hspec as [Hspec _].
    apply andb_prop in Hspec. destruct Hspec as [_ Ht].
    assert (Hps : heap st !! lv = Some (CObj ps))
      by (rewrite Hst; now apply lookup_app_l_Some).
    exists lv, ps, more. split; [reflexivity|]. split; [exact Hlv|].
    erewrite bind_Ok in H; [|reflexivity].
    rewrite !(bind_Ok _ _ _ _ _ (getProp_ref _ _ _)) in H.
    rewrite !(prop_obj _ _ _ _ Hps) in H.
    apply bind_Err_inv in H. destruct H as [H|(x & s1 & _ & H)].
    + unfold optional in Ht. apply orb_prop in Ht. destruct Ht as [Ht|Ht].
      * rewrite Ht in H. discriminate H.
      * destruct (assoc_get "transformValue" ps) as [| | | | |t| |n| |];
          try discriminate Ht; simpl in H.
        -- unfold joi_string_valid, inb in Ht. simpl in Ht. rewrite !orb_false_r in Ht.
           rewrite Ht in H. unfold liftAlloc in H. rewrite Hst in H.
           destruct (parseArrayValues E (h0 ++ more) (assoc_get "value" ps))
             as [e1|[v new]] eqn:Hp; inversion H. subst.
           right. apply String.eqb_eq in Ht. subst t. now split.
        -- unfold liftAlloc in H. rewrite Hst in H.
           destruct (transformFn E n (h0 ++ more) (assoc_get "value" ps))
             as [e1|[v new]] eqn:Hp; inversion H. subst.
           left. exists n. now split.
    + unfold setProp in H. destruct (heap s1 !! lvs) as [[]|]; discriminate H.
Qed.

Lemma transformOne_keeps values key :
  (exists lv, values = VRef lv /\ length h0 <= lv) ->
  keeps J (transformOne E (VRef lf) values key).
Proof.
  apply (keeps_transformOne J (fun v => exists lv, v = VRef lv /\ length h0 <= lv)).
  - intros f st (more & Hst). unfold liftAlloc, J.
    destruct (f (heap st)) as [e|[v new]]; simpl.
    + now exists more.
    + exists (more ++ new). now rewrite Hst, app_assoc.
  - intros v k x (lv & -> & Hlv) st (more & Hst). unfold setProp, J.
    destruct (heap st !! lv) as [[ps| |]|]; simpl; try now exists more.
    rewrite Hst, insert_app_r_alt by exact Hlv. eauto.
Qed.

Lemma transform_loop_failure lvs keys st e st' :
  incl keys (map fst fs) ->
  length h0 <= lvs -> J st ->
  forEach (transformOne E (VRef lf) (VRef lvs)) keys st = Err e st' ->
  transformFailure E h0 (VRef lf) e.
Proof.
  intros Hkeys Hlvs. revert st.
  induction keys as [|key keys IH]; intros st HJ H; simpl in H.
  - discriminate H.
  - apply bind_Err_inv in H. destruct H as [H|(u & s1 & H1 & H)].
    + apply (transformOne_failure lvs key st e st'); try assumption.
      apply Hkeys. now left.
    + apply (IH (fun k Hk => Hkeys k (or_intror Hk)) s1); [|exact H].
      apply (keeps_Ok _ _ _ _ _ (transformOne_keeps (VRef lvs) key
                                   (ex_intro _ lvs (conj eq_refl Hlvs))) HJ H1).
Qed.
End ValidFilters.

(** X27.  For filters that [checkFilters] accepts, the error [Unknown
    transformation value] cannot occur: a failure of
    [getTransformedValues] is owed to one key of the filters, and is
    either the runtime error raised on destructuring that key's entry
    when it is undefined, or what that entry's own transformation throws
    on that entry's value: its [transformValue] function, or
    [parseArrayValues] when [transformValue] is ['array']. *)
Theorem valid_filters_transform_failures E filters s e s' :
  filtersSchema (heap s) filters = true ->
  getTransformedValues E filters s = Err e s' ->
  transformFailure E (heap s) filters e.
Proof.
  intros Hvalid H. unfold filtersSchema in Hvalid.
  destruct filters as [| | | | | |lf| | |]; try discriminate Hvalid. simpl in Hvalid.
  destruct (heap s !! lf) as [[fs| |]|] eqn:Hfs; try discriminate Hvalid.
  apply andb_prop in Hvalid. destruct Hvalid as [_ Hvalid].
  unfold getTransformedValues in H.
  erewrite bind_Ok in H; [|reflexivity].
  rewrite (bind_Ok _ _ _ _ _
             (objectKeys_obj lf fs {| heap := heap s ++ [CObj []]; executed := executed s |}
                (lookup_app_l_Some _ _ _ _ Hfs))) in H.
  apply bind_Err_inv in H. destruct H as [H|(u & s1 & _ & H)]; [|discriminate H].
  apply (transform_loop_failure E (heap s) lf fs Hfs Hvalid _ _ _ _ _
           (incl_refl _) (Nat.le_refl _)) in H.
  - exact H.
  - exists [CObj []]. reflexivity.
Qed.

Lemma valid_filters_transform_failures_witness :
  transformFailure Sample2.throwingTransform
    (heap (Sample2.oneFilter "type"
             [("dbField", VStr "type"); ("value", VStr "x"); ("transformValue", VFun 7)]
             VUndef []))
    (VRef 1) (CustomError 7).
Proof.
  eapply (valid_filters_transform_failures Sample2.throwingTransform (VRef 1)
            (Sample2.oneFilter "type"
               [("dbField", VStr "type"); ("value", VStr "x");
                ("transformValue", VFun 7)] VUndef [])
            (CustomError 7)).
  - reflexivity.
  - vm_compute. reflexivity.
Defined.

(** ** Custom query functions *)

Lemma forEach_push l ops emitted s :
  heap s !! l = Some (CQuery ops) ->
  forEach (push (VRef l)) emitted s = Ok tt (writeCell l (CQuery (ops ++ emitted)) s).
Proof.
  revert ops s. induction emitted as [|op emitted IH]; intros ops s Hl; simpl.
  - rewrite app_nil_r. now rewrite writeCell_id.
  - rewrite (bind_Ok _ _ _ _ _ (push_query _ _ _ _ Hl)).
    rewrite (IH (ops ++ [op])).
    + rewrite writeCell_twice. now rewrite <- app_assoc.
    + apply writeCell_same. eapply lookup_lt_Some; eassumption.
Qed.

(** X28.  A filter whose [query] is a function needs no [dbField]: the
    function is called with the transformed value and the whole object of
    transformed values; what it emits is appended to the builder and the
    loop goes on, and what it throws is the failure of the call. *)
Theorem custom_query_emits E lq filters tvs s key rest s1 spec tv ops n :
  reaches E (VRef lq) filters tvs s key rest s1 ->
  filterAt (heap s1) filters tvs key spec tv ->
  heap s1 !! lq = Some (CQuery ops) ->
  isUndefined tv = false ->
  assoc_get "query" spec = VFun n ->
  addFiltersToQueryBuilder E (VRef lq) filters tvs s
  = match queryFn E n (heap s1) tv tvs with
    | inl e => Err e s1
    | inr emitted =>
        forEach (applyFilter E (VRef lq) filters tvs) rest
          (writeCell lq (CQuery (ops ++ emitted)) s1)
    end.
Proof.
  intros Hreach Hat Hops Hdef Hq.
  rewrite (addFilters_reaches _ _ _ _ _ _ _ _ Hreach).
  assert (Hstep : applyFilter E (VRef lq) filters tvs key s1
                  = match queryFn E n (heap s1) tv tvs with
                    | inl e => Err e s1
                    | inr emitted => Ok tt (writeCell lq (CQuery (ops ++ emitted)) s1)
                    end).
  { filter_reads Hat. rewrite Hdef, Hq. simpl.
    unfold callQuery. rewrite (bind_Ok _ _ _ _ _ (gets_Ok _ _)).
    destruct (queryFn E n (heap s1) tv tvs) as [e|emitted]; [reflexivity|].
    now apply forEach_push. }
  unfold bind at 1. rewrite Hstep.
  destruct (queryFn E n (heap s1) tv tvs); reflexivity.
Qed.

Lemma custom_query_emits_witness :
  addFiltersToQueryBuilder Sample2.customQuery (VRef 0) (VRef 1) (VRef 3)
    (Sample2.oneFilter "name" [("value", VStr "ann"); ("query", VFun 0)] (VStr "ann") [])
  = Ok tt (writeCell 0 (CQuery [WhereRaw "lower(name) = ?" [VStr "ann"]])
             (Sample2.oneFilter "name" [("value", VStr "ann"); ("query", VFun 0)]
                (VStr "ann") [])).
Proof.
  rewrite (custom_query_emits Sample2.customQuery 0 (VRef 1) (VRef 3)
             (Sample2.oneFilter "name" [("value", VStr "ann"); ("query", VFun 0)]
                (VStr "ann") [])
             "name" []
             (Sample2.oneFilter "name" [("value", VStr "ann"); ("query", VFun 0)]
                (VStr "ann") [])
             [("value", VStr "ann"); ("query", VFun 0)] (VStr "ann") [] 0).
  - reflexivity.
  - exists 1, [("name", VRef 2)], []. repeat split.
  - repeat split.
  - reflexivity.
  - reflexivity.
  - reflexivity.
Defined.
